(** * Thermal-comfort controller (PROYECTO_FINAL.ino): embedding and properties

    The sketch targets an AVR board (Arduino Mega pin map: SS on 53, RST on 49).
    On that target [int] is 16 bits, [unsigned long] is 32 bits and both
    [float] and [double] are IEEE-754 binary32.  The embedding follows this:

    - [float] values are [spec_float] with precision 24 and [emax] 128, the
      operations are the correctly rounded ones of the standard library's
      [SpecFloat]; a decimal literal is the correctly rounded quotient of two
      exactly representable integers ([F32.lit 8 10] is [0.8]);
    - [unsigned long] values are integers in [0, 2^32) with the wrap-around
      written out ([wrap32]); [int] counters and angles are integers (the
      sketch keeps them far from the 16-bit bounds);
    - the global variables of the sketch are the fields of [Sistema], under
      their own names; the observable pins (relay, LED, buzzer, servo) and the
      [millis()] counter are fields of the same record;
    - each function of the sketch is a function on [Sistema] with the name it
      has in the sketch; [delay] advances the counter;
    - what the peripherals return during one iteration of [loop()] (key, tag,
      keys typed during a blocking read, sensor readings, time spent waiting)
      is the record [Entrada]; a blocking read that never completes makes the
      iteration return [None].

    Text sent to the LCD and to the serial port and the commands sent to the
    RFID reader do not influence control and are left out.

    The file has two parts: the embedding with the notions used in the
    statements, then the lemmas and the theorems. *)

From Stdlib Require Import ZArith Bool List String Ascii Lia.
From Stdlib Require Import Floats.SpecFloat.
From Stdlib Require Strings.Byte.
Import ListNotations.
Local Open Scope Z_scope.

(** ** binary32 arithmetic *)

Module F32.

Definition prec : Z := 24.
Definition emax : Z := 128.

Definition float : Type := spec_float.

Definition of_Z (z : Z) : float := binary_normalize prec emax z 0 false.

Definition add : float -> float -> float := SFadd prec emax.
Definition sub : float -> float -> float := SFsub prec emax.
Definition mul : float -> float -> float := SFmul prec emax.
Definition div : float -> float -> float := SFdiv prec emax.
Definition opp : float -> float := SFopp.

(** C comparisons: [a < b], [a <= b], [a > b], [a >= b]; all false on NaN. *)
Definition lt (a b : float) : bool := SFltb a b.
Definition le (a b : float) : bool := SFleb a b.
Definition gt (a b : float) : bool := SFltb b a.
Definition ge (a b : float) : bool := SFleb b a.

Definition isnan (a : float) : bool :=
  match a with S754_nan => true | _ => false end.

Definition is_finite (a : float) : bool :=
  match a with S754_zero _ | S754_finite _ _ _ => true | _ => false end.

Definition valid (a : float) : bool := valid_binary prec emax a.

(** The literal [n/d] written in decimal, e.g. [lit 8 10] for [0.8]. *)
Definition lit (n d : Z) : float := div (of_Z n) (of_Z d).

End F32.

Definition float : Type := F32.float.

(** [constrain(amt, low, high)] of Arduino.h:
    [((amt)<(low)?(low):((amt)>(high)?(high):(amt)))]. *)
Definition constrain (amt low high : float) : float :=
  if F32.lt amt low then low else if F32.gt amt high then high else amt.

(** ** Comfort index *)

Definition tProm (tDHT tAnalog : float) : float :=
  F32.div (F32.add tDHT tAnalog) (F32.lit 20 10).

Definition factorHumedad (h : float) : float :=
  if F32.lt h (F32.of_Z 40) then
    F32.mul (F32.div (F32.sub (F32.of_Z 40) h) (F32.lit 400 10))
            (F32.opp (F32.lit 2 10))
  else if F32.gt h (F32.of_Z 60) then
    F32.mul (F32.div (F32.sub h (F32.of_Z 60)) (F32.lit 400 10)) (F32.lit 3 10)
  else F32.lit 0 10.

Definition factorLuz (luz : Z) : float :=
  let f := F32.mul (F32.div (F32.sub (F32.of_Z luz) (F32.lit 3000 10))
                            (F32.lit 7000 10))
                   (F32.lit 15 100) in
  constrain f (F32.opp (F32.lit 15 100)) (F32.lit 15 100).

Definition calcularPMV (tDHT tAnalog h : float) (luz : Z) : float :=
  let tempConfort := F32.lit 230 10 in
  let desviacionTemp := F32.sub (tProm tDHT tAnalog) tempConfort in
  let pmvCalculado :=
    F32.add (F32.add (F32.mul desviacionTemp (F32.lit 25 100)) (factorHumedad h))
            (factorLuz luz) in
  constrain pmvCalculado (F32.opp (F32.lit 20 10)) (F32.lit 20 10).

(** ** Global state *)

(** [unsigned long] arithmetic is modulo 2^32. *)
Definition wrap32 (x : Z) : Z := x mod 2 ^ 32.

Record Usuario : Type := mkUsuario {
  nombre : string;
  tag : string;
  clave : string
}.

Inductive Estado : Type := MENU | LOGIN | CONFORT.

Inductive EstadoPMV : Type :=
  PMV_MUY_BAJO | PMV_BAJO | PMV_CONFORT | PMV_CALOR | PMV_MUY_CALOR.

Definition EstadoPMV_eqb (a b : EstadoPMV) : bool :=
  match a, b with
  | PMV_MUY_BAJO, PMV_MUY_BAJO | PMV_BAJO, PMV_BAJO | PMV_CONFORT, PMV_CONFORT
  | PMV_CALOR, PMV_CALOR | PMV_MUY_CALOR, PMV_MUY_CALOR => true
  | _, _ => false
  end.

Record Sistema : Type := mkSistema {
  usuarios : list Usuario;  (* Base de datos de usuarios (maximo 2) *)
  totalUsuarios : Z;
  usuarioActivo : option nat;  (* index into [usuarios]; [None] is [nullptr] *)
  pmv : float;
  intentosFallidos : Z;
  alarmActive : bool;
  alarmSilenced : bool;
  alarmSilenceUntil : Z;
  lastAlarmToggle : Z;
  alarmToggleState : bool;
  pmvBajoActive : bool;
  lastPmvBajoToggle : Z;
  pmvBajoToggleState : bool;
  sistemaBloqueado : bool;
  tiempoBloqueo : Z;
  servoAnguloActual : Z;
  servoAnguloDeseado : Z;
  ultimoCambioServo : Z;
  estado : Estado;
  estadoPMVActual : EstadoPMV;
  estadoPMVAnterior : EstadoPMV;
  reloj : Z;  (* value of [millis()] *)
  rele : bool;  (* RELAY_PIN is HIGH *)
  led : bool * bool * bool;  (* colour last passed to [setColor] *)
  zumbador : option Z;  (* frequency being played on BUZZER_PIN *)
  servoEscrituras : list Z  (* angles passed to [servo.write], latest first *)
}.

Definition set_usuarios (v : list Usuario) (s : Sistema) : Sistema :=
  mkSistema v (totalUsuarios s) (usuarioActivo s) (pmv s) (intentosFallidos s)
    (alarmActive s) (alarmSilenced s) (alarmSilenceUntil s) (lastAlarmToggle s)
    (alarmToggleState s) (pmvBajoActive s) (lastPmvBajoToggle s) (pmvBajoToggleState s)
    (sistemaBloqueado s) (tiempoBloqueo s) (servoAnguloActual s) (servoAnguloDeseado s)
    (ultimoCambioServo s) (estado s) (estadoPMVActual s) (estadoPMVAnterior s) (reloj s)
    (rele s) (led s) (zumbador s) (servoEscrituras s).
Definition set_totalUsuarios (v : Z) (s : Sistema) : Sistema :=
  mkSistema (usuarios s) v (usuarioActivo s) (pmv s) (intentosFallidos s) (alarmActive
    s) (alarmSilenced s) (alarmSilenceUntil s) (lastAlarmToggle s) (alarmToggleState s)
    (pmvBajoActive s) (lastPmvBajoToggle s) (pmvBajoToggleState s) (sistemaBloqueado s)
    (tiempoBloqueo s) (servoAnguloActual s) (servoAnguloDeseado s) (ultimoCambioServo s)
    (estado s) (estadoPMVActual s) (estadoPMVAnterior s) (reloj s) (rele s) (led s)
    (zumbador s) (servoEscrituras s).
Definition set_usuarioActivo (v : option nat) (s : Sistema) : Sistema :=
  mkSistema (usuarios s) (totalUsuarios s) v (pmv s) (intentosFallidos s) (alarmActive
    s) (alarmSilenced s) (alarmSilenceUntil s) (lastAlarmToggle s) (alarmToggleState s)
    (pmvBajoActive s) (lastPmvBajoToggle s) (pmvBajoToggleState s) (sistemaBloqueado s)
    (tiempoBloqueo s) (servoAnguloActual s) (servoAnguloDeseado s) (ultimoCambioServo s)
    (estado s) (estadoPMVActual s) (estadoPMVAnterior s) (reloj s) (rele s) (led s)
    (zumbador s) (servoEscrituras s).
Definition set_pmv (v : float) (s : Sistema) : Sistema :=
  mkSistema (usuarios s) (totalUsuarios s) (usuarioActivo s) v (intentosFallidos s)
    (alarmActive s) (alarmSilenced s) (alarmSilenceUntil s) (lastAlarmToggle s)
    (alarmToggleState s) (pmvBajoActive s) (lastPmvBajoToggle s) (pmvBajoToggleState s)
    (sistemaBloqueado s) (tiempoBloqueo s) (servoAnguloActual s) (servoAnguloDeseado s)
    (ultimoCambioServo s) (estado s) (estadoPMVActual s) (estadoPMVAnterior s) (reloj s)
    (rele s) (led s) (zumbador s) (servoEscrituras s).
Definition set_intentosFallidos (v : Z) (s : Sistema) : Sistema :=
  mkSistema (usuarios s) (totalUsuarios s) (usuarioActivo s) (pmv s) v (alarmActive s)
    (alarmSilenced s) (alarmSilenceUntil s) (lastAlarmToggle s) (alarmToggleState s)
    (pmvBajoActive s) (lastPmvBajoToggle s) (pmvBajoToggleState s) (sistemaBloqueado s)
    (tiempoBloqueo s) (servoAnguloActual s) (servoAnguloDeseado s) (ultimoCambioServo s)
    (estado s) (estadoPMVActual s) (estadoPMVAnterior s) (reloj s) (rele s) (led s)
    (zumbador s) (servoEscrituras s).
Definition set_alarmActive (v : bool) (s : Sistema) : Sistema :=
  mkSistema (usuarios s) (totalUsuarios s) (usuarioActivo s) (pmv s) (intentosFallidos
    s) v (alarmSilenced s) (alarmSilenceUntil s) (lastAlarmToggle s) (alarmToggleState
    s) (pmvBajoActive s) (lastPmvBajoToggle s) (pmvBajoToggleState s) (sistemaBloqueado
    s) (tiempoBloqueo s) (servoAnguloActual s) (servoAnguloDeseado s) (ultimoCambioServo
    s) (estado s) (estadoPMVActual s) (estadoPMVAnterior s) (reloj s) (rele s) (led s)
    (zumbador s) (servoEscrituras s).
Definition set_alarmSilenced (v : bool) (s : Sistema) : Sistema :=
  mkSistema (usuarios s) (totalUsuarios s) (usuarioActivo s) (pmv s) (intentosFallidos
    s) (alarmActive s) v (alarmSilenceUntil s) (lastAlarmToggle s) (alarmToggleState s)
    (pmvBajoActive s) (lastPmvBajoToggle s) (pmvBajoToggleState s) (sistemaBloqueado s)
    (tiempoBloqueo s) (servoAnguloActual s) (servoAnguloDeseado s) (ultimoCambioServo s)
    (estado s) (estadoPMVActual s) (estadoPMVAnterior s) (reloj s) (rele s) (led s)
    (zumbador s) (servoEscrituras s).
Definition set_alarmSilenceUntil (v : Z) (s : Sistema) : Sistema :=
  mkSistema (usuarios s) (totalUsuarios s) (usuarioActivo s) (pmv s) (intentosFallidos
    s) (alarmActive s) (alarmSilenced s) v (lastAlarmToggle s) (alarmToggleState s)
    (pmvBajoActive s) (lastPmvBajoToggle s) (pmvBajoToggleState s) (sistemaBloqueado s)
    (tiempoBloqueo s) (servoAnguloActual s) (servoAnguloDeseado s) (ultimoCambioServo s)
    (estado s) (estadoPMVActual s) (estadoPMVAnterior s) (reloj s) (rele s) (led s)
    (zumbador s) (servoEscrituras s).
Definition set_lastAlarmToggle (v : Z) (s : Sistema) : Sistema :=
  mkSistema (usuarios s) (totalUsuarios s) (usuarioActivo s) (pmv s) (intentosFallidos
    s) (alarmActive s) (alarmSilenced s) (alarmSilenceUntil s) v (alarmToggleState s)
    (pmvBajoActive s) (lastPmvBajoToggle s) (pmvBajoToggleState s) (sistemaBloqueado s)
    (tiempoBloqueo s) (servoAnguloActual s) (servoAnguloDeseado s) (ultimoCambioServo s)
    (estado s) (estadoPMVActual s) (estadoPMVAnterior s) (reloj s) (rele s) (led s)
    (zumbador s) (servoEscrituras s).
Definition set_alarmToggleState (v : bool) (s : Sistema) : Sistema :=
  mkSistema (usuarios s) (totalUsuarios s) (usuarioActivo s) (pmv s) (intentosFallidos
    s) (alarmActive s) (alarmSilenced s) (alarmSilenceUntil s) (lastAlarmToggle s) v
    (pmvBajoActive s) (lastPmvBajoToggle s) (pmvBajoToggleState s) (sistemaBloqueado s)
    (tiempoBloqueo s) (servoAnguloActual s) (servoAnguloDeseado s) (ultimoCambioServo s)
    (estado s) (estadoPMVActual s) (estadoPMVAnterior s) (reloj s) (rele s) (led s)
    (zumbador s) (servoEscrituras s).
Definition set_pmvBajoActive (v : bool) (s : Sistema) : Sistema :=
  mkSistema (usuarios s) (totalUsuarios s) (usuarioActivo s) (pmv s) (intentosFallidos
    s) (alarmActive s) (alarmSilenced s) (alarmSilenceUntil s) (lastAlarmToggle s)
    (alarmToggleState s) v (lastPmvBajoToggle s) (pmvBajoToggleState s)
    (sistemaBloqueado s) (tiempoBloqueo s) (servoAnguloActual s) (servoAnguloDeseado s)
    (ultimoCambioServo s) (estado s) (estadoPMVActual s) (estadoPMVAnterior s) (reloj s)
    (rele s) (led s) (zumbador s) (servoEscrituras s).
Definition set_lastPmvBajoToggle (v : Z) (s : Sistema) : Sistema :=
  mkSistema (usuarios s) (totalUsuarios s) (usuarioActivo s) (pmv s) (intentosFallidos
    s) (alarmActive s) (alarmSilenced s) (alarmSilenceUntil s) (lastAlarmToggle s)
    (alarmToggleState s) (pmvBajoActive s) v (pmvBajoToggleState s) (sistemaBloqueado s)
    (tiempoBloqueo s) (servoAnguloActual s) (servoAnguloDeseado s) (ultimoCambioServo s)
    (estado s) (estadoPMVActual s) (estadoPMVAnterior s) (reloj s) (rele s) (led s)
    (zumbador s) (servoEscrituras s).
Definition set_pmvBajoToggleState (v : bool) (s : Sistema) : Sistema :=
  mkSistema (usuarios s) (totalUsuarios s) (usuarioActivo s) (pmv s) (intentosFallidos
    s) (alarmActive s) (alarmSilenced s) (alarmSilenceUntil s) (lastAlarmToggle s)
    (alarmToggleState s) (pmvBajoActive s) (lastPmvBajoToggle s) v (sistemaBloqueado s)
    (tiempoBloqueo s) (servoAnguloActual s) (servoAnguloDeseado s) (ultimoCambioServo s)
    (estado s) (estadoPMVActual s) (estadoPMVAnterior s) (reloj s) (rele s) (led s)
    (zumbador s) (servoEscrituras s).
Definition set_sistemaBloqueado (v : bool) (s : Sistema) : Sistema :=
  mkSistema (usuarios s) (totalUsuarios s) (usuarioActivo s) (pmv s) (intentosFallidos
    s) (alarmActive s) (alarmSilenced s) (alarmSilenceUntil s) (lastAlarmToggle s)
    (alarmToggleState s) (pmvBajoActive s) (lastPmvBajoToggle s) (pmvBajoToggleState s)
    v (tiempoBloqueo s) (servoAnguloActual s) (servoAnguloDeseado s) (ultimoCambioServo
    s) (estado s) (estadoPMVActual s) (estadoPMVAnterior s) (reloj s) (rele s) (led s)
    (zumbador s) (servoEscrituras s).
Definition set_tiempoBloqueo (v : Z) (s : Sistema) : Sistema :=
  mkSistema (usuarios s) (totalUsuarios s) (usuarioActivo s) (pmv s) (intentosFallidos
    s) (alarmActive s) (alarmSilenced s) (alarmSilenceUntil s) (lastAlarmToggle s)
    (alarmToggleState s) (pmvBajoActive s) (lastPmvBajoToggle s) (pmvBajoToggleState s)
    (sistemaBloqueado s) v (servoAnguloActual s) (servoAnguloDeseado s)
    (ultimoCambioServo s) (estado s) (estadoPMVActual s) (estadoPMVAnterior s) (reloj s)
    (rele s) (led s) (zumbador s) (servoEscrituras s).
Definition set_servoAnguloActual (v : Z) (s : Sistema) : Sistema :=
  mkSistema (usuarios s) (totalUsuarios s) (usuarioActivo s) (pmv s) (intentosFallidos
    s) (alarmActive s) (alarmSilenced s) (alarmSilenceUntil s) (lastAlarmToggle s)
    (alarmToggleState s) (pmvBajoActive s) (lastPmvBajoToggle s) (pmvBajoToggleState s)
    (sistemaBloqueado s) (tiempoBloqueo s) v (servoAnguloDeseado s) (ultimoCambioServo
    s) (estado s) (estadoPMVActual s) (estadoPMVAnterior s) (reloj s) (rele s) (led s)
    (zumbador s) (servoEscrituras s).
Definition set_servoAnguloDeseado (v : Z) (s : Sistema) : Sistema :=
  mkSistema (usuarios s) (totalUsuarios s) (usuarioActivo s) (pmv s) (intentosFallidos
    s) (alarmActive s) (alarmSilenced s) (alarmSilenceUntil s) (lastAlarmToggle s)
    (alarmToggleState s) (pmvBajoActive s) (lastPmvBajoToggle s) (pmvBajoToggleState s)
    (sistemaBloqueado s) (tiempoBloqueo s) (servoAnguloActual s) v (ultimoCambioServo s)
    (estado s) (estadoPMVActual s) (estadoPMVAnterior s) (reloj s) (rele s) (led s)
    (zumbador s) (servoEscrituras s).
Definition set_ultimoCambioServo (v : Z) (s : Sistema) : Sistema :=
  mkSistema (usuarios s) (totalUsuarios s) (usuarioActivo s) (pmv s) (intentosFallidos
    s) (alarmActive s) (alarmSilenced s) (alarmSilenceUntil s) (lastAlarmToggle s)
    (alarmToggleState s) (pmvBajoActive s) (lastPmvBajoToggle s) (pmvBajoToggleState s)
    (sistemaBloqueado s) (tiempoBloqueo s) (servoAnguloActual s) (servoAnguloDeseado s)
    v (estado s) (estadoPMVActual s) (estadoPMVAnterior s) (reloj s) (rele s) (led s)
    (zumbador s) (servoEscrituras s).
Definition set_estado (v : Estado) (s : Sistema) : Sistema :=
  mkSistema (usuarios s) (totalUsuarios s) (usuarioActivo s) (pmv s) (intentosFallidos
    s) (alarmActive s) (alarmSilenced s) (alarmSilenceUntil s) (lastAlarmToggle s)
    (alarmToggleState s) (pmvBajoActive s) (lastPmvBajoToggle s) (pmvBajoToggleState s)
    (sistemaBloqueado s) (tiempoBloqueo s) (servoAnguloActual s) (servoAnguloDeseado s)
    (ultimoCambioServo s) v (estadoPMVActual s) (estadoPMVAnterior s) (reloj s) (rele s)
    (led s) (zumbador s) (servoEscrituras s).
Definition set_estadoPMVActual (v : EstadoPMV) (s : Sistema) : Sistema :=
  mkSistema (usuarios s) (totalUsuarios s) (usuarioActivo s) (pmv s) (intentosFallidos
    s) (alarmActive s) (alarmSilenced s) (alarmSilenceUntil s) (lastAlarmToggle s)
    (alarmToggleState s) (pmvBajoActive s) (lastPmvBajoToggle s) (pmvBajoToggleState s)
    (sistemaBloqueado s) (tiempoBloqueo s) (servoAnguloActual s) (servoAnguloDeseado s)
    (ultimoCambioServo s) (estado s) v (estadoPMVAnterior s) (reloj s) (rele s) (led s)
    (zumbador s) (servoEscrituras s).
Definition set_estadoPMVAnterior (v : EstadoPMV) (s : Sistema) : Sistema :=
  mkSistema (usuarios s) (totalUsuarios s) (usuarioActivo s) (pmv s) (intentosFallidos
    s) (alarmActive s) (alarmSilenced s) (alarmSilenceUntil s) (lastAlarmToggle s)
    (alarmToggleState s) (pmvBajoActive s) (lastPmvBajoToggle s) (pmvBajoToggleState s)
    (sistemaBloqueado s) (tiempoBloqueo s) (servoAnguloActual s) (servoAnguloDeseado s)
    (ultimoCambioServo s) (estado s) (estadoPMVActual s) v (reloj s) (rele s) (led s)
    (zumbador s) (servoEscrituras s).
Definition set_reloj (v : Z) (s : Sistema) : Sistema :=
  mkSistema (usuarios s) (totalUsuarios s) (usuarioActivo s) (pmv s) (intentosFallidos
    s) (alarmActive s) (alarmSilenced s) (alarmSilenceUntil s) (lastAlarmToggle s)
    (alarmToggleState s) (pmvBajoActive s) (lastPmvBajoToggle s) (pmvBajoToggleState s)
    (sistemaBloqueado s) (tiempoBloqueo s) (servoAnguloActual s) (servoAnguloDeseado s)
    (ultimoCambioServo s) (estado s) (estadoPMVActual s) (estadoPMVAnterior s) v (rele
    s) (led s) (zumbador s) (servoEscrituras s).
Definition set_rele (v : bool) (s : Sistema) : Sistema :=
  mkSistema (usuarios s) (totalUsuarios s) (usuarioActivo s) (pmv s) (intentosFallidos
    s) (alarmActive s) (alarmSilenced s) (alarmSilenceUntil s) (lastAlarmToggle s)
    (alarmToggleState s) (pmvBajoActive s) (lastPmvBajoToggle s) (pmvBajoToggleState s)
    (sistemaBloqueado s) (tiempoBloqueo s) (servoAnguloActual s) (servoAnguloDeseado s)
    (ultimoCambioServo s) (estado s) (estadoPMVActual s) (estadoPMVAnterior s) (reloj s)
    v (led s) (zumbador s) (servoEscrituras s).
Definition set_led (v : bool * bool * bool) (s : Sistema) : Sistema :=
  mkSistema (usuarios s) (totalUsuarios s) (usuarioActivo s) (pmv s) (intentosFallidos
    s) (alarmActive s) (alarmSilenced s) (alarmSilenceUntil s) (lastAlarmToggle s)
    (alarmToggleState s) (pmvBajoActive s) (lastPmvBajoToggle s) (pmvBajoToggleState s)
    (sistemaBloqueado s) (tiempoBloqueo s) (servoAnguloActual s) (servoAnguloDeseado s)
    (ultimoCambioServo s) (estado s) (estadoPMVActual s) (estadoPMVAnterior s) (reloj s)
    (rele s) v (zumbador s) (servoEscrituras s).
Definition set_zumbador (v : option Z) (s : Sistema) : Sistema :=
  mkSistema (usuarios s) (totalUsuarios s) (usuarioActivo s) (pmv s) (intentosFallidos
    s) (alarmActive s) (alarmSilenced s) (alarmSilenceUntil s) (lastAlarmToggle s)
    (alarmToggleState s) (pmvBajoActive s) (lastPmvBajoToggle s) (pmvBajoToggleState s)
    (sistemaBloqueado s) (tiempoBloqueo s) (servoAnguloActual s) (servoAnguloDeseado s)
    (ultimoCambioServo s) (estado s) (estadoPMVActual s) (estadoPMVAnterior s) (reloj s)
    (rele s) (led s) v (servoEscrituras s).
Definition set_servoEscrituras (v : list Z) (s : Sistema) : Sistema :=
  mkSistema (usuarios s) (totalUsuarios s) (usuarioActivo s) (pmv s) (intentosFallidos
    s) (alarmActive s) (alarmSilenced s) (alarmSilenceUntil s) (lastAlarmToggle s)
    (alarmToggleState s) (pmvBajoActive s) (lastPmvBajoToggle s) (pmvBajoToggleState s)
    (sistemaBloqueado s) (tiempoBloqueo s) (servoAnguloActual s) (servoAnguloDeseado s)
    (ultimoCambioServo s) (estado s) (estadoPMVActual s) (estadoPMVAnterior s) (reloj s)
    (rele s) (led s) (zumbador s) v.

(** ** Constants *)

Definition PMV_ALARM_THRESHOLD : float := F32.lit 7 10.
Definition PMV_BAJO_THRESHOLD : float := F32.opp (F32.lit 7 10).
Definition alarmInterval : Z := 500.
Definition pmvBajoOnTime : Z := 100.
Definition pmvBajoOffTime : Z := 400.
Definition DURACION_BLOQUEO : Z := 15000.
Definition SERVO_DELAY : Z := 3000.

(** ** Peripherals *)

Definition millis (s : Sistema) : Z := reloj s.

(** Time that passes while the program waits or computes. *)
Definition delay (ms : Z) (s : Sistema) : Sistema :=
  set_reloj (wrap32 (reloj s + ms)) s.

Definition setColor (r g b : bool) (s : Sistema) : Sistema := set_led (r, g, b) s.
Definition tone (f : Z) (s : Sistema) : Sistema := set_zumbador (Some f) s.
Definition noTone (s : Sistema) : Sistema := set_zumbador None s.
Definition digitalWrite_RELAY (v : bool) (s : Sistema) : Sistema := set_rele v s.
Definition servo_write (a : Z) (s : Sistema) : Sistema :=
  set_servoEscrituras (a :: servoEscrituras s) s.

(** [tone(pin, f, d); delay(p)] with [d < p]: the tone has ended when the
    delay returns. *)
Definition pitido (p : Z) (s : Sistema) : Sistema := delay p (noTone s).

Fixpoint repetir (n : nat) (f : Sistema -> Sistema) (s : Sistema) : Sistema :=
  match n with
  | O => s
  | S k => repetir k f (f s)
  end.

Definition beep (n : nat) (s : Sistema) : Sistema := repetir n (pitido 250) s.

(** ** Actuators *)

Definition actualizarServo (anguloDeseado : Z) (s : Sistema) : Sistema :=
  let s := if negb (anguloDeseado =? servoAnguloDeseado s)
           then set_servoAnguloDeseado anguloDeseado s else s in
  if negb (servoAnguloActual s =? servoAnguloDeseado s)
     && (SERVO_DELAY <=? wrap32 (millis s - ultimoCambioServo s))
  then
    let s := servo_write (servoAnguloDeseado s) s in
    let s := set_servoAnguloActual (servoAnguloDeseado s) s in
    set_ultimoCambioServo (millis s) s
  else s.

(** The band chosen by the first part of [setActuador] ([nuevoEstado]). *)
Definition nuevoEstado (actual : EstadoPMV) (pmvVal : float) : EstadoPMV :=
  if F32.gt pmvVal (F32.lit 8 10) then PMV_MUY_CALOR
  else if F32.gt pmvVal (F32.lit 4 10) then
    if negb (EstadoPMV_eqb actual PMV_MUY_CALOR) || F32.lt pmvVal (F32.lit 6 10)
    then PMV_CALOR else actual
  else if F32.ge pmvVal (F32.opp (F32.lit 4 10)) && F32.le pmvVal (F32.lit 4 10)
  then PMV_CONFORT
  else if F32.lt pmvVal (F32.lit 3 10) && F32.ge pmvVal (F32.opp (F32.lit 8 10)) then
    if negb (EstadoPMV_eqb actual PMV_MUY_BAJO) || F32.gt pmvVal (F32.opp (F32.lit 6 10))
    then PMV_BAJO else actual
  else if F32.lt pmvVal (F32.opp (F32.lit 8 10)) then PMV_MUY_BAJO
  else actual.

Definition setActuador (pmvVal : float) (s : Sistema) : Sistema :=
  let nuevo := nuevoEstado (estadoPMVActual s) pmvVal in
  let s := if negb (EstadoPMV_eqb nuevo (estadoPMVActual s))
           then set_estadoPMVActual nuevo (set_estadoPMVAnterior (estadoPMVActual s) s)
           else s in
  match estadoPMVActual s with
  | PMV_MUY_CALOR =>
      let s := digitalWrite_RELAY true s in
      let s := actualizarServo 0 s in
      if negb (alarmActive s) then setColor true false false s else s
  | PMV_CALOR =>
      let s := digitalWrite_RELAY true s in
      let s := actualizarServo 45 s in
      if negb (alarmActive s) && negb (pmvBajoActive s)
      then setColor true true false s else s
  | PMV_CONFORT =>
      let s := digitalWrite_RELAY false s in
      let s := actualizarServo 90 s in
      if negb (alarmActive s) && negb (pmvBajoActive s)
      then setColor false true false s else s
  | PMV_BAJO =>
      let s := digitalWrite_RELAY false s in
      let s := actualizarServo 135 s in
      if negb (pmvBajoActive s) then setColor false true true s else s
  | PMV_MUY_BAJO =>
      let s := digitalWrite_RELAY false s in
      actualizarServo 180 s
  end.

(** ** Lockout *)

Definition bloqueoSistema (s : Sistema) : Sistema :=
  let s := set_sistemaBloqueado true s in
  let s := set_tiempoBloqueo (millis s) s in
  let s := set_intentosFallidos 0 s in
  let s := setColor true false false s in
  let s := repetir 10 (pitido 250) s in
  noTone s.

Definition verificarDesbloqueo (s : Sistema) : Sistema :=
  if sistemaBloqueado s then
    if DURACION_BLOQUEO <=? wrap32 (millis s - tiempoBloqueo s) then
      let s := set_sistemaBloqueado false s in
      let s := noTone s in
      let s := setColor false false true s in
      let s := beep 2 s in
      let s := delay 1500 s in
      let s := set_estado MENU s in
      set_usuarioActivo None s
    else
      let tiempoTranscurrido := wrap32 (millis s - tiempoBloqueo s) in
      if (tiempoTranscurrido / 500) mod 2 =? 0
      then tone 1000 (setColor true false false s)
      else noTone (setColor false false false s)
  else s.

(** ** High-PMV alarm *)

Definition triggerAlarm (s : Sistema) : Sistema :=
  let s := set_alarmActive true s in
  let s := set_alarmToggleState false s in
  let s := set_lastAlarmToggle (millis s) s in
  let s := setColor true false false s in
  tone 2000 s.

Definition stopAlarm (s : Sistema) : Sistema :=
  let s := set_alarmActive false s in
  let s := set_alarmToggleState false s in
  let s := noTone s in
  let s := setColor false true false s in
  delay 800 s.

Definition checkAlarm (pmvVal : float) (s : Sistema) : Sistema :=
  if alarmSilenced s && (millis s <? alarmSilenceUntil s) then s
  else
    let s := set_alarmSilenced false s in
    if F32.gt pmvVal PMV_ALARM_THRESHOLD then
      if negb (alarmActive s) then triggerAlarm s else s
    else
      if alarmActive s then stopAlarm s else s.

Definition alarmHandler (s : Sistema) : Sistema :=
  let now := millis s in
  if alarmInterval <=? wrap32 (now - lastAlarmToggle s) then
    let s := set_lastAlarmToggle now s in
    let s := set_alarmToggleState (negb (alarmToggleState s)) s in
    if alarmToggleState s
    then tone 2000 (setColor true false false s)
    else noTone (setColor false false false s)
  else s.

(** ** Low-PMV indicator *)

Definition triggerPmvBajo (s : Sistema) : Sistema :=
  let s := set_pmvBajoActive true s in
  let s := set_pmvBajoToggleState true s in
  let s := set_lastPmvBajoToggle (millis s) s in
  setColor false false true s.

Definition stopPmvBajo (s : Sistema) : Sistema :=
  let s := set_pmvBajoActive false s in
  set_pmvBajoToggleState false s.

Definition checkPmvBajo (pmvVal : float) (s : Sistema) : Sistema :=
  if F32.lt pmvVal PMV_BAJO_THRESHOLD then
    if negb (pmvBajoActive s) then triggerPmvBajo s else s
  else
    if pmvBajoActive s then stopPmvBajo s else s.

Definition pmvBajoHandler (s : Sistema) : Sistema :=
  let now := millis s in
  let interval := if pmvBajoToggleState s then pmvBajoOnTime else pmvBajoOffTime in
  if interval <=? wrap32 (now - lastPmvBajoToggle s) then
    let s := set_lastPmvBajoToggle now s in
    let s := set_pmvBajoToggleState (negb (pmvBajoToggleState s)) s in
    if pmvBajoToggleState s
    then setColor false false true s
    else setColor false false false s
  else s.

(** ** Inputs of one iteration of [loop()] *)

Record Entrada : Type := mkEntrada {
  transcurrido : Z;              (* ms elapsed since the previous iteration returned *)
  tecla : ascii;                 (* [keypad.getKey()] of this iteration, NO_KEY if none *)
  tagLeido : string;             (* [leerTag()] in LOGIN, empty when no card is present *)
  lecturasTag : list string;     (* successive [leerTag()] results, first wait of the registration *)
  lecturasConfirm : list string; (* the same for the confirmation wait *)
  teclasTexto : list ascii;      (* successive [keypad.getKey()] results inside [leerTexto] *)
  esperaTexto : Z;               (* ms spent inside [leerTexto] *)
  teclasClave : list ascii;      (* successive [keypad.getKey()] results inside [leerClave] *)
  esperaClave : Z;               (* ms spent inside [leerClave] *)
  lecturaTDHT : float;           (* [dht.readTemperature()] *)
  lecturaH : float;              (* [dht.readHumidity()] *)
  lecturaTemp : Z;               (* [analogRead(TEMP_ANALOG_PIN)] *)
  lecturaLuz : Z                 (* [analogRead(LDR_PIN)] *)
}.

Definition NO_KEY : ascii := "000"%char.

(** [leerClave]: keys are consumed until ['#']; [None] while it has not come. *)
Fixpoint leerClave (teclas : list ascii) (clave : string) : option string :=
  match teclas with
  | [] => None
  | key :: resto =>
      if Ascii.eqb key NO_KEY then leerClave resto clave
      else if Ascii.eqb key "#" then Some clave
      else if Ascii.eqb key "*" then leerClave resto EmptyString
      else if (String.length clave <? 4)%nat
           then leerClave resto (clave ++ String key EmptyString)
           else leerClave resto clave
  end.

Fixpoint leerTexto (teclas : list ascii) (texto : string) : option string :=
  match teclas with
  | [] => None
  | key :: resto =>
      if Ascii.eqb key NO_KEY then leerTexto resto texto
      else if Ascii.eqb key "#" then Some texto
      else if Ascii.eqb key "*" then leerTexto resto EmptyString
      else leerTexto resto (texto ++ String key EmptyString)
  end.

Definition leerTempAnalogica (valor : Z) : float :=
  let voltaje := F32.mul (F32.of_Z valor) (F32.div (F32.lit 50 10) (F32.lit 10230 10)) in
  F32.mul voltaje (F32.lit 100 10).

(** [while (tag == "") { tag = leerTag(); delay(100); }] *)
Fixpoint esperarTag (lecturas : list string) (s : Sistema) : option (string * Sistema) :=
  match lecturas with
  | [] => None
  | t :: resto =>
      let s := delay 100 s in
      if String.eqb t EmptyString then esperarTag resto s else Some (t, s)
  end.

(** ** RFID reader *)

(** Digit [n] as [utoa] writes it: ['0'..'9'], then ['a'..'z']. *)
Definition digito (n : N) : ascii :=
  if (n <? 10)%N then ascii_of_N (48 + n) else ascii_of_N (87 + n).

(** [String(b, HEX)] for a byte: its hexadecimal digits, most significant
    first, without leading zero. *)
Definition String_HEX (b : Byte.byte) : string :=
  let n := Byte.to_N b in
  if (n <? 16)%N then String (digito n) EmptyString
  else String (digito (n / 16)) (String (digito (n mod 16)) EmptyString).

(** [toupper] of the C library on one character. *)
Definition toupper (c : ascii) : ascii :=
  let n := N_of_ascii c in
  if ((97 <=? n) && (n <=? 122))%N then ascii_of_N (n - 32) else c.

Fixpoint toUpperCase (s : string) : string :=
  match s with
  | EmptyString => EmptyString
  | String c resto => String (toupper c) (toUpperCase resto)
  end.

(** What the MFRC522 reports when it is polled. *)
Record Lector : Type := mkLector {
  PICC_IsNewCardPresent : bool;
  PICC_ReadCardSerial : bool;
  uidByte : list Byte.byte  (* the first [uid.size] bytes of [uid.uidByte] *)
}.

Definition leerTag (m : Lector) : string :=
  if negb (PICC_IsNewCardPresent m) then EmptyString
  else if negb (PICC_ReadCardSerial m) then EmptyString
  else
    let content :=
      fold_left (fun content b =>
                   let content := if (Byte.to_N b <? 16)%N
                                  then (content ++ "0")%string else content in
                   (content ++ String_HEX b)%string)
                (uidByte m) EmptyString in
    toUpperCase content.

(** ** Registry *)

Definition usuarioVacio : Usuario := mkUsuario EmptyString EmptyString EmptyString.

Fixpoint ponerUsuario (i : nat) (u : Usuario) (us : list Usuario) : list Usuario :=
  match us, i with
  | [], _ => []
  | _ :: resto, O => u :: resto
  | x :: resto, S k => x :: ponerUsuario k u resto
  end.

(** [for (int i = 0; i < totalUsuarios; i++) if (usuarios[i].tag == tag) ...] *)
Fixpoint buscarTag (us : list Usuario) (total : nat) (i : nat) (t : string) : option nat :=
  match total, us with
  | S k, u :: resto => if String.eqb (tag u) t then Some i else buscarTag resto k (S i) t
  | _, _ => None
  end.

Definition registrarPorTag (e : Entrada) (s : Sistema) : option Sistema :=
  if 2 <=? totalUsuarios s then Some (delay 1500 (beep 1 s))
  else
    match esperarTag (lecturasTag e) s with
    | None => None
    | Some (t, s) =>
        let s := delay 2000 (beep 2 s) in
        match leerTexto (teclasTexto e) EmptyString with
        | None => None
        | Some nom =>
            let s := delay (esperaTexto e) s in
            match leerClave (teclasClave e) EmptyString with
            | None => None
            | Some cl =>
                let s := delay (esperaClave e) s in
                let s := set_usuarios
                           (ponerUsuario (Z.to_nat (totalUsuarios s))
                                         (mkUsuario nom t cl) (usuarios s)) s in
                let s := set_totalUsuarios (totalUsuarios s + 1) s in
                let s := delay 1000 (delay 2000 (beep 3 s)) in
                match esperarTag (lecturasConfirm e) s with
                | None => None
                | Some (tagConfirm, s) =>
                    if String.eqb tagConfirm t then
                      let s := delay 1500 (beep 3 s) in
                      let s := set_usuarioActivo (Some (Z.to_nat (totalUsuarios s - 1))) s in
                      let s := set_servoAnguloActual 90 s in
                      let s := set_servoAnguloDeseado 90 s in
                      let s := servo_write 90 s in
                      let s := set_ultimoCambioServo (millis s) s in
                      Some (set_estado CONFORT s)
                    else
                      let s := delay 2000 (beep 1 s) in
                      Some (set_estado MENU s)
                end
            end
        end
    end.

(** ** Main loop *)

(** The LOGIN case once a registered tag has been read: PIN entry and check. *)
Definition loginConTag (i : nat) (e : Entrada) (s : Sistema) : option Sistema :=
  let s := set_usuarioActivo (Some i) s in
  let s := delay 1000 (beep 2 s) in
  match leerClave (teclasClave e) EmptyString with
  | None => None
  | Some cl =>
      let s := delay (esperaClave e) s in
      if String.eqb cl (clave (nth i (usuarios s) usuarioVacio)) then
        let s := set_intentosFallidos 0 s in
        let s := beep 3 s in
        let s := setColor false true false s in
        let s := delay 1500 s in
        let s := set_servoAnguloActual 90 s in
        let s := set_servoAnguloDeseado 90 s in
        let s := servo_write 90 s in
        let s := set_ultimoCambioServo (millis s) s in
        let s := set_estadoPMVActual PMV_CONFORT s in
        let s := set_estadoPMVAnterior PMV_CONFORT s in
        Some (set_estado CONFORT s)
      else
        let s := set_intentosFallidos (intentosFallidos s + 1) s in
        let s := beep 1 s in
        let s := setColor true false false s in
        let s := delay 1500 s in
        let s := if 3 <=? intentosFallidos s then bloqueoSistema s else s in
        Some (set_estado MENU s)
  end.

(** The CONFORT case.  After the sensors are read and the three checks have
    run, one of three branches handles the display and the keypad. *)

(** Branch [if (alarmActive)]. *)
Definition confortConAlarma (k : ascii) (s : Sistema) : Sistema :=
  let s := alarmHandler s in
  let s := if Ascii.eqb k "*" then
             let s := stopAlarm s in
             let s := set_alarmSilenced true s in
             set_alarmSilenceUntil (wrap32 (millis s + 60000)) s
           else s in
  if Ascii.eqb k "#" then
    let s := stopAlarm s in
    let s := stopPmvBajo s in
    let s := set_estado MENU s in
    let s := set_usuarioActivo None s in
    let s := set_intentosFallidos 0 s in
    let s := set_servoAnguloActual 90 s in
    servo_write 90 s
  else
    let s := if alarmSilenced s && (alarmSilenceUntil s <? millis s)
             then set_alarmSilenced false s else s in
    delay 200 s.

(** Branch [else if (pmvBajoActive)]. *)
Definition confortConPmvBajo (k : ascii) (s : Sistema) : Sistema :=
  let s := pmvBajoHandler s in
  if Ascii.eqb k "#" then
    let s := stopPmvBajo s in
    let s := set_estado MENU s in
    let s := set_usuarioActivo None s in
    servo_write 90 s
  else delay 200 s.

(** Branch [else]. *)
Definition confortSinAlerta (k : ascii) (s : Sistema) : Sistema :=
  if Ascii.eqb k "#" then
    let s := set_estado MENU s in
    let s := set_usuarioActivo None s in
    let s := servo_write 90 s in
    setColor false false true s
  else delay 2000 (delay 2000 s).

(** Sensor acquisition of the CONFORT case: the DHT pair is replaced by
    25.0 / 50.0 when either reading is NaN, the analog temperature and the
    light level are read, and the index is computed. *)
Definition pmvDeEntrada (e : Entrada) : float :=
  let sinLectura := F32.isnan (lecturaTDHT e) || F32.isnan (lecturaH e) in
  let tDHT := if sinLectura then F32.lit 250 10 else lecturaTDHT e in
  let h := if sinLectura then F32.lit 500 10 else lecturaH e in
  let tAnalog := leerTempAnalogica (lecturaTemp e) in
  let luz := lecturaLuz e in
  calcularPMV tDHT tAnalog h luz.

Definition modoConfort (e : Entrada) (s : Sistema) : Sistema :=
  let s := set_pmv (pmvDeEntrada e) s in
  let s := setActuador (pmv s) s in
  let s := checkAlarm (pmv s) s in
  let s := checkPmvBajo (pmv s) s in
  if alarmActive s then confortConAlarma (tecla e) s
  else if pmvBajoActive s then confortConPmvBajo (tecla e) s
  else confortSinAlerta (tecla e) s.

Definition loop (e : Entrada) (s : Sistema) : option Sistema :=
  let s := delay (transcurrido e) s in
  let s := verificarDesbloqueo s in
  match estado s with
  | MENU =>
      let key := tecla e in
      if Ascii.eqb key "1" then Some (set_estado LOGIN s)
      else if Ascii.eqb key "2" then registrarPorTag e s
      else Some s
  | LOGIN =>
      let t := tagLeido e in
      if negb (String.eqb t EmptyString) then
        match buscarTag (usuarios s) (Z.to_nat (totalUsuarios s)) 0 t with
        | Some i => loginConTag i e s
        | None =>
            let s := delay 2000 (beep 1 s) in
            Some (set_estado MENU s)
        end
      else Some s
  | CONFORT => Some (modoConfort e s)
  end.

(** ** Start-up *)

Definition variablesGlobales : Sistema :=
  mkSistema [mkUsuario "laura" "5CF8D773" "3456"; usuarioVacio] 1 None (F32.lit 0 10) 0
            false false 0 0 false
            false 0 false
            false 0
            90 90 0
            MENU PMV_CONFORT PMV_CONFORT
            0 false (false, false, false) None [].

Definition setup (s : Sistema) : Sistema :=
  let s := servo_write 90 s in
  let s := digitalWrite_RELAY false s in
  let s := setColor false false true s in
  delay 1500 s.

Definition inicial : Sistema := setup variablesGlobales.

(** ** Derived notions used in the statements *)

(** Successive calls of [setActuador], one per control tick. *)
Definition aplicarPMV (ps : list float) (s : Sistema) : Sistema :=
  fold_left (fun s p => setActuador p s) ps s.

(** Relay level and servo target that [setActuador] commands for a band. *)
Definition releDeBanda (b : EstadoPMV) : bool :=
  match b with
  | PMV_MUY_CALOR | PMV_CALOR => true
  | _ => false
  end.

Definition anguloDeBanda (b : EstadoPMV) : Z :=
  match b with
  | PMV_MUY_CALOR => 0
  | PMV_CALOR => 45
  | PMV_CONFORT => 90
  | PMV_BAJO => 135
  | PMV_MUY_BAJO => 180
  end.

(** Several iterations of [loop()], one input record each; [None] when a
    blocking read of some iteration never returns. *)
Fixpoint ejecutar (es : list Entrada) (s : Sistema) : option Sistema :=
  match es with
  | [] => Some s
  | e :: resto =>
      match loop e s with
      | Some s' => ejecutar resto s'
      | None => None
      end
  end.

(** States the program can be in between two iterations of [loop()]. *)
Inductive alcanzable : Sistema -> Prop :=
| alc_inicial : alcanzable inicial
| alc_loop (e : Entrada) (s s' : Sistema) :
    alcanzable s -> loop e s = Some s' -> alcanzable s'.

(** A LOGIN iteration in which a registered tag is read and a wrong PIN is
    typed, for the registry [us] holding [total] users. *)
Definition intentoFallido (us : list Usuario) (total : Z) (e : Entrada) : bool :=
  negb (String.eqb (tagLeido e) EmptyString)
  && match buscarTag us (Z.to_nat total) 0 (tagLeido e),
           leerClave (teclasClave e) EmptyString with
     | Some i, Some cl => negb (String.eqb cl (clave (nth i us usuarioVacio)))
     | _, _ => false
     end.

(** Input records used to exercise the program. *)
Definition sinEntrada : Entrada :=
  mkEntrada 0 NO_KEY EmptyString [] [] [] 0 [] 0 S754_nan S754_nan 0 0.

Definition conTecla (dt : Z) (k : ascii) : Entrada :=
  mkEntrada dt k EmptyString [] [] [] 0 [] 0 S754_nan S754_nan 0 0.

Definition conTagYClave (t : string) (ks : list ascii) : Entrada :=
  mkEntrada 0 NO_KEY t [] [] [] 0 ks 0 S754_nan S754_nan 0 0.

Definition conSensores (dt : Z) (k : ascii) (tDHT h : float) (vTemp vLuz : Z) : Entrada :=
  mkEntrada dt k EmptyString [] [] [] 0 [] 0 tDHT h vTemp vLuz.

(** The three alert flags. *)
Definition alertas (s : Sistema) : bool * bool * bool :=
  (alarmActive s, alarmSilenced s, pmvBajoActive s).

(** The alarm is never active while its silence flag is set, and the two
    alerts are never active together. *)
Definition alertasCoherentes (s : Sistema) : Prop :=
  (alarmSilenced s = true -> alarmActive s = false)
  /\ ~ (alarmActive s = true /\ pmvBajoActive s = true).

(** A hot sample: DHT at 30 degrees and 50 %, analog reading 573 (28 degrees),
    light 300; its index is about 1.5. *)
Definition muestraCaliente (dt : Z) (k : ascii) : Entrada :=
  conSensores dt k (F32.of_Z 30) (F32.of_Z 50) 573 300.

(** A mild sample: DHT at 23 degrees and 50 %, analog reading 471 (about 23
    degrees), light 300; its index is about 0. *)
Definition muestraTemplada (dt : Z) (k : ascii) : Entrada :=
  conSensores dt k (F32.of_Z 23) (F32.of_Z 50) 471 300.

(** The registered user presents her tag and types her PIN. *)
Definition loginLaura : Entrada :=
  conTagYClave "5CF8D773" ["3"; "4"; "5"; "6"; "#"]%char.

(** Keys actually pressed among successive [keypad.getKey()] results. *)
Definition pulsadas (teclas : list ascii) : list ascii :=
  filter (fun k => negb (Ascii.eqb k NO_KEY)) teclas.

(** Upper-case hexadecimal digit, and the two digits of a byte. *)
Definition hexMayus (n : N) : ascii :=
  if (n <? 10)%N then ascii_of_N (48 + n) else ascii_of_N (55 + n).

Definition parHex (b : Byte.byte) : string :=
  let n := Byte.to_N b in
  String (hexMayus (n / 16)) (String (hexMayus (n mod 16)) EmptyString).

(** Value of the enumerator in [enum EstadoPMV]. *)
Definition valorEstadoPMV (b : EstadoPMV) : Z :=
  match b with
  | PMV_MUY_BAJO => 0
  | PMV_BAJO => 1
  | PMV_CONFORT => 2
  | PMV_CALOR => 3
  | PMV_MUY_CALOR => 4
  end.

(** The registry, the session and the lockout variables. *)
Definition sesion (s : Sistema)
  : list Usuario * Z * option nat * Z * Estado * bool * Z :=
  (usuarios s, totalUsuarios s, usuarioActivo s, intentosFallidos s, estado s,
   sistemaBloqueado s, tiempoBloqueo s).

(** What a CONFORT iteration does to the registry and the session: nothing,
    unless ['#'] is pressed; then the session returns to MENU without user. *)
Definition salida (k : ascii) (s s' : Sistema) : Prop :=
  usuarios s' = usuarios s /\ totalUsuarios s' = totalUsuarios s
  /\ sistemaBloqueado s' = sistemaBloqueado s /\ tiempoBloqueo s' = tiempoBloqueo s
  /\ if Ascii.eqb k "#"
     then estado s' = MENU /\ usuarioActivo s' = None
          /\ (intentosFallidos s' = intentosFallidos s \/ intentosFallidos s' = 0)
     else estado s' = estado s /\ usuarioActivo s' = usuarioActivo s
          /\ intentosFallidos s' = intentosFallidos s.

(** The registry holds one or two users in its two slots, the first of them
    the user built into the sketch; the failure counter is below 3; the
    active user, if any, is a registered one, and there is one in CONFORT. *)
Definition registroValido (s : Sistema) : Prop :=
  List.length (usuarios s) = 2%nat /\ 1 <= totalUsuarios s <= 2
  /\ nth 0 (usuarios s) usuarioVacio = mkUsuario "laura" "5CF8D773" "3456"
  /\ 0 <= intentosFallidos s <= 2
  /\ match usuarioActivo s with
     | Some i => Z.of_nat i < totalUsuarios s
     | None => estado s <> CONFORT
     end.

(** The state after the built-in user has logged in from start-up. *)
Definition trasLogin : Sistema :=
  match ejecutar [conTecla 0 "1"; loginLaura] inicial with
  | Some s => s
  | None => inicial
  end.

(** A registration at the keypad: key '2', a card presented at the second
    poll, the name typed as 7, the PIN 9876, and the same card presented
    again for the confirmation. *)
Definition registroNuevo : Entrada :=
  mkEntrada 0 "2" EmptyString [EmptyString; "A1B2C3D4"%string] ["A1B2C3D4"%string]
            ["7"; "#"]%char 0 ["9"; "8"; "7"; "6"; "#"]%char 0 S754_nan S754_nan 0 0.

(** What [setActuador] commands: the band, the relay and the servo target. *)
Definition mandos (s : Sistema) : EstadoPMV * bool * Z :=
  (estadoPMVActual s, rele s, servoAnguloDeseado s).

(** The buzzer with the two conditions under which it may keep sounding. *)
Definition sirena (s : Sistema) : option Z * bool * bool :=
  (zumbador s, alarmActive s, sistemaBloqueado s).

(** A tone left on is the 2000 Hz tone of an active alarm or the 1000 Hz tone
    of a locked system. *)
Definition zumbadorJustificado (s : Sistema) : Prop :=
  forall f, zumbador s = Some f ->
    (alarmActive s = true /\ f = 2000) \/ (sistemaBloqueado s = true /\ f = 1000).

(** ** Rounding model for binary32

    The following notions describe the result of the [SpecFloat] operations
    arithmetically; they are used to reason about rounding, not to run the
    program. *)

(** Round to nearest, ties to even, of [V / 2^n]. *)
Definition rne (V n : Z) : Z :=
  let q := V / 2 ^ n in
  let r := V mod 2 ^ n in
  match Z.compare (2 * r) (2 ^ n) with
  | Lt => q
  | Eq => if Z.even q then q else q + 1
  | Gt => q + 1
  end.

(** The record reached after [k] one-bit right shifts of [m]: quotient, and
    position of the remainder with respect to one half. *)
Definition shr_inv (m : Z) (k : Z) (mrs : shr_record) : Prop :=
  exists R, 0 <= R < 2 ^ k /\ m = shr_m mrs * 2 ^ k + R
    /\ (shr_r mrs = true <-> 2 ^ k <= 2 * R)
    /\ (shr_s mrs = true <-> 2 * R <> 0 /\ 2 * R <> 2 ^ k).

(** Exponent of the last mantissa bit for a value of magnitude [2^x]:
    [max (x - 24) (-149)]. *)
Definition fexp32 (x : Z) : Z := fexp 24 128 x.

(** What [binary_round_aux] returns once the mantissa has been rounded to
    [Q] at exponent [f]: a carry into a 25th bit is renormalised, an exponent
    above 104 overflows to infinity. *)
Definition resultado (s : bool) (Q f : Z) : spec_float :=
  match Q with
  | Zpos q =>
      if Q =? 2 ^ 24 then
        if f + 1 <=? 104 then S754_finite s (Z.to_pos (2 ^ 23)) (f + 1) else S754_infinity s
      else
        if f <=? 104 then S754_finite s q f else S754_infinity s
  | _ => S754_zero s
  end.

(** Position of a value in the increasing enumeration of the binary32 values
    (its bit pattern read as a sign-magnitude integer). *)
Definition ord (x : spec_float) : Z :=
  match x with
  | S754_zero _ | S754_nan => 0
  | S754_infinity s => if s then - (255 * 2 ^ 23) else 255 * 2 ^ 23
  | S754_finite s m e =>
      if s then - ((e + 149) * 2 ^ 23 + Zpos m) else (e + 149) * 2 ^ 23 + Zpos m
  end.

Definition con_signo (s : bool) (z : Z) : Z := if s then - z else z.

Definition no_nan (x : spec_float) : bool :=
  match x with S754_nan => false | _ => true end.

(** Exact values are kept as integers, in units of [2^-escalaK]. *)
Definition escalaK : Z := 200.

(** Position of the binary32 value nearest to [V * 2^-escalaK], for [V > 0]. *)
Definition patron (V : Z) : Z :=
  let f := fexp32 (Zdigits2 V - escalaK) in
  Z.min ((f + 149) * 2 ^ 23 + rne V (f + escalaK)) (255 * 2 ^ 23).

Definition patronZ (V : Z) : Z :=
  match V with
  | Z0 => 0
  | Zpos _ => patron V
  | Zneg p => - patron (Zpos p)
  end.

(** The value of a finite float in units of [2^-j]. *)
Definition exactoK (j : Z) (x : spec_float) : Z :=
  match x with
  | S754_finite s m e => con_signo s (Zpos m * 2 ^ (e + j))
  | _ => 0
  end.

(** A canonical binary32 value that is not NaN. *)
Definition bien (x : spec_float) : Prop :=
  valid_binary 24 128 x = true /\ no_nan x = true.

(** A sensor reading: a canonical finite binary32 value. *)
Definition numero (x : float) : bool := F32.valid x && F32.is_finite x.

Definition un_cuarto : spec_float := S754_finite false 8388608 (-25).
Definition dos : spec_float := S754_finite false 8388608 (-22).

(** [op] preserves canonical non-NaN values and their order. *)
Definition monotona (op : spec_float -> spec_float) : Prop :=
  forall x y, bien x -> bien y -> ord x <= ord y ->
    bien (op x) /\ bien (op y) /\ ord (op x) <= ord (op y).

(** The largest finite binary32 value, in units of [2^-escalaK]. *)
Definition Vmax : Z := (2 ^ 24 - 1) * 2 ^ (104 + escalaK).

(** ** Order facts on [spec_float]

    [SFcompare] orders the non-NaN values lexicographically; the facts below
    hold for every value of the type, canonical or not. *)

Section Orden.

Ltac casos_compare :=
  repeat match goal with
         | |- context [Pos.compare_cont Eq ?a ?b] =>
             change (Pos.compare_cont Eq a b) with (Pos.compare a b) in *
         | H : context [Pos.compare_cont Eq ?a ?b] |- _ =>
             change (Pos.compare_cont Eq a b) with (Pos.compare a b) in *
         | |- context [Z.compare ?a ?b] => destruct (Z.compare_spec a b)
         | H : context [Z.compare ?a ?b] |- _ => destruct (Z.compare_spec a b)
         | |- context [Pos.compare ?a ?b] => destruct (Pos.compare_spec a b)
         | H : context [Pos.compare ?a ?b] |- _ => destruct (Pos.compare_spec a b)
         end;
  simpl in *; try reflexivity; try discriminate; try lia.

Ltac abrir x := destruct x as [[|]|[|]| |[|] ? ?].

Lemma SFltb_leb_trans (a b c : spec_float) :
  SFltb a b = true -> SFleb b c = true -> SFltb a c = true.
Proof.
  unfold SFltb, SFleb.
  abrir a; abrir b; abrir c; simpl; try discriminate; try reflexivity;
    intros; casos_compare.
Qed.

Lemma SFleb_ltb_trans (a b c : spec_float) :
  SFleb a b = true -> SFltb b c = true -> SFltb a c = true.
Proof.
  unfold SFltb, SFleb.
  abrir a; abrir b; abrir c; simpl; try discriminate; try reflexivity;
    intros; casos_compare.
Qed.

Lemma SFleb_trans (a b c : spec_float) :
  SFleb a b = true -> SFleb b c = true -> SFleb a c = true.
Proof.
  unfold SFleb.
  abrir a; abrir b; abrir c; simpl; try discriminate; try reflexivity;
    intros; casos_compare.
Qed.

Lemma SFltb_irrefl (a : spec_float) : SFltb a a = false.
Proof.
  unfold SFltb. destruct a as [[|]|[|]| |[|] m e]; simpl; try reflexivity;
    change (Pos.compare_cont Eq m m) with (Pos.compare m m);
    rewrite Z.compare_refl, Pos.compare_refl; reflexivity.
Qed.

Lemma SFltb_leb (a b : spec_float) : SFltb a b = true -> SFleb a b = true.
Proof.
  unfold SFltb, SFleb. destruct (SFcompare a b) as [[]|]; try discriminate; reflexivity.
Qed.

Lemma SFleb_not_ltb (a b : spec_float) : SFleb a b = true -> SFltb b a = false.
Proof.
  intros H. destruct (SFltb b a) eqn:E; [|reflexivity].
  pose proof (SFltb_leb_trans _ _ _ E H) as F. rewrite SFltb_irrefl in F. discriminate.
Qed.

Lemma SFltb_not_leb (a b : spec_float) : SFltb a b = true -> SFleb b a = false.
Proof.
  intros H. destruct (SFleb b a) eqn:E; [|reflexivity].
  pose proof (SFltb_leb_trans _ _ _ H E) as F. rewrite SFltb_irrefl in F. discriminate.
Qed.

Lemma SFltb_trans (a b c : spec_float) :
  SFltb a b = true -> SFltb b c = true -> SFltb a c = true.
Proof. intros H1 H2. apply (SFltb_leb_trans a b c H1 (SFltb_leb _ _ H2)). Qed.

End Orden.

(** ** Band selection *)

Lemma EstadoPMV_eqb_eq (a b : EstadoPMV) : EstadoPMV_eqb a b = true <-> a = b.
Proof. destruct a, b; simpl; split; intros H; try discriminate; reflexivity. Qed.

Lemma actualizarServo_deseado (a : Z) (s : Sistema) :
  servoAnguloDeseado (actualizarServo a s) = a.
Proof.
  unfold actualizarServo.
  destruct (a =? servoAnguloDeseado s) eqn:E; simpl.
  - apply Z.eqb_eq in E.
    destruct (_ && _); simpl; congruence.
  - destruct (_ && _); reflexivity.
Qed.

Lemma actualizarServo_marco (a : Z) (s : Sistema) :
  let s' := actualizarServo a s in
  estadoPMVActual s' = estadoPMVActual s /\ rele s' = rele s
  /\ alarmActive s' = alarmActive s /\ pmvBajoActive s' = pmvBajoActive s
  /\ alarmSilenced s' = alarmSilenced s /\ reloj s' = reloj s.
Proof.
  unfold actualizarServo.
  destruct (negb (a =? servoAnguloDeseado s)); simpl;
    destruct (_ && _); simpl; repeat split.
Qed.

(** [setActuador] stores the band picked by [nuevoEstado] and commands the
    relay level and servo target of that band. *)
Lemma setActuador_banda (p : float) (s : Sistema) :
  let b := nuevoEstado (estadoPMVActual s) p in
  estadoPMVActual (setActuador p s) = b
  /\ rele (setActuador p s) = releDeBanda b
  /\ servoAnguloDeseado (setActuador p s) = anguloDeBanda b.
Proof.
  intros b. unfold setActuador. fold b.
  set (s1 := if negb (EstadoPMV_eqb b (estadoPMVActual s)) then _ else s).
  assert (Hb : estadoPMVActual s1 = b).
  { unfold s1. destruct (EstadoPMV_eqb b (estadoPMVActual s)) eqn:E; simpl.
    - symmetry. now apply EstadoPMV_eqb_eq.
    - reflexivity. }
  rewrite Hb. clearbody s1.
  destruct b; simpl;
    repeat match goal with
           | |- context [if ?c then _ else _] => destruct c
           end; simpl;
    rewrite ?actualizarServo_deseado;
    repeat split;
    match goal with
    | |- _ (actualizarServo ?a ?t) = _ =>
        destruct (actualizarServo_marco a t) as (E1 & E2 & _); rewrite ?E1, ?E2; simpl;
        try assumption; reflexivity
    end.
Qed.

Lemma SFltb_false (a b : spec_float) :
  SFltb a b = false -> SFleb b a = true \/ F32.isnan a = true \/ F32.isnan b = true.
Proof.
  unfold SFltb, SFleb.
  destruct a as [[|]|[|]| |[|] ma ea]; destruct b as [[|]|[|]| |[|] mb eb];
    simpl; auto; try discriminate;
    change (Pos.compare_cont Eq ma mb) with (Pos.compare ma mb);
    change (Pos.compare_cont Eq mb ma) with (Pos.compare mb ma);
    rewrite (Z.compare_antisym ea eb), (Pos.compare_antisym ma mb);
    destruct (Z.compare ea eb); simpl; auto; try discriminate;
    destruct (Pos.compare ma mb); simpl; auto; discriminate.
Qed.

Lemma nuevoEstado_nan (b : EstadoPMV) : nuevoEstado b S754_nan = b.
Proof. reflexivity. Qed.

Lemma nuevoEstado_muy_calor_queda (p : float) :
  F32.lt p (F32.lit 6 10) = false -> nuevoEstado PMV_MUY_CALOR p = PMV_MUY_CALOR.
Proof.
  intros H. destruct (SFltb_false _ _ H) as [Hle | [Hn | Hn]].
  - unfold nuevoEstado. destruct (F32.gt p (F32.lit 8 10)); [reflexivity|].
    assert (G : F32.gt p (F32.lit 4 10) = true).
    { unfold F32.gt. apply (SFltb_leb_trans _ (F32.lit 6 10)); [vm_compute; reflexivity | exact Hle]. }
    rewrite G, H. reflexivity.
  - destruct p; try discriminate. reflexivity.
  - discriminate.
Qed.

Lemma nuevoEstado_muy_bajo_queda (p : float) :
  F32.gt p (F32.opp (F32.lit 6 10)) = false -> nuevoEstado PMV_MUY_BAJO p = PMV_MUY_BAJO.
Proof.
  intros H. unfold F32.gt in H. destruct (SFltb_false _ _ H) as [Hle | [Hn | Hn]].
  - unfold nuevoEstado.
    assert (G1 : F32.gt p (F32.lit 8 10) = false).
    { unfold F32.gt. apply SFleb_not_ltb.
      apply (SFleb_trans _ (F32.opp (F32.lit 6 10))); [exact Hle | vm_compute; reflexivity]. }
    assert (G2 : F32.gt p (F32.lit 4 10) = false).
    { unfold F32.gt. apply SFleb_not_ltb.
      apply (SFleb_trans _ (F32.opp (F32.lit 6 10))); [exact Hle | vm_compute; reflexivity]. }
    assert (G3 : F32.ge p (F32.opp (F32.lit 4 10)) = false).
    { unfold F32.ge. apply SFltb_not_leb.
      apply (SFleb_ltb_trans _ (F32.opp (F32.lit 6 10))); [exact Hle | vm_compute; reflexivity]. }
    rewrite G1, G2, G3. unfold F32.gt. rewrite H. cbn [andb orb negb EstadoPMV_eqb].
    destruct (_ && _); [reflexivity|]. destruct (F32.lt _ _); reflexivity.
  - discriminate.
  - destruct p; try discriminate. reflexivity.
Qed.

Lemma nuevoEstado_solape (b : EstadoPMV) (p : float) :
  F32.ge p (F32.lit 3 10) = true -> F32.le p (F32.lit 4 10) = true ->
  nuevoEstado b p = PMV_CONFORT.
Proof.
  unfold F32.ge, F32.le. intros Hlo Hhi. unfold nuevoEstado.
  assert (G1 : F32.gt p (F32.lit 8 10) = false).
  { unfold F32.gt. apply SFleb_not_ltb.
    apply (SFleb_trans _ (F32.lit 4 10)); [exact Hhi | vm_compute; reflexivity]. }
  assert (G2 : F32.gt p (F32.lit 4 10) = false).
  { unfold F32.gt. apply SFleb_not_ltb. exact Hhi. }
  assert (G3 : F32.ge p (F32.opp (F32.lit 4 10)) = true).
  { unfold F32.ge. apply (SFleb_trans _ (F32.lit 3 10)); [vm_compute; reflexivity | exact Hlo]. }
  unfold F32.le. rewrite G1, G2, G3, Hhi. reflexivity.
Qed.

Lemma aplicarPMV_muy_calor (ps : list float) :
  forall s, estadoPMVActual s = PMV_MUY_CALOR ->
  Forall (fun p => F32.ge p (F32.lit 6 10) = true) ps ->
  estadoPMVActual (aplicarPMV ps s) = PMV_MUY_CALOR.
Proof.
  induction ps as [|p ps IH]; intros s Hs Hps; simpl.
  - exact Hs.
  - inversion Hps as [|? ? Hp Hrest]; subst.
    apply IH; [|exact Hrest].
    destruct (setActuador_banda p s) as (E & _). rewrite E, Hs.
    apply nuevoEstado_muy_calor_queda. apply SFleb_not_ltb. exact Hp.
Qed.

Lemma aplicarPMV_muy_bajo (ps : list float) :
  forall s, estadoPMVActual s = PMV_MUY_BAJO ->
  Forall (fun p => F32.le p (F32.opp (F32.lit 6 10)) = true) ps ->
  estadoPMVActual (aplicarPMV ps s) = PMV_MUY_BAJO.
Proof.
  induction ps as [|p ps IH]; intros s Hs Hps; simpl.
  - exact Hs.
  - inversion Hps as [|? ? Hp Hrest]; subst.
    apply IH; [|exact Hrest].
    destruct (setActuador_banda p s) as (E & _). rewrite E, Hs.
    apply nuevoEstado_muy_bajo_queda. apply SFleb_not_ltb. exact Hp.
Qed.

(** C1. Hysteresis without chatter.  From band PMV_MUY_CALOR, any sequence of
    ticks whose pmv values are all at least 0.6 (0.65, 0.75, 0.65, ...) leaves
    the band at PMV_MUY_CALOR, and a tick that leaves PMV_MUY_CALOR had
    pmv below 0.6.  Symmetrically, from PMV_MUY_BAJO any sequence of ticks with
    pmv at most -0.6 leaves the band at PMV_MUY_BAJO. *)
Theorem histeresis_sin_oscilacion (s : Sistema) (ps : list float) (p : float) :
  (estadoPMVActual s = PMV_MUY_CALOR ->
     (Forall (fun q => F32.ge q (F32.lit 6 10) = true) ps ->
      estadoPMVActual (aplicarPMV ps s) = PMV_MUY_CALOR)
     /\ (estadoPMVActual (setActuador p s) <> PMV_MUY_CALOR ->
         F32.lt p (F32.lit 6 10) = true))
  /\ (estadoPMVActual s = PMV_MUY_BAJO ->
      Forall (fun q => F32.le q (F32.opp (F32.lit 6 10)) = true) ps ->
      estadoPMVActual (aplicarPMV ps s) = PMV_MUY_BAJO).
Proof.
  split; [intros Hs; split|].
  - apply aplicarPMV_muy_calor; exact Hs.
  - intros Hsale. destruct (F32.lt p (F32.lit 6 10)) eqn:E; [reflexivity|].
    exfalso. apply Hsale.
    destruct (setActuador_banda p s) as (Eb & _). rewrite Eb, Hs.
    apply nuevoEstado_muy_calor_queda. exact E.
  - apply aplicarPMV_muy_bajo.
Qed.

Lemma histeresis_sin_oscilacion_testigo :
  estadoPMVActual
    (aplicarPMV [F32.lit 65 100; F32.lit 75 100; F32.lit 65 100]
       (set_estadoPMVActual PMV_MUY_CALOR inicial)) = PMV_MUY_CALOR.
Proof.
  refine (proj1 (proj1 (histeresis_sin_oscilacion
                          (set_estadoPMVActual PMV_MUY_CALOR inicial)
                          [F32.lit 65 100; F32.lit 75 100; F32.lit 65 100]
                          (F32.lit 5 10)) _) _).
  - reflexivity.
  - repeat (apply Forall_cons; [vm_compute; reflexivity|]). apply Forall_nil.
Defined.


(** C7. Overlap region.  For every previous band, a pmv in [0.3, 0.4]
    (0.35 in particular) gives band PMV_CONFORT: the conditions of
    [setActuador] are tried in the order very hot, hot, comfort, cold, very
    cold and the comfort condition is the first that holds. *)
Theorem solape_resuelve_confort (s : Sistema) (p : float) :
  (F32.ge p (F32.lit 3 10) = true -> F32.le p (F32.lit 4 10) = true ->
   estadoPMVActual (setActuador p s) = PMV_CONFORT)
  /\ estadoPMVActual (setActuador (F32.lit 35 100) s) = PMV_CONFORT.
Proof.
  split.
  - intros Hlo Hhi. destruct (setActuador_banda p s) as (E & _). rewrite E.
    apply nuevoEstado_solape; assumption.
  - destruct (setActuador_banda (F32.lit 35 100) s) as (E & _). rewrite E.
    apply nuevoEstado_solape; vm_compute; reflexivity.
Qed.

Lemma solape_resuelve_confort_testigo :
  estadoPMVActual (setActuador (F32.lit 32 100) (set_estadoPMVActual PMV_BAJO inicial))
  = PMV_CONFORT.
Proof.
  refine (proj1 (solape_resuelve_confort (set_estadoPMVActual PMV_BAJO inicial)
                   (F32.lit 32 100)) _ _); vm_compute; reflexivity.
Defined.


(** C5. End-to-end sample.  For tDHT = 30, tAnalog = 28, h = 50, luz = 300 the
    average temperature is 29, both factors are 0 and the index is exactly
    1.5 (inside the clamp [-2.0, 2.0]); from any state [setActuador] then
    selects PMV_MUY_CALOR, switches the relay on and sets the servo target
    to 0 degrees. *)
Theorem escenario_30_28_50_300 (s : Sistema) :
  let idx := calcularPMV (F32.of_Z 30) (F32.of_Z 28) (F32.of_Z 50) 300 in
  tProm (F32.of_Z 30) (F32.of_Z 28) = F32.of_Z 29
  /\ factorHumedad (F32.of_Z 50) = F32.of_Z 0
  /\ factorLuz 300 = F32.of_Z 0
  /\ idx = F32.lit 15 10
  /\ F32.le (F32.opp (F32.lit 20 10)) idx = true /\ F32.le idx (F32.lit 20 10) = true
  /\ estadoPMVActual (setActuador idx s) = PMV_MUY_CALOR
  /\ rele (setActuador idx s) = true
  /\ servoAnguloDeseado (setActuador idx s) = 0.
Proof.
  intros idx.
  assert (Hidx : idx = F32.lit 15 10) by (vm_compute; reflexivity).
  assert (Hb : forall b, nuevoEstado b idx = PMV_MUY_CALOR).
  { intros b. rewrite Hidx. unfold nuevoEstado.
    replace (F32.gt (F32.lit 15 10) (F32.lit 8 10)) with true by (vm_compute; reflexivity).
    reflexivity. }
  destruct (setActuador_banda idx s) as (E1 & E2 & E3).
  rewrite E1, E2, E3, Hb, Hidx.
  repeat split; vm_compute; reflexivity.
Qed.

(** ** Time *)


(** Subtracting the recorded tick from the current one recovers the elapsed
    time, whether or not the counter has wrapped in between. *)
Lemma wrap32_transcurrido (t0 d : Z) :
  0 <= d < 2 ^ 32 -> wrap32 (wrap32 (t0 + d) - t0) = d.
Proof.
  intros Hd. unfold wrap32.
  rewrite Zminus_mod_idemp_l.
  replace (t0 + d - t0) with d by ring.
  apply Z.mod_small. exact Hd.
Qed.

(** ** Servo *)

Lemma actualizarServo_casos (a : Z) (s : Sistema) :
  let s' := actualizarServo a s in
  (servoAnguloActual s <> a /\ SERVO_DELAY <= wrap32 (millis s - ultimoCambioServo s)
   /\ servoAnguloActual s' = a /\ ultimoCambioServo s' = millis s
   /\ servoEscrituras s' = a :: servoEscrituras s)
  \/ ((servoAnguloActual s = a \/ wrap32 (millis s - ultimoCambioServo s) < SERVO_DELAY)
      /\ servoAnguloActual s' = servoAnguloActual s
      /\ ultimoCambioServo s' = ultimoCambioServo s
      /\ servoEscrituras s' = servoEscrituras s).
Proof.
  unfold actualizarServo.
  set (s1 := if negb (a =? servoAnguloDeseado s) then _ else s).
  assert (H1 : servoAnguloDeseado s1 = a /\ servoAnguloActual s1 = servoAnguloActual s
                /\ millis s1 = millis s /\ ultimoCambioServo s1 = ultimoCambioServo s
                /\ servoEscrituras s1 = servoEscrituras s).
  { unfold s1. destruct (a =? servoAnguloDeseado s) eqn:E; simpl; repeat split.
    symmetry. now apply Z.eqb_eq. }
  destruct H1 as (D & A & M & U & W). clearbody s1.
  rewrite D, A, M, U.
  destruct (servoAnguloActual s =? a) eqn:E1; simpl.
  - right. apply Z.eqb_eq in E1. repeat split; auto.
  - apply Z.eqb_neq in E1.
    destruct (SERVO_DELAY <=? wrap32 (millis s - ultimoCambioServo s)) eqn:E2; simpl.
    + left. apply Z.leb_le in E2. unfold millis in *. repeat split; auto. now rewrite W.
    + right. apply Z.leb_gt in E2. repeat split; auto.
Qed.

Lemma actualizarServo_reloj (a : Z) (s : Sistema) : reloj (actualizarServo a s) = reloj s.
Proof. apply (actualizarServo_marco a s). Qed.

(** ** Lockout *)

Lemma wrap32_suma_l (x y : Z) : wrap32 (wrap32 x + y) = wrap32 (x + y).
Proof. unfold wrap32. apply Zplus_mod_idemp_l. Qed.

Lemma verificarDesbloqueo_libre (s : Sistema) :
  sistemaBloqueado s = false -> verificarDesbloqueo s = s.
Proof. intros H. unfold verificarDesbloqueo. rewrite H. reflexivity. Qed.

Lemma verificarDesbloqueo_casos (s : Sistema) (d : Z) :
  sistemaBloqueado s = true -> 0 <= d < 2 ^ 32 -> reloj s = wrap32 (tiempoBloqueo s + d) ->
  let s' := verificarDesbloqueo s in
  (d < DURACION_BLOQUEO ->
   sistemaBloqueado s' = true /\ estado s' = estado s /\ usuarioActivo s' = usuarioActivo s
   /\ tiempoBloqueo s' = tiempoBloqueo s /\ reloj s' = reloj s)
  /\ (DURACION_BLOQUEO <= d ->
      sistemaBloqueado s' = false /\ estado s' = MENU /\ usuarioActivo s' = None).
Proof.
  intros Hb Hd Hr. unfold verificarDesbloqueo, millis. rewrite Hb.
  replace (wrap32 (reloj s - tiempoBloqueo s)) with d
    by (rewrite Hr; symmetry; apply wrap32_transcurrido; exact Hd).
  split; intros Hc.
  - apply Z.leb_gt in Hc. rewrite Hc.
    destruct (_ =? 0); repeat split; exact Hb.
  - apply Z.leb_le in Hc. rewrite Hc. repeat split.
Qed.

(** Unfolds field accesses and updates, and the peripheral primitives. *)
Ltac campos :=
  cbv beta iota zeta delta
    [
      usuarios totalUsuarios usuarioActivo pmv intentosFallidos alarmActive
      alarmSilenced alarmSilenceUntil lastAlarmToggle alarmToggleState pmvBajoActive
      lastPmvBajoToggle pmvBajoToggleState sistemaBloqueado tiempoBloqueo
      servoAnguloActual servoAnguloDeseado ultimoCambioServo estado estadoPMVActual
      estadoPMVAnterior reloj rele led zumbador servoEscrituras set_usuarios
      set_totalUsuarios set_usuarioActivo set_pmv set_intentosFallidos
      set_alarmActive set_alarmSilenced set_alarmSilenceUntil set_lastAlarmToggle
      set_alarmToggleState set_pmvBajoActive set_lastPmvBajoToggle
      set_pmvBajoToggleState set_sistemaBloqueado set_tiempoBloqueo
      set_servoAnguloActual set_servoAnguloDeseado set_ultimoCambioServo set_estado
      set_estadoPMVActual set_estadoPMVAnterior set_reloj set_rele set_led
      set_zumbador set_servoEscrituras millis delay setColor tone noTone
      digitalWrite_RELAY servo_write pitido repetir beep
    ].

Ltac campos_en H :=
  cbv beta iota zeta delta
    [
      usuarios totalUsuarios usuarioActivo pmv intentosFallidos alarmActive
      alarmSilenced alarmSilenceUntil lastAlarmToggle alarmToggleState pmvBajoActive
      lastPmvBajoToggle pmvBajoToggleState sistemaBloqueado tiempoBloqueo
      servoAnguloActual servoAnguloDeseado ultimoCambioServo estado estadoPMVActual
      estadoPMVAnterior reloj rele led zumbador servoEscrituras set_usuarios
      set_totalUsuarios set_usuarioActivo set_pmv set_intentosFallidos
      set_alarmActive set_alarmSilenced set_alarmSilenceUntil set_lastAlarmToggle
      set_alarmToggleState set_pmvBajoActive set_lastPmvBajoToggle
      set_pmvBajoToggleState set_sistemaBloqueado set_tiempoBloqueo
      set_servoAnguloActual set_servoAnguloDeseado set_ultimoCambioServo set_estado
      set_estadoPMVActual set_estadoPMVAnterior set_reloj set_rele set_led
      set_zumbador set_servoEscrituras millis delay setColor tone noTone
      digitalWrite_RELAY servo_write pitido repetir beep
    ] in H.

Lemma loop_intento_fallido (e : Entrada) (s : Sistema) :
  estado s = LOGIN -> sistemaBloqueado s = false ->
  intentoFallido (usuarios s) (totalUsuarios s) e = true ->
  exists s', loop e s = Some s'
    /\ estado s' = MENU /\ usuarios s' = usuarios s /\ totalUsuarios s' = totalUsuarios s
    /\ (intentosFallidos s + 1 < 3 ->
        intentosFallidos s' = intentosFallidos s + 1 /\ sistemaBloqueado s' = false)
    /\ (3 <= intentosFallidos s + 1 ->
        intentosFallidos s' = 0 /\ sistemaBloqueado s' = true
        /\ reloj s' = wrap32 (tiempoBloqueo s' + 2500)).
Proof.
  intros He Hb Hf. unfold intentoFallido in Hf.
  apply andb_true_iff in Hf. destruct Hf as (Ht & Hf).
  unfold loop.
  rewrite verificarDesbloqueo_libre by exact Hb.
  destruct s; campos_en He; campos_en Hb; campos_en Ht; campos_en Hf; subst.
  campos. rewrite Ht.
  destruct (buscarTag _ _ _ _) as [i|]; [|discriminate].
  unfold loginConTag.
  destruct (leerClave (teclasClave e) EmptyString) as [cl|]; [|discriminate].
  campos.
  apply negb_true_iff in Hf. rewrite Hf.
  destruct (3 <=? _) eqn:E.
  - apply Z.leb_le in E. unfold bloqueoSistema. campos.
    eexists. split; [reflexivity|]. campos.
    repeat split; try lia.
    repeat (rewrite wrap32_suma_l || rewrite <- Z.add_assoc). f_equal.
  - apply Z.leb_gt in E.
    eexists. split; [reflexivity|]. campos.
    repeat split; try lia.
Qed.

Lemma loop_menu_1 (e : Entrada) (s : Sistema) :
  estado s = MENU -> sistemaBloqueado s = false -> tecla e = "1"%char ->
  loop e s = Some (set_estado LOGIN (delay (transcurrido e) s)).
Proof.
  intros He Hb Hk. unfold loop.
  rewrite verificarDesbloqueo_libre by exact Hb.
  change (estado (delay (transcurrido e) s)) with (estado s). rewrite He, Hk.
  reflexivity.
Qed.

(** C2. Lockout life cycle.  Starting unlocked with the failure counter at 0,
    two failed PIN checks leave the system unlocked with the counter at 2, and
    the third one locks it, resets the counter to 0 and records the tick of
    that moment in [tiempoBloqueo] (the call then beeps for 2500 ms).  For a
    locked system, a check made [d] ms after the recorded tick keeps the lock
    while [d < 15000] and clears it as soon as [d >= 15000], setting the
    session to MENU and the active user to none. *)
Theorem bloqueo_ciclo_de_vida (s b : Sistema) (f1 m1 f2 m2 f3 : Entrada) (d : Z) :
  estado s = LOGIN -> sistemaBloqueado s = false -> intentosFallidos s = 0 ->
  intentoFallido (usuarios s) (totalUsuarios s) f1 = true ->
  intentoFallido (usuarios s) (totalUsuarios s) f2 = true ->
  intentoFallido (usuarios s) (totalUsuarios s) f3 = true ->
  tecla m1 = "1"%char -> tecla m2 = "1"%char ->
  sistemaBloqueado b = true -> 0 <= d < 2 ^ 32 -> reloj b = wrap32 (tiempoBloqueo b + d) ->
  (exists s2, ejecutar [f1; m1; f2] s = Some s2
     /\ sistemaBloqueado s2 = false /\ intentosFallidos s2 = 2)
  /\ (exists s3, ejecutar [f1; m1; f2; m2; f3] s = Some s3
        /\ sistemaBloqueado s3 = true /\ intentosFallidos s3 = 0 /\ estado s3 = MENU
        /\ reloj s3 = wrap32 (tiempoBloqueo s3 + 2500))
  /\ (d < DURACION_BLOQUEO ->
      sistemaBloqueado (verificarDesbloqueo b) = true
      /\ estado (verificarDesbloqueo b) = estado b
      /\ usuarioActivo (verificarDesbloqueo b) = usuarioActivo b)
  /\ (DURACION_BLOQUEO <= d ->
      sistemaBloqueado (verificarDesbloqueo b) = false
      /\ estado (verificarDesbloqueo b) = MENU
      /\ usuarioActivo (verificarDesbloqueo b) = None).
Proof.
  intros He Hb Hc F1 F2 F3 K1 K2 Lb Hd Hr.
  destruct (loop_intento_fallido f1 s He Hb F1) as (s1 & L1 & E1 & U1 & T1 & I1 & _).
  destruct I1 as (C1 & B1); [lia|].
  pose proof (loop_menu_1 m1 s1 E1 B1 K1) as L1'.
  set (s1' := set_estado LOGIN (delay (transcurrido m1) s1)) in L1'.
  assert (F2' : intentoFallido (usuarios s1') (totalUsuarios s1') f2 = true).
  { change (usuarios s1') with (usuarios s1). change (totalUsuarios s1') with (totalUsuarios s1).
    rewrite U1, T1. exact F2. }
  destruct (loop_intento_fallido f2 s1' eq_refl B1 F2') as (s2 & L2 & E2 & U2 & T2 & I2 & _).
  change (intentosFallidos s1') with (intentosFallidos s1) in I2.
  destruct I2 as (C2 & B2); [lia|].
  pose proof (loop_menu_1 m2 s2 E2 B2 K2) as L2'.
  set (s2' := set_estado LOGIN (delay (transcurrido m2) s2)) in L2'.
  assert (F3' : intentoFallido (usuarios s2') (totalUsuarios s2') f3 = true).
  { change (usuarios s2') with (usuarios s2). change (totalUsuarios s2') with (totalUsuarios s2).
    rewrite U2, T2. change (usuarios s1') with (usuarios s1).
    change (totalUsuarios s1') with (totalUsuarios s1). rewrite U1, T1. exact F3. }
  destruct (loop_intento_fallido f3 s2' eq_refl B2 F3') as (s3 & L3 & E3 & _ & _ & _ & I3).
  change (intentosFallidos s2') with (intentosFallidos s2) in I3.
  destruct I3 as (C3 & B3 & R3); [lia|].
  split; [|split].
  - exists s2. simpl. rewrite L1, L1', L2. repeat split; [exact B2 | lia].
  - exists s3. simpl. rewrite L1, L1', L2, L2', L3. repeat split; assumption.
  - destruct (verificarDesbloqueo_casos b d Lb Hd Hr) as (P & Q).
    split; intros Hc'.
    + destruct (P Hc') as (X1 & X2 & X3 & _). auto.
    + exact (Q Hc').
Qed.

Lemma bloqueo_ciclo_de_vida_testigo :
  sistemaBloqueado
    (verificarDesbloqueo (set_reloj 16500 (set_sistemaBloqueado true inicial))) = false.
Proof.
  refine (proj1 (proj2 (proj2 (proj2
    (bloqueo_ciclo_de_vida
       (set_estado LOGIN inicial) (set_reloj 16500 (set_sistemaBloqueado true inicial))
       (conTagYClave "5CF8D773" ["0"; "0"; "0"; "0"; "#"]%char) (conTecla 0 "1")
       (conTagYClave "5CF8D773" ["1"; "2"; "#"]%char) (conTecla 0 "1")
       (conTagYClave "5CF8D773" ["9"; "#"]%char) 16500
       _ _ _ _ _ _ _ _ _ _ _))) _)); try reflexivity.
  - lia.
  - unfold DURACION_BLOQUEO. lia.
Defined.

Lemma loop_menu_1_bloqueado (e : Entrada) (s : Sistema) :
  estado s = MENU -> sistemaBloqueado s = true -> tecla e = "1"%char ->
  wrap32 (wrap32 (reloj s + transcurrido e) - tiempoBloqueo s) < DURACION_BLOQUEO ->
  exists s', loop e s = Some s' /\ estado s' = LOGIN /\ sistemaBloqueado s' = true.
Proof.
  intros He Hb Hk Ht. apply Z.leb_gt in Ht.
  unfold loop, verificarDesbloqueo.
  destruct s; campos_en He; campos_en Hb; campos_en Ht; subst.
  campos. rewrite Ht. campos.
  destruct (_ =? 0); campos; rewrite Hk; eexists; split; try reflexivity; split; reflexivity.
Qed.

(** C3. Behaviour of the code while locked.  Three wrong PINs from the
    start-up state lock the system; the key '1' pressed right afterwards still
    takes the session from MENU to LOGIN, and the right tag and PIN then open
    CONFORT for user 0, all with [sistemaBloqueado] still set: [loop()] never
    consults the lock before it handles MENU and LOGIN input. *)
Theorem bloqueo_no_detiene_teclas :
  let fallo := conTagYClave "5CF8D773" ["0"; "0"; "0"; "0"; "#"]%char in
  let uno := conTecla 0 "1" in
  exists s s1 s2,
    ejecutar [uno; fallo; uno; fallo; uno; fallo] inicial = Some s
    /\ sistemaBloqueado s = true /\ estado s = MENU
    /\ loop uno s = Some s1
    /\ sistemaBloqueado s1 = true /\ estado s1 = LOGIN
    /\ loop (conTagYClave "5CF8D773" ["3"; "4"; "5"; "6"; "#"]%char) s1 = Some s2
    /\ sistemaBloqueado s2 = true /\ estado s2 = CONFORT /\ usuarioActivo s2 = Some 0%nat.
Proof.
  intros fallo uno.
  eexists. eexists. eexists.
  split; [vm_compute; reflexivity|].
  split; [reflexivity|]. split; [reflexivity|].
  split; [vm_compute; reflexivity|].
  split; [reflexivity|]. split; [reflexivity|].
  split; [vm_compute; reflexivity|].
  repeat split.
Qed.

(** ** Alerts *)

Ltac romper :=
  repeat match goal with
         | |- context [if ?c then _ else _] => destruct c eqn:?
         end.

Lemma actualizarServo_alertas (a : Z) (s : Sistema) :
  let s' := actualizarServo a s in
  alertas s' = alertas s /\ reloj s' = reloj s /\ pmv s' = pmv s
  /\ alarmSilenceUntil s' = alarmSilenceUntil s /\ estado s' = estado s
  /\ usuarioActivo s' = usuarioActivo s.
Proof.
  unfold actualizarServo.
  destruct (negb (a =? servoAnguloDeseado s)); simpl;
    destruct (_ && _); simpl; repeat split.
Qed.

Lemma setActuador_marco (p : float) (s : Sistema) :
  let s' := setActuador p s in
  alertas s' = alertas s /\ reloj s' = reloj s /\ pmv s' = pmv s
  /\ alarmSilenceUntil s' = alarmSilenceUntil s /\ estado s' = estado s
  /\ usuarioActivo s' = usuarioActivo s.
Proof.
  unfold setActuador.
  set (s1 := if negb _ then _ else s).
  assert (H1 : alertas s1 = alertas s /\ reloj s1 = reloj s /\ pmv s1 = pmv s
               /\ alarmSilenceUntil s1 = alarmSilenceUntil s /\ estado s1 = estado s
               /\ usuarioActivo s1 = usuarioActivo s).
  { unfold s1. destruct (negb _); repeat split. }
  clearbody s1. destruct H1 as (A & B & C & D & E & F).
  rewrite <- A, <- B, <- C, <- D, <- E, <- F.
  destruct (estadoPMVActual s1);
    match goal with
    | |- context [actualizarServo ?a ?t] =>
        pose proof (actualizarServo_alertas a t) as G; cbv zeta in G;
        set (u := actualizarServo a t) in *; clearbody u
    end;
    destruct G as (G1 & G2 & G3 & G4 & G5 & G6);
    change (alertas (digitalWrite_RELAY _ s1)) with (alertas s1) in G1;
    change (reloj (digitalWrite_RELAY _ s1)) with (reloj s1) in G2;
    change (pmv (digitalWrite_RELAY _ s1)) with (pmv s1) in G3;
    change (alarmSilenceUntil (digitalWrite_RELAY _ s1)) with (alarmSilenceUntil s1) in G4;
    change (estado (digitalWrite_RELAY _ s1)) with (estado s1) in G5;
    change (usuarioActivo (digitalWrite_RELAY _ s1)) with (usuarioActivo s1) in G6;
    rewrite <- G1, <- G2, <- G3, <- G4, <- G5, <- G6;
    romper; repeat split.
Qed.

Lemma checkAlarm_casos (p : float) (s : Sistema) :
  let s' := checkAlarm p s in
  pmvBajoActive s' = pmvBajoActive s /\ pmv s' = pmv s
  /\ ((alarmSilenced s = true /\ reloj s < alarmSilenceUntil s /\ s' = s)
      \/ ((alarmSilenced s = false \/ alarmSilenceUntil s <= reloj s)
          /\ alarmSilenced s' = false
          /\ alarmActive s' = F32.gt p PMV_ALARM_THRESHOLD)).
Proof.
  unfold checkAlarm, millis.
  destruct (alarmSilenced s) eqn:Es; simpl.
  - destruct (reloj s <? alarmSilenceUntil s) eqn:Et.
    + apply Z.ltb_lt in Et. repeat split. left. repeat split. exact Et.
    + apply Z.ltb_ge in Et.
      destruct (F32.gt p PMV_ALARM_THRESHOLD); destruct (alarmActive s) eqn:Ea; simpl;
        rewrite ?Ea; repeat split; right; repeat split; auto.
  - destruct (F32.gt p PMV_ALARM_THRESHOLD); destruct (alarmActive s) eqn:Ea; simpl;
      rewrite ?Ea; repeat split; right; repeat split; auto.
Qed.

Lemma checkPmvBajo_casos (p : float) (s : Sistema) :
  let s' := checkPmvBajo p s in
  pmvBajoActive s' = F32.lt p PMV_BAJO_THRESHOLD
  /\ alarmActive s' = alarmActive s /\ alarmSilenced s' = alarmSilenced s
  /\ alarmSilenceUntil s' = alarmSilenceUntil s /\ pmv s' = pmv s /\ reloj s' = reloj s.
Proof.
  unfold checkPmvBajo.
  destruct (F32.lt p PMV_BAJO_THRESHOLD); destruct (pmvBajoActive s) eqn:Eb; simpl;
    rewrite ?Eb; repeat split.
Qed.

Lemma alarmHandler_marco (s : Sistema) :
  let s' := alarmHandler s in
  alertas s' = alertas s /\ reloj s' = reloj s /\ pmv s' = pmv s
  /\ alarmSilenceUntil s' = alarmSilenceUntil s.
Proof. unfold alarmHandler. romper; repeat split. Qed.

Lemma pmvBajoHandler_marco (s : Sistema) :
  let s' := pmvBajoHandler s in
  alertas s' = alertas s /\ reloj s' = reloj s /\ pmv s' = pmv s
  /\ alarmSilenceUntil s' = alarmSilenceUntil s.
Proof. unfold pmvBajoHandler. romper; repeat split. Qed.

Lemma confortConAlarma_alertas (k : ascii) (s : Sistema) :
  alarmSilenced s = false ->
  let s' := confortConAlarma k s in
  pmv s' = pmv s
  /\ (alarmActive s' = true -> alarmActive s = true)
  /\ (pmvBajoActive s' = true -> pmvBajoActive s = true)
  /\ (alarmSilenced s' = true -> alarmActive s' = false).
Proof.
  intros Hs. unfold confortConAlarma.
  destruct (alarmHandler_marco s) as (A & _ & P & _).
  set (s1 := alarmHandler s) in *. clearbody s1.
  unfold alertas in A. injection A as A1 A2 A3. rewrite <- A1, <- A3, <- P.
  rewrite <- A2 in Hs. clear A1 A2 A3 P.
  destruct s1. campos_en Hs. subst. unfold stopAlarm, stopPmvBajo. campos.
  destruct (Ascii.eqb k "*"); destruct (Ascii.eqb k "#"); campos;
    romper; campos; repeat split; auto; discriminate.
Qed.

Lemma confortConPmvBajo_alertas (k : ascii) (s : Sistema) :
  let s' := confortConPmvBajo k s in
  pmv s' = pmv s /\ alarmActive s' = alarmActive s /\ alarmSilenced s' = alarmSilenced s
  /\ (pmvBajoActive s' = true -> pmvBajoActive s = true).
Proof.
  unfold confortConPmvBajo.
  destruct (pmvBajoHandler_marco s) as (A & _ & P & _).
  set (s1 := pmvBajoHandler s) in *. clearbody s1.
  unfold alertas in A. injection A as A1 A2 A3. rewrite <- A1, <- A2, <- A3, <- P.
  destruct (Ascii.eqb k "#"); repeat split; auto; discriminate.
Qed.

Lemma confortSinAlerta_alertas (k : ascii) (s : Sistema) :
  alertas (confortSinAlerta k s) = alertas s /\ pmv (confortSinAlerta k s) = pmv s.
Proof. unfold confortSinAlerta. destruct (Ascii.eqb k "#"); split; reflexivity. Qed.

Lemma umbrales_excluyentes (p : float) :
  F32.gt p PMV_ALARM_THRESHOLD = true -> F32.lt p PMV_BAJO_THRESHOLD = true -> False.
Proof.
  unfold F32.gt, F32.lt. intros H1 H2.
  pose proof (SFltb_trans _ _ _ H1 H2) as H. vm_compute in H. discriminate.
Qed.

Lemma modoConfort_alertas (e : Entrada) (s : Sistema) :
  (alarmSilenced s = true -> alarmActive s = false) ->
  let s' := modoConfort e s in
  pmv s' = pmvDeEntrada e
  /\ (alarmActive s' = true -> F32.gt (pmv s') PMV_ALARM_THRESHOLD = true)
  /\ (pmvBajoActive s' = true -> F32.lt (pmv s') PMV_BAJO_THRESHOLD = true)
  /\ (alarmSilenced s' = true -> alarmActive s' = false).
Proof.
  intros Hinv. unfold modoConfort.
  set (p := pmvDeEntrada e).
  change (pmv (set_pmv p s)) with p.
  destruct (setActuador_marco p (set_pmv p s)) as (A & _ & C & _).
  set (s2 := setActuador p (set_pmv p s)) in *. clearbody s2.
  unfold alertas in A. injection A as A1 A2 A3. rewrite C.
  change (pmv (set_pmv p s)) with p in *.
  change (alarmActive (set_pmv p s)) with (alarmActive s) in A1.
  change (alarmSilenced (set_pmv p s)) with (alarmSilenced s) in A2.
  rewrite <- A1, <- A2 in Hinv. clear A1 A2 A3.
  destruct (checkAlarm_casos p s2) as (B1 & B2 & B3).
  set (s3 := checkAlarm p s2) in *. clearbody s3. rewrite B2, C.
  destruct (checkPmvBajo_casos p s3) as (D1 & D2 & D3 & _ & D5 & _).
  set (s4 := checkPmvBajo p s3) in *. clearbody s4.
  assert (Hp4 : pmv s4 = p) by congruence.
  assert (Ha4 : alarmActive s4 = true -> F32.gt p PMV_ALARM_THRESHOLD = true).
  { rewrite D2. destruct B3 as [(G1 & _ & G3) | (_ & _ & G3)].
    - rewrite G3. intros Ha. rewrite (Hinv G1) in Ha. discriminate.
    - rewrite G3. auto. }
  assert (Hs4 : alarmSilenced s4 = true -> alarmActive s4 = false).
  { rewrite D2, D3. destruct B3 as [(G1 & _ & G3) | (_ & G2 & _)].
    - rewrite G3. exact Hinv.
    - rewrite G2. discriminate. }
  destruct (alarmActive s4) eqn:Ea.
  - assert (Hs : alarmSilenced s4 = false).
    { destruct (alarmSilenced s4); [|reflexivity]. now specialize (Hs4 eq_refl). }
    destruct (confortConAlarma_alertas (tecla e) s4 Hs) as (Q1 & Q2 & Q3 & Q4).
    rewrite Q1, Hp4. repeat split; auto.
    intros Hb. rewrite <- D1. auto.
  - destruct (pmvBajoActive s4) eqn:Eb.
    + destruct (confortConPmvBajo_alertas (tecla e) s4) as (Q1 & Q2 & Q3 & Q4).
      rewrite Q1, Q2, Q3, Hp4, Ea. repeat split; auto; try discriminate.
    + destruct (confortSinAlerta_alertas (tecla e) s4) as (Q1 & Q2).
      unfold alertas in Q1. injection Q1 as R1 R2 R3.
      rewrite Q2, R1, R2, R3, Hp4, Ea, Eb. repeat split; auto; discriminate.
Qed.

Lemma alertasCoherentes_marco (s s' : Sistema) :
  alertas s' = alertas s -> alertasCoherentes s -> alertasCoherentes s'.
Proof.
  unfold alertas, alertasCoherentes. intros H. injection H as H1 H2 H3.
  rewrite H1, H2, H3. auto.
Qed.

Lemma repetir_pitido_alertas (n : nat) (p : Z) :
  forall s, alertas (repetir n (pitido p) s) = alertas s.
Proof.
  induction n as [|n IH]; intros s; simpl; [reflexivity|].
  rewrite IH. reflexivity.
Qed.

Lemma beep_alertas (n : nat) (s : Sistema) : alertas (beep n s) = alertas s.
Proof. apply repetir_pitido_alertas. Qed.

Lemma verificarDesbloqueo_alertas (s : Sistema) :
  alertas (verificarDesbloqueo s) = alertas s.
Proof. unfold verificarDesbloqueo. romper; reflexivity. Qed.

Lemma esperarTag_alertas (l : list string) :
  forall s t s', esperarTag l s = Some (t, s') -> alertas s' = alertas s.
Proof.
  induction l as [|x l IH]; intros s t s' H; simpl in H; [discriminate|].
  destruct (String.eqb x EmptyString).
  - rewrite (IH _ _ _ H). reflexivity.
  - injection H as _ H. subst s'. reflexivity.
Qed.

Lemma registrarPorTag_alertas (e : Entrada) (s s' : Sistema) :
  registrarPorTag e s = Some s' -> alertas s' = alertas s.
Proof.
  unfold registrarPorTag. intros H.
  destruct (2 <=? totalUsuarios s).
  { injection H as H. subst s'. reflexivity. }
  destruct (esperarTag (lecturasTag e) s) as [[t s1]|] eqn:E1; [|discriminate].
  apply esperarTag_alertas in E1.
  destruct (leerTexto _ _) as [nom|]; [|discriminate].
  destruct (leerClave _ _) as [cl|]; [|discriminate].
  destruct (esperarTag (lecturasConfirm e) _) as [[tc s2]|] eqn:E3; [|discriminate].
  apply esperarTag_alertas in E3.
  destruct (String.eqb tc t); injection H as H; subst s';
    (transitivity (alertas s2); [reflexivity|]);
    rewrite E3; (transitivity (alertas s1); [reflexivity | exact E1]).
Qed.

Lemma loginConTag_alertas (i : nat) (e : Entrada) (s s' : Sistema) :
  loginConTag i e s = Some s' -> alertas s' = alertas s.
Proof.
  unfold loginConTag. intros H.
  destruct (leerClave _ _) as [cl|]; [|discriminate].
  destruct (String.eqb cl _); injection H as H; subst s'; [reflexivity|].
  destruct (3 <=? _); reflexivity.
Qed.

Lemma loop_alertasCoherentes (e : Entrada) (s s' : Sistema) :
  alertasCoherentes s -> loop e s = Some s' -> alertasCoherentes s'.
Proof.
  intros Hc H. unfold loop in H.
  set (s1 := verificarDesbloqueo (delay (transcurrido e) s)) in *.
  assert (H1 : alertas s1 = alertas s).
  { unfold s1. rewrite verificarDesbloqueo_alertas. reflexivity. }
  apply (alertasCoherentes_marco s s1 H1) in Hc. clearbody s1.
  destruct (estado s1).
  - destruct (Ascii.eqb (tecla e) "1").
    { injection H as H. subst s'. exact Hc. }
    destruct (Ascii.eqb (tecla e) "2").
    + apply registrarPorTag_alertas in H. exact (alertasCoherentes_marco _ _ H Hc).
    + injection H as H. subst s'. exact Hc.
  - destruct (negb _).
    + destruct (buscarTag _ _ _ _) as [i|].
      * apply loginConTag_alertas in H. exact (alertasCoherentes_marco _ _ H Hc).
      * injection H as H. subst s'. exact Hc.
    + injection H as H. subst s'. exact Hc.
  - injection H as H. subst s'.
    destruct (modoConfort_alertas e s1 (proj1 Hc)) as (_ & A & B & C).
    split; [exact C|].
    intros (Ha & Hb). exact (umbrales_excluyentes _ (A Ha) (B Hb)).
Qed.

Lemma inicial_alertasCoherentes : alertasCoherentes inicial.
Proof. split; [reflexivity | intros (H & _); discriminate]. Qed.

Lemma alcanzable_alertasCoherentes (s : Sistema) :
  alcanzable s -> alertasCoherentes s.
Proof.
  induction 1 as [|e s s' _ IH Hl].
  - exact inicial_alertasCoherentes.
  - exact (loop_alertasCoherentes e s s' IH Hl).
Qed.

(** C10. Mutual exclusion of the alerts.  In every state the program can
    reach the alarm and the low-PMV indicator are not both active; and at the
    end of a CONFORT iteration started from such a state, [alarmActive]
    implies that the pmv of the iteration exceeded 0.7 and [pmvBajoActive]
    that it was below -0.7. *)
Theorem alertas_excluyentes (s : Sistema) (e : Entrada) :
  alcanzable s ->
  ~ (alarmActive s = true /\ pmvBajoActive s = true)
  /\ (let s' := modoConfort e s in
      pmv s' = pmvDeEntrada e
      /\ (alarmActive s' = true -> F32.gt (pmvDeEntrada e) PMV_ALARM_THRESHOLD = true)
      /\ (pmvBajoActive s' = true -> F32.lt (pmvDeEntrada e) PMV_BAJO_THRESHOLD = true)
      /\ ~ (alarmActive s' = true /\ pmvBajoActive s' = true)).
Proof.
  intros Hs. apply alcanzable_alertasCoherentes in Hs. destruct Hs as (H1 & H2).
  split; [exact H2|].
  destruct (modoConfort_alertas e s H1) as (P & A & B & _).
  rewrite P in A, B. repeat split; auto.
  intros (Ha & Hb). exact (umbrales_excluyentes _ (A Ha) (B Hb)).
Qed.

Lemma alertas_excluyentes_testigo :
  ~ (alarmActive inicial = true /\ pmvBajoActive inicial = true).
Proof.
  exact (proj1 (alertas_excluyentes inicial sinEntrada alc_inicial)).
Defined.

(** ** Servo writes of the program *)

Lemma setActuador_servo (p : float) (s : Sistema) :
  let s' := setActuador p s in
  servoEscrituras s' = servoEscrituras s
  \/ exists a, servoEscrituras s' = a :: servoEscrituras s
       /\ servoAnguloActual s <> a
       /\ SERVO_DELAY <= wrap32 (millis s - ultimoCambioServo s).
Proof.
  unfold setActuador.
  set (s1 := if negb _ then _ else s).
  assert (H1 : servoEscrituras s1 = servoEscrituras s
               /\ servoAnguloActual s1 = servoAnguloActual s
               /\ millis s1 = millis s /\ ultimoCambioServo s1 = ultimoCambioServo s).
  { unfold s1. destruct (negb _); repeat split. }
  clearbody s1. destruct H1 as (A & B & C & D).
  rewrite <- A, <- B, <- C, <- D.
  destruct (estadoPMVActual s1);
    match goal with
    | |- context [actualizarServo ?a ?t] =>
        pose proof (actualizarServo_casos a t) as G; cbv zeta in G;
        set (u := actualizarServo a t) in *; clearbody u
    end;
    change (servoAnguloActual (digitalWrite_RELAY _ s1)) with (servoAnguloActual s1) in G;
    change (millis (digitalWrite_RELAY _ s1)) with (millis s1) in G;
    change (ultimoCambioServo (digitalWrite_RELAY _ s1)) with (ultimoCambioServo s1) in G;
    change (servoEscrituras (digitalWrite_RELAY _ s1)) with (servoEscrituras s1) in G;
    romper;
    (destruct G as [(G1 & G2 & _ & _ & G5) | (_ & _ & _ & G5)];
     [right; eexists; split; [exact G5 | split; assumption] | left; exact G5]).
Qed.

Lemma checkAlarm_servo (p : float) (s : Sistema) :
  servoEscrituras (checkAlarm p s) = servoEscrituras s
  /\ estado (checkAlarm p s) = estado s.
Proof. unfold checkAlarm, triggerAlarm, stopAlarm. romper; split; reflexivity. Qed.

Lemma checkPmvBajo_servo (p : float) (s : Sistema) :
  servoEscrituras (checkPmvBajo p s) = servoEscrituras s
  /\ estado (checkPmvBajo p s) = estado s.
Proof. unfold checkPmvBajo, triggerPmvBajo, stopPmvBajo. romper; split; reflexivity. Qed.

Lemma alarmHandler_servo (s : Sistema) :
  servoEscrituras (alarmHandler s) = servoEscrituras s
  /\ estado (alarmHandler s) = estado s.
Proof. unfold alarmHandler. romper; split; reflexivity. Qed.

Lemma pmvBajoHandler_servo (s : Sistema) :
  servoEscrituras (pmvBajoHandler s) = servoEscrituras s
  /\ estado (pmvBajoHandler s) = estado s.
Proof. unfold pmvBajoHandler. romper; split; reflexivity. Qed.

(** The three branches of the CONFORT case write to the servo only when the
    session is left with ['#'], and then write 90. *)
Lemma confortConAlarma_servo (k : ascii) (s : Sistema) :
  let s' := confortConAlarma k s in
  if Ascii.eqb k "#"
  then servoEscrituras s' = 90 :: servoEscrituras s /\ estado s' = MENU
  else servoEscrituras s' = servoEscrituras s /\ estado s' = estado s.
Proof.
  unfold confortConAlarma.
  destruct (alarmHandler_servo s) as (A1 & A2).
  set (sa := alarmHandler s) in *. clearbody sa. rewrite <- A1, <- A2.
  unfold stopAlarm, stopPmvBajo. destruct sa. campos.
  destruct (Ascii.eqb k "#"); destruct (Ascii.eqb k "*"); campos;
    romper; campos; split; reflexivity.
Qed.

Lemma confortConPmvBajo_servo (k : ascii) (s : Sistema) :
  let s' := confortConPmvBajo k s in
  if Ascii.eqb k "#"
  then servoEscrituras s' = 90 :: servoEscrituras s /\ estado s' = MENU
  else servoEscrituras s' = servoEscrituras s /\ estado s' = estado s.
Proof.
  unfold confortConPmvBajo.
  destruct (pmvBajoHandler_servo s) as (A1 & A2).
  set (sa := pmvBajoHandler s) in *. clearbody sa. rewrite <- A1, <- A2.
  destruct (Ascii.eqb k "#"); split; reflexivity.
Qed.

Lemma confortSinAlerta_servo (k : ascii) (s : Sistema) :
  let s' := confortSinAlerta k s in
  if Ascii.eqb k "#"
  then servoEscrituras s' = 90 :: servoEscrituras s /\ estado s' = MENU
  else servoEscrituras s' = servoEscrituras s /\ estado s' = estado s.
Proof. unfold confortSinAlerta. destruct (Ascii.eqb k "#"); split; reflexivity. Qed.

(** One CONFORT iteration: at most one write by [actualizarServo], under its
    cooldown test, then the reset to 90 if the session is left. *)
Lemma modoConfort_servo (e : Entrada) (s : Sistema) :
  let s' := modoConfort e s in
  exists mov,
    (mov = []
     \/ exists a, mov = [a] /\ servoAnguloActual s <> a
          /\ SERVO_DELAY <= wrap32 (millis s - ultimoCambioServo s))
    /\ (if Ascii.eqb (tecla e) "#"
        then servoEscrituras s' = 90 :: mov ++ servoEscrituras s /\ estado s' = MENU
        else servoEscrituras s' = mov ++ servoEscrituras s /\ estado s' = estado s).
Proof.
  unfold modoConfort.
  set (p := pmvDeEntrada e). change (pmv (set_pmv p s)) with p.
  pose proof (setActuador_servo p (set_pmv p s)) as A. cbv zeta in A.
  destruct (setActuador_marco p (set_pmv p s)) as (_ & _ & C & _ & M & _).
  change (servoEscrituras (set_pmv p s)) with (servoEscrituras s) in A.
  change (servoAnguloActual (set_pmv p s)) with (servoAnguloActual s) in A.
  change (millis (set_pmv p s)) with (millis s) in A.
  change (ultimoCambioServo (set_pmv p s)) with (ultimoCambioServo s) in A.
  change (estado (set_pmv p s)) with (estado s) in M.
  change (pmv (set_pmv p s)) with p in C.
  set (s2 := setActuador p (set_pmv p s)) in *. clearbody s2. rewrite C.
  destruct (checkAlarm_casos p s2) as (_ & B2 & _).
  destruct (checkAlarm_servo p s2) as (B3 & B4).
  set (s3 := checkAlarm p s2) in *. clearbody s3. rewrite B2, C.
  destruct (checkPmvBajo_casos p s3) as (_ & _ & _ & _ & _ & _).
  destruct (checkPmvBajo_servo p s3) as (D3 & D4).
  set (s4 := checkPmvBajo p s3) in *. clearbody s4.
  assert (W : servoEscrituras s4 = servoEscrituras s2) by congruence.
  assert (Q : estado s4 = estado s) by congruence.
  pose proof (confortConAlarma_servo (tecla e) s4) as R1.
  pose proof (confortConPmvBajo_servo (tecla e) s4) as R2.
  pose proof (confortSinAlerta_servo (tecla e) s4) as R3.
  cbv zeta in R1, R2, R3.
  assert (G : forall s', (if Ascii.eqb (tecla e) "#"
                  then servoEscrituras s' = 90 :: servoEscrituras s4 /\ estado s' = MENU
                  else servoEscrituras s' = servoEscrituras s4 /\ estado s' = estado s4) ->
              forall mov, servoEscrituras s2 = mov ++ servoEscrituras s ->
              if Ascii.eqb (tecla e) "#"
              then servoEscrituras s' = 90 :: mov ++ servoEscrituras s /\ estado s' = MENU
              else servoEscrituras s' = mov ++ servoEscrituras s /\ estado s' = estado s).
  { intros s' H mov Hm. destruct (Ascii.eqb (tecla e) "#"); destruct H as (H1 & H2);
      split; congruence. }
  destruct A as [A | (a & A1 & A2 & A3)].
  - exists []. split; [left; reflexivity|].
    destruct (alarmActive s4); [|destruct (pmvBajoActive s4)]; apply G; auto.
  - exists [a]. split; [right; exists a; repeat split; assumption|].
    destruct (alarmActive s4); [|destruct (pmvBajoActive s4)]; apply G; auto.
Qed.

Lemma verificarDesbloqueo_servo (s : Sistema) :
  let s' := verificarDesbloqueo s in
  servoEscrituras s' = servoEscrituras s
  /\ servoAnguloActual s' = servoAnguloActual s
  /\ ultimoCambioServo s' = ultimoCambioServo s
  /\ (estado s' = CONFORT -> reloj s' = reloj s).
Proof.
  unfold verificarDesbloqueo. romper; repeat split; intros H; discriminate H.
Qed.

Lemma esperarTag_servo (l : list string) :
  forall s t s', esperarTag l s = Some (t, s') ->
  servoEscrituras s' = servoEscrituras s /\ estado s' = estado s.
Proof.
  induction l as [|x l IH]; intros s t s' H; simpl in H; [discriminate|].
  destruct (String.eqb x EmptyString).
  - destruct (IH _ _ _ H) as (A & B). rewrite A, B. split; reflexivity.
  - injection H as _ H. subst s'. split; reflexivity.
Qed.

Lemma registrarPorTag_servo (e : Entrada) (s s' : Sistema) :
  registrarPorTag e s = Some s' ->
  servoEscrituras s' = servoEscrituras s
  \/ (servoEscrituras s' = 90 :: servoEscrituras s /\ estado s' = CONFORT).
Proof.
  unfold registrarPorTag. intros H.
  destruct (2 <=? totalUsuarios s).
  { injection H as H. subst s'. left. reflexivity. }
  destruct (esperarTag (lecturasTag e) s) as [[t s1]|] eqn:E1; [|discriminate].
  apply esperarTag_servo in E1. destruct E1 as (E1 & _).
  destruct (leerTexto _ _) as [nom|]; [|discriminate].
  destruct (leerClave _ _) as [cl|]; [|discriminate].
  destruct (esperarTag (lecturasConfirm e) _) as [[tc s2]|] eqn:E3; [|discriminate].
  apply esperarTag_servo in E3. destruct E3 as (E3 & _).
  destruct (String.eqb tc t); injection H as H; subst s'.
  - right. split; [|reflexivity].
    transitivity (90 :: servoEscrituras s2); [reflexivity|].
    rewrite E3. f_equal. transitivity (servoEscrituras s1); [reflexivity | exact E1].
  - left. transitivity (servoEscrituras s2); [reflexivity|].
    rewrite E3. transitivity (servoEscrituras s1); [reflexivity | exact E1].
Qed.

Lemma loginConTag_servo (i : nat) (e : Entrada) (s s' : Sistema) :
  loginConTag i e s = Some s' ->
  (servoEscrituras s' = servoEscrituras s /\ estado s' = MENU)
  \/ (servoEscrituras s' = 90 :: servoEscrituras s /\ estado s' = CONFORT).
Proof.
  unfold loginConTag. intros H.
  destruct (leerClave _ _) as [cl|]; [|discriminate].
  destruct (String.eqb cl _); injection H as H; subst s'.
  - right. split; reflexivity.
  - left. destruct (3 <=? _); split; reflexivity.
Qed.

(** Servo writes of one iteration of [loop()]: at most one move by
    [actualizarServo], made in CONFORT under the cooldown test, and at most
    one reset to 90, made when the session changes mode. *)
Lemma loop_servo (e : Entrada) (s s' : Sistema) :
  loop e s = Some s' ->
  let s1 := verificarDesbloqueo (delay (transcurrido e) s) in
  exists mov reinicio,
    servoEscrituras s' = reinicio ++ mov ++ servoEscrituras s
    /\ (mov = []
        \/ exists a, mov = [a] /\ estado s1 = CONFORT /\ servoAnguloActual s <> a
             /\ SERVO_DELAY <= wrap32 (wrap32 (millis s + transcurrido e) - ultimoCambioServo s))
    /\ (reinicio = [] \/ reinicio = [90] /\ estado s' <> estado s1).
Proof.
  intros H s1. unfold loop in H. fold s1 in H.
  destruct (verificarDesbloqueo_servo (delay (transcurrido e) s)) as (W & A & U & R).
  fold s1 in W, A, U, R.
  change (servoEscrituras (delay (transcurrido e) s)) with (servoEscrituras s) in W.
  change (servoAnguloActual (delay (transcurrido e) s)) with (servoAnguloActual s) in A.
  change (ultimoCambioServo (delay (transcurrido e) s)) with (ultimoCambioServo s) in U.
  change (reloj (delay (transcurrido e) s)) with (wrap32 (millis s + transcurrido e)) in R.
  clearbody s1.
  destruct (estado s1) eqn:Es.
  - destruct (Ascii.eqb (tecla e) "1").
    { injection H as H. subst s'. exists [], []. repeat split; auto. }
    destruct (Ascii.eqb (tecla e) "2").
    + apply registrarPorTag_servo in H. destruct H as [H | (H1 & H2)].
      * exists [], []. rewrite H, W. repeat split; auto.
      * exists [], [90]. rewrite H1, W. repeat split; auto.
        right. split; [reflexivity | congruence].
    + injection H as H. subst s'. exists [], []. repeat split; auto.
  - destruct (negb _).
    + destruct (buscarTag _ _ _ _) as [i|].
      * apply loginConTag_servo in H. destruct H as [(H1 & H2) | (H1 & H2)].
        -- exists [], []. rewrite H1, W. repeat split; auto.
        -- exists [], [90]. rewrite H1, W. repeat split; auto.
           right. split; [reflexivity | congruence].
      * injection H as H. subst s'. exists [], []. repeat split; auto.
    + injection H as H. subst s'. exists [], []. repeat split; auto.
  - injection H as H. subst s'.
    destruct (modoConfort_servo e s1) as (mov & Hm & Hk).
    rewrite W, A, U in *. unfold millis in Hm at 1. rewrite (R eq_refl) in Hm.
    destruct (Ascii.eqb (tecla e) "#"); destruct Hk as (K1 & K2).
    + exists mov, [90]. split; [exact K1|]. split.
      * destruct Hm as [Hm | (a & M1 & M2 & M3)]; [left; exact Hm|].
        right. exists a. repeat split; assumption.
      * right. split; [reflexivity | congruence].
    + exists mov, []. split; [exact K1|]. split; [|left; reflexivity].
      destruct Hm as [Hm | (a & M1 & M2 & M3)]; [left; exact Hm|].
      right. exists a. repeat split; assumption.
Qed.

(** C6. Servo anti-chatter, as the program has it.  A call of
    [actualizarServo] accepts the requested angle as the desired one at once;
    it changes the actual angle (and writes to the servo) only when the actual
    angle differs from the request and at least SERVO_DELAY = 3000 ms have
    passed since the tick recorded at the last movement.  Two requests less
    than 3000 ms apart cause at most one write; and when the first request
    moved the servo, a different second request is held back while less than
    3000 ms have passed and is applied by the call made once 3000 ms have
    passed.  In one iteration of [loop()] the servo is written at most once
    through [actualizarServo], in CONFORT and under that test; the only other
    write is the reset to 90 degrees that the program makes, without any
    cooldown test, when the session changes mode (login, registration and
    exit with '#'). *)
Theorem servo_anti_rebote (s : Sistema) (a1 a2 d : Z) :
  let s1 := actualizarServo a1 s in
  let s2 := actualizarServo a2 (delay d s1) in
  servoAnguloDeseado s1 = a1
  /\ (servoAnguloActual s1 <> servoAnguloActual s \/ servoEscrituras s1 <> servoEscrituras s ->
      servoAnguloActual s <> a1
      /\ SERVO_DELAY <= wrap32 (millis s - ultimoCambioServo s)
      /\ servoAnguloActual s1 = a1
      /\ servoEscrituras s1 = a1 :: servoEscrituras s)
  /\ (0 <= d < SERVO_DELAY ->
      servoAnguloDeseado s2 = a2
      /\ (List.length (servoEscrituras s2) <= List.length (servoEscrituras s) + 1)%nat)
  /\ (servoEscrituras s1 <> servoEscrituras s -> a2 <> a1 -> 0 <= d < 2 ^ 32 ->
      (d < SERVO_DELAY ->
       servoAnguloDeseado s2 = a2 /\ servoAnguloActual s2 = a1
       /\ servoEscrituras s2 = servoEscrituras s1)
      /\ (SERVO_DELAY <= d ->
          servoAnguloActual s2 = a2 /\ servoEscrituras s2 = a2 :: servoEscrituras s1))
  /\ (forall (e : Entrada) (s' : Sistema), loop e s = Some s' ->
      let t := verificarDesbloqueo (delay (transcurrido e) s) in
      exists mov reinicio,
        servoEscrituras s' = reinicio ++ mov ++ servoEscrituras s
        /\ (mov = []
            \/ exists a, mov = [a] /\ estado t = CONFORT /\ servoAnguloActual s <> a
                 /\ SERVO_DELAY
                    <= wrap32 (wrap32 (millis s + transcurrido e) - ultimoCambioServo s))
        /\ (reinicio = [] \/ reinicio = [90] /\ estado s' <> estado t)).
Proof.
  intros s1 s2.
  pose proof (actualizarServo_casos a1 s) as C1. fold s1 in C1.
  pose proof (actualizarServo_casos a2 (delay d s1)) as C2. fold s2 in C2.
  assert (R1 : reloj s1 = reloj s) by apply actualizarServo_reloj.
  change (millis (delay d s1)) with (wrap32 (reloj s1 + d)) in C2.
  change (ultimoCambioServo (delay d s1)) with (ultimoCambioServo s1) in C2.
  change (servoAnguloActual (delay d s1)) with (servoAnguloActual s1) in C2.
  change (servoEscrituras (delay d s1)) with (servoEscrituras s1) in C2.
  split; [apply actualizarServo_deseado|].
  split.
  { intros Hmov.
    destruct C1 as [(A & B & C & _ & E) | (_ & C & _ & E)]; [repeat split; assumption|].
    destruct Hmov as [Hm | Hm]; contradiction. }
  split.
  { intros Hd. split; [apply actualizarServo_deseado|].
    destruct C1 as [(_ & _ & _ & U1 & W1) | (_ & _ & _ & W1)].
    - destruct C2 as [(_ & B2 & _) | (_ & _ & _ & W2)].
      + exfalso. rewrite U1 in B2. unfold millis in B2. rewrite R1 in B2.
        rewrite wrap32_transcurrido in B2 by (unfold SERVO_DELAY in Hd; lia). lia.
      + rewrite W2, W1. simpl. lia.
    - destruct C2 as [(_ & _ & _ & _ & W2) | (_ & _ & _ & W2)];
        rewrite W2, W1; simpl; lia. }
  split; [|intros e s' H; exact (loop_servo e s s' H)].
  intros Hmov Hne Hd.
  destruct C1 as [(_ & _ & A1 & U1 & W1) | (_ & _ & _ & W1)]; [|contradiction].
  assert (El : wrap32 (wrap32 (reloj s1 + d) - ultimoCambioServo s1) = d).
  { rewrite U1. unfold millis. rewrite R1. apply wrap32_transcurrido. exact Hd. }
  rewrite El in C2. split.
  - intros Hlt. split; [apply actualizarServo_deseado|].
    destruct C2 as [(_ & B2 & _) | (_ & A2 & _ & W2)]; [lia|].
    rewrite A2, W2. auto.
  - intros Hge.
    destruct C2 as [(_ & _ & A2 & _ & W2) | ([Heq | Hlt] & _)]; [auto | congruence | lia].
Qed.

Lemma servo_anti_rebote_testigo :
  let s := set_reloj 5000 inicial in
  let s2 := actualizarServo 45 (delay 1000 (actualizarServo 0 s)) in
  servoAnguloDeseado s2 = 45 /\ servoAnguloActual s2 = 0
  /\ servoEscrituras s2 = servoEscrituras (actualizarServo 0 s).
Proof.
  intros s s2.
  refine (proj1 (proj1 (proj2 (proj2 (proj2 (servo_anti_rebote s 0 45 1000)))) _ _ _) _).
  - vm_compute. discriminate.
  - lia.
  - lia.
  - unfold SERVO_DELAY. lia.
Defined.

(** The reset bypasses the cooldown.  After login and one mild sample the
    servo rests at 90 with desired angle 90.  In the next iteration a hot
    sample arrives with the key '#': [actualizarServo] moves the servo to 0,
    the alarm starts, and the exit writes 90, 800 ms after the move to 0.
    The servo has been written twice within one cooldown period, the second
    time while the actual angle equalled the desired one. *)
Lemma servo_reinicio_sin_espera :
  exists s s',
    ejecutar [conTecla 0 "1"; loginLaura; muestraTemplada 0 NO_KEY] inicial = Some s
    /\ estado s = CONFORT
    /\ servoAnguloActual s = 90 /\ servoAnguloDeseado s = 90
    /\ loop (muestraCaliente 0 "#") s = Some s'
    /\ servoEscrituras s' = 90 :: 0 :: servoEscrituras s
    /\ wrap32 (reloj s' - reloj s) = 800 /\ 800 < SERVO_DELAY
    /\ servoAnguloDeseado s' = 0 /\ servoAnguloActual s' = 90.
Proof.
  eexists. eexists.
  split; [vm_compute; reflexivity|].
  split; [reflexivity|]. split; [reflexivity|]. split; [reflexivity|].
  split; [vm_compute; reflexivity|].
  repeat split.
Qed.

(** ** Silence window *)




(** C4. Silence window when the counter wraps.  The user logs in 40 s before
    [millis()] wraps, the hot sample raises the alarm and '*' dismisses it at
    tick T = 4294933546: the alarm stops and [alarmSilenceUntil] is set to
    T + 60000 modulo 2^32 = 26250.  The iteration that follows 1 ms later
    raises the alarm again, 401 ms after T. *)
Theorem silencio_perdido_por_desborde :
  let T := 4294933546 in
  exists s3 s4 s5,
    ejecutar [conTecla (2 ^ 32 - 40000) "1"; loginLaura; muestraCaliente 0 NO_KEY] inicial
    = Some s3
    /\ estado s3 = CONFORT /\ alarmActive s3 = true
    /\ loop (muestraCaliente 0 "*") s3 = Some s4
    /\ alarmActive s4 = false /\ alarmSilenceUntil s4 = wrap32 (T + 60000)
    /\ reloj s4 = T + 200
    /\ loop (muestraCaliente 1 NO_KEY) s4 = Some s5
    /\ F32.gt (pmv s5) PMV_ALARM_THRESHOLD = true
    /\ alarmActive s5 = true /\ reloj s5 = T + 401.
Proof.
  intros T. eexists. eexists. eexists.
  split; [vm_compute; reflexivity|].
  split; [reflexivity|]. split; [reflexivity|].
  split; [vm_compute; reflexivity|].
  split; [reflexivity|]. split; [reflexivity|]. split; [reflexivity|].
  split; [vm_compute; reflexivity|].
  split; [vm_compute; reflexivity|].
  split; reflexivity.
Qed.

(** C9. Timing comparisons.  The servo cooldown, the lockout and the two
    blink intervals subtract the recorded tick from [millis()]
    ([wrap32_transcurrido] shows that this yields the elapsed time across a
    wrap), but the silence window of the alarm compares [millis()] with the
    absolute deadline [alarmSilenceUntil].  The user logs in shortly before
    the counter wraps, a hot sample raises the alarm and '*' dismisses it at
    tick T = 2^32 - 60100, so the deadline is T + 60000 = 2^32 - 100.  The
    hot sample persists; fifteen iterations of 4000 ms later the counter has
    wrapped to 100, which is 60200 ms after T, and [millis() <
    alarmSilenceUntil] still holds: the next iteration leaves the alarm
    silenced although its index exceeds the threshold. *)
Theorem silencio_compara_instantes_absolutos :
  let T := 2 ^ 32 - 60100 in
  exists s4 s s',
    ejecutar [conTecla (2 ^ 32 - 66350) "1"; loginLaura; muestraCaliente 0 NO_KEY;
              muestraCaliente 0 "*"] inicial = Some s4
    /\ alarmActive s4 = false /\ alarmSilenced s4 = true
    /\ alarmSilenceUntil s4 = T + 60000 /\ reloj s4 = T + 200
    /\ ejecutar (repeat (muestraCaliente 0 NO_KEY) 15) s4 = Some s
    /\ millis s = 100 /\ wrap32 (millis s - T) = 60200
    /\ (millis s <? alarmSilenceUntil s) = true
    /\ loop (muestraCaliente 0 NO_KEY) s = Some s'
    /\ F32.gt (pmv s') PMV_ALARM_THRESHOLD = true
    /\ alarmSilenced s' = true /\ alarmActive s' = false.
Proof.
  intros T. eexists. eexists. eexists.
  split; [vm_compute; reflexivity|].
  split; [reflexivity|]. split; [reflexivity|].
  split; [reflexivity|]. split; [reflexivity|].
  split; [vm_compute; reflexivity|].
  split; [reflexivity|]. split; [reflexivity|]. split; [reflexivity|].
  split; [vm_compute; reflexivity|].
  split; [vm_compute; reflexivity|].
  split; reflexivity.
Qed.

(** ** Rounding: digits, shifts and the result of [binary_round_aux] *)

(** Number of binary digits of a mantissa. *)

Lemma digits2_pos_cotas (p : positive) :
  2 ^ (Zpos (digits2_pos p) - 1) <= Zpos p < 2 ^ Zpos (digits2_pos p).
Proof.
  induction p as [p IH|p IH|]; simpl digits2_pos.
  - rewrite Pos2Z.inj_succ.
    replace (Z.succ (Zpos (digits2_pos p)) - 1) with (Z.succ (Zpos (digits2_pos p) - 1)) by lia.
    rewrite !Z.pow_succ_r by lia. lia.
  - rewrite Pos2Z.inj_succ.
    replace (Z.succ (Zpos (digits2_pos p)) - 1) with (Z.succ (Zpos (digits2_pos p) - 1)) by lia.
    rewrite !Z.pow_succ_r by lia. lia.
  - simpl. lia.
Qed.

Lemma digits2_pos_unico (p : positive) (d : Z) :
  2 ^ (d - 1) <= Zpos p < 2 ^ d -> Zpos (digits2_pos p) = d.
Proof.
  intros (Hlo & Hhi). pose proof (digits2_pos_cotas p) as (Clo & Chi).
  set (D := Zpos (digits2_pos p)) in *.
  assert (HD : 0 < D) by (unfold D; lia).
  assert (Hd : 0 < d).
  { destruct (Z_lt_le_dec 0 d) as [|Hn]; [assumption|].
    exfalso. destruct (Z.eq_dec d 0) as [->|]; [simpl in Hhi; lia|].
    rewrite Z.pow_neg_r in Hhi by lia. lia. }
  destruct (Z_lt_le_dec D d) as [H1|H1].
  - exfalso. assert (2 ^ D <= 2 ^ (d - 1)) by (apply Z.pow_le_mono_r; lia). lia.
  - destruct (Z_lt_le_dec d D) as [H2|H2]; [|lia].
    exfalso. assert (2 ^ d <= 2 ^ (D - 1)) by (apply Z.pow_le_mono_r; lia). lia.
Qed.

Lemma digits2_pos_mono (p q : positive) :
  (p <= q)%positive -> Zpos (digits2_pos p) <= Zpos (digits2_pos q).
Proof.
  intros H. pose proof (digits2_pos_cotas p) as (Plo & _).
  pose proof (digits2_pos_cotas q) as (_ & Qhi).
  destruct (Z_lt_le_dec (Zpos (digits2_pos q)) (Zpos (digits2_pos p))) as [Hc|]; [|assumption].
  exfalso.
  assert (2 ^ Zpos (digits2_pos q) <= 2 ^ (Zpos (digits2_pos p) - 1))
    by (apply Z.pow_le_mono_r; lia).
  lia.
Qed.

(** Iterated one-bit right shift with round and sticky bits. *)

Lemma iter_pos_nat {A : Type} (f : A -> A) (p : positive) :
  forall x, iter_pos f p x = Nat.iter (Pos.to_nat p) f x.
Proof.
  induction p as [p IH|p IH|]; intros x; simpl iter_pos.
  - rewrite !IH, Pos2Nat.inj_xI.
    replace (S (2 * Pos.to_nat p))%nat with (Pos.to_nat p + (Pos.to_nat p + 1))%nat by lia.
    rewrite !Nat.iter_add. reflexivity.
  - rewrite !IH, Pos2Nat.inj_xO.
    replace (2 * Pos.to_nat p)%nat with (Pos.to_nat p + Pos.to_nat p)%nat by lia.
    rewrite Nat.iter_add. reflexivity.
  - reflexivity.
Qed.

Lemma shr_1_inv (m k : Z) (mrs : shr_record) :
  0 <= k -> 0 <= shr_m mrs -> shr_inv m k mrs ->
  0 <= shr_m (shr_1 mrs) /\ shr_inv m (k + 1) (shr_1 mrs).
Proof.
  intros Hk Hq (R & HR & Hm & Hr & Hs).
  destruct mrs as [q r s]. unfold shr_inv. cbn [shr_m shr_r shr_s] in *.
  assert (P : 0 < 2 ^ k) by (apply Z.pow_pos_nonneg; lia).
  assert (P2 : 2 ^ (k + 1) = 2 * 2 ^ k) by (rewrite Z.pow_add_r by lia; lia).
  rewrite P2.
  assert (Hrs : orb r s = true <-> R <> 0).
  { rewrite orb_true_iff. split.
    - intros [H|H]; [apply Hr in H | apply Hs in H]; lia.
    - intros H. destruct (Z_lt_le_dec (2 * R) (2 ^ k)).
      + right. apply Hs. lia.
      + left. apply Hr. lia. }
  destruct q as [|[q|q|]|q]; cbn [shr_1 shr_m shr_r shr_s]; try lia; (split; [lia|]);
    [exists R | exists (R + 2 ^ k) | exists R | exists (R + 2 ^ k)];
    cbn [shr_m shr_r shr_s]; repeat split; intros;
    try discriminate; try lia;
    try (match goal with H : orb _ _ = true |- _ => apply Hrs in H end; lia);
    try (apply Hrs; lia).
Qed.

Lemma shr_iter_inv (m : Z) (k : nat) :
  0 <= m ->
  let mrs := Nat.iter k shr_1 (Build_shr_record m false false) in
  0 <= shr_m mrs /\ shr_inv m (Z.of_nat k) mrs.
Proof.
  intros Hm. induction k as [|k IH].
  - cbn [Nat.iter nat_rect shr_m Z.of_nat]. split; [assumption|]. exists 0. cbn [shr_m shr_r shr_s]. repeat split; try lia; discriminate.
  - simpl Nat.iter. destruct IH as (H1 & H2).
    rewrite Nat2Z.inj_succ. unfold Z.succ.
    apply shr_1_inv; auto. lia.
Qed.

Lemma shr_rne (m : Z) (p : positive) :
  0 <= m ->
  let mrs := iter_pos shr_1 p (Build_shr_record m false false) in
  round_nearest_even (shr_m mrs) (loc_of_shr_record mrs) = rne m (Zpos p).
Proof.
  intros Hm mrs. unfold mrs. rewrite iter_pos_nat.
  destruct (shr_iter_inv m (Pos.to_nat p) Hm) as (Hq & R & HR & E & Hr & Hs).
  rewrite positive_nat_Z in *.
  set (t := Nat.iter _ _ _) in *. clearbody t. clear mrs.
  destruct t as [q r s]. cbn [shr_m shr_r shr_s loc_of_shr_record] in *.
  assert (P : 0 < 2 ^ Zpos p) by (apply Z.pow_pos_nonneg; lia).
  assert (Eq : m / 2 ^ Zpos p = q).
  { symmetry. apply (Z.div_unique m (2 ^ Zpos p) q R); [left; lia | lia]. }
  assert (Er : m mod 2 ^ Zpos p = R).
  { symmetry. apply (Z.mod_unique m (2 ^ Zpos p) q R); [left; lia | lia]. }
  unfold rne. rewrite Eq, Er.
  destruct (Z.compare_spec (2 * R) (2 ^ Zpos p)) as [C|C|C];
    destruct r, s; simpl; try reflexivity; exfalso.
  all: try (assert (true = true) as T by reflexivity; apply Hs in T; lia).
  all: try (assert (true = true) as T by reflexivity; apply Hr in T; lia).
  all: try (assert (X : false = true) by (apply Hr; lia); discriminate).
  all: try (assert (X : false = true) by (apply Hs; lia); discriminate).
Qed.

(** Properties of [rne]. *)

Lemma rne_cero (V : Z) : rne V 0 = V.
Proof.
  unfold rne. change (2 ^ 0) with 1. rewrite Z.div_1_r, Z.mod_1_r. reflexivity.
Qed.

Lemma rne_cotas (V n : Z) : 0 <= n -> V / 2 ^ n <= rne V n <= V / 2 ^ n + 1.
Proof.
  intros Hn. unfold rne.
  destruct (2 * (V mod 2 ^ n) ?= 2 ^ n); [destruct (Z.even _)| |]; lia.
Qed.

Lemma rne_escala (V n j : Z) : 0 <= n -> 0 <= j -> rne (V * 2 ^ j) (n + j) = rne V n.
Proof.
  intros Hn Hj. unfold rne.
  assert (Pn : 0 < 2 ^ n) by (apply Z.pow_pos_nonneg; lia).
  assert (Pj : 0 < 2 ^ j) by (apply Z.pow_pos_nonneg; lia).
  rewrite Z.pow_add_r by lia.
  rewrite Z.div_mul_cancel_r by lia.
  rewrite Z.mul_mod_distr_r by lia.
  replace (2 * (V mod 2 ^ n * 2 ^ j)) with (2 * (V mod 2 ^ n) * 2 ^ j) by ring.
  rewrite <- Zmult_compare_compat_r by lia. reflexivity.
Qed.

Lemma rne_mono (V1 V2 n : Z) : 0 <= n -> V1 <= V2 -> rne V1 n <= rne V2 n.
Proof.
  intros Hn HV.
  assert (Pn : 0 < 2 ^ n) by (apply Z.pow_pos_nonneg; lia).
  pose proof (Z.div_le_mono V1 V2 (2 ^ n) Pn HV) as Hq.
  destruct (Z.eq_dec (V1 / 2 ^ n) (V2 / 2 ^ n)) as [E|N].
  - assert (Hr : V1 mod 2 ^ n <= V2 mod 2 ^ n).
    { rewrite !Z.mod_eq by lia. rewrite E. lia. }
    unfold rne. rewrite E.
    destruct (Z.compare_spec (2 * (V1 mod 2 ^ n)) (2 ^ n));
      destruct (Z.compare_spec (2 * (V2 mod 2 ^ n)) (2 ^ n));
      destruct (Z.even (V2 / 2 ^ n)); lia.
  - pose proof (rne_cotas V1 n Hn). pose proof (rne_cotas V2 n Hn). lia.
Qed.

Lemma fexp32_eq (x : Z) : fexp32 x = Z.max (x - 24) (-149).
Proof. reflexivity. Qed.

Lemma shr_fexp_exacto (m e : Z) :
  0 <= m ->
  let f := fexp32 (Zdigits2 m + e) in
  e <= f ->
  exists mrs, shr_fexp 24 128 m e loc_Exact = (mrs, f)
    /\ round_nearest_even (shr_m mrs) (loc_of_shr_record mrs) = rne m (f - e).
Proof.
  intros Hm f Hf. unfold shr_fexp, shr. fold (fexp32 (Zdigits2 m + e)). fold f.
  cbn [shr_record_of_loc].
  destruct (f - e) as [|p|p] eqn:E; try lia.
  - eexists. split; [f_equal; lia|]. cbn [shr_m loc_of_shr_record round_nearest_even].
    symmetry. apply rne_cero.
  - eexists. split; [f_equal; lia|]. apply shr_rne. exact Hm.
Qed.

Lemma Zdigits2_cota (Q : Z) (d : Z) : 0 <= d -> 0 <= Q < 2 ^ d -> Zdigits2 Q <= d.
Proof.
  intros Hd (H0 & H1). destruct Q as [|q|q]; simpl; try lia.
  pose proof (digits2_pos_cotas q) as (Lo & _).
  destruct (Z_lt_le_dec d (Zpos (digits2_pos q))) as [Hc|]; [|assumption].
  exfalso. assert (2 ^ d <= 2 ^ (Zpos (digits2_pos q) - 1)) by (apply Z.pow_le_mono_r; lia).
  lia.
Qed.

Lemma segunda_etapa (s : bool) (Q f : Z) :
  0 <= Q <= 2 ^ 24 -> -149 <= f ->
  (let '(mrs, e) := shr_fexp 24 128 Q f loc_Exact in
   match shr_m mrs with
   | Z0 => S754_zero s
   | Zpos m => if e <=? 128 - 24 then S754_finite s m e else S754_infinity s
   | Zneg _ => S754_nan
   end) = resultado s Q f.
Proof.
  intros HQ Hf. unfold shr_fexp, shr, resultado. fold (fexp32 (Zdigits2 Q + f)).
  cbn [shr_record_of_loc]. change (128 - 24) with 104.
  destruct (Z.eq_dec Q (2 ^ 24)) as [->|Hne].
  - change (Zdigits2 (2 ^ 24)) with 25. rewrite fexp32_eq.
    replace (Z.max (25 + f - 24) (-149) - f) with 1 by lia.
    reflexivity.
  - assert (Hd : Zdigits2 Q <= 24) by (apply Zdigits2_cota; lia).
    rewrite fexp32_eq.
    destruct (Z.max (Zdigits2 Q + f - 24) (-149) - f) as [|p|p] eqn:E; try lia;
      cbn [shr_m]; destruct Q as [|q|q]; try lia; try reflexivity;
      (destruct (Zpos q =? 2 ^ 24) eqn:E2; [apply Z.eqb_eq in E2; lia | reflexivity]).
Qed.

Lemma resultado_props (s : bool) (Q f : Z) :
  0 <= Q <= 2 ^ 24 -> -149 <= f -> (-149 < f -> 2 ^ 23 <= Q) ->
  let r := resultado s Q f in
  valid_binary 24 128 r = true /\ no_nan r = true
  /\ ord r = con_signo s (Z.min ((f + 149) * 2 ^ 23 + Q) (255 * 2 ^ 23)).
Proof.
  intros HQ Hf Hn. unfold resultado.
  destruct Q as [|q|q]; try lia.
  - cbn [valid_binary no_nan ord]. repeat split.
    assert (f = -149) by (destruct (Z.eq_dec f (-149)); [assumption | specialize (Hn ltac:(lia)); lia]).
    subst f. destruct s; reflexivity.
  - destruct (Zpos q =? 2 ^ 24) eqn:E.
    + apply Z.eqb_eq in E.
      destruct (f + 1 <=? 104) eqn:E1; [apply Z.leb_le in E1 | apply Z.leb_gt in E1].
      * cbn [valid_binary no_nan ord]. repeat split.
        -- unfold bounded, canonical_mantissa. fold (fexp32 (Zpos (digits2_pos (Z.to_pos (2 ^ 23))) + (f + 1))).
           change (Zpos (digits2_pos (Z.to_pos (2 ^ 23)))) with 24.
           rewrite fexp32_eq. apply andb_true_iff. split; [apply Z.eqb_eq; lia | apply Z.leb_le; lia].
        -- change (Zpos (Z.to_pos (2 ^ 23))) with (2 ^ 23). rewrite E.
           unfold con_signo. destruct s; lia.
      * cbn [valid_binary no_nan ord]. repeat split. rewrite E.
        unfold con_signo. destruct s; lia.
    + apply Z.eqb_neq in E.
      destruct (f <=? 104) eqn:E1; [apply Z.leb_le in E1 | apply Z.leb_gt in E1].
      * cbn [valid_binary no_nan ord]. repeat split.
        -- unfold bounded, canonical_mantissa. fold (fexp32 (Zpos (digits2_pos q) + f)).
           rewrite fexp32_eq. apply andb_true_iff. split; [apply Z.eqb_eq | apply Z.leb_le; lia].
           pose proof (Zdigits2_cota (Zpos q) 24 ltac:(lia) ltac:(lia)) as Hd. simpl in Hd.
           destruct (Z.eq_dec f (-149)) as [->|Hf']; [lia|].
           specialize (Hn ltac:(lia)).
           assert (Zpos (digits2_pos q) = 24) by (apply digits2_pos_unico; simpl; lia).
           lia.
        -- unfold con_signo. destruct s; lia.
      * cbn [valid_binary no_nan ord]. repeat split.
        specialize (Hn ltac:(lia)). unfold con_signo. destruct s; lia.
Qed.

(** [binary_round_aux] on an exact mantissa that needs no left shift. *)

Lemma aux_exacto (s : bool) (m : positive) (e : Z) :
  let f := fexp32 (Zpos (digits2_pos m) + e) in
  e <= f ->
  binary_round_aux 24 128 s (Zpos m) e loc_Exact = resultado s (rne (Zpos m) (f - e)) f
  /\ 0 <= rne (Zpos m) (f - e) <= 2 ^ 24
  /\ (-149 < f -> 2 ^ 23 <= rne (Zpos m) (f - e)).
Proof.
  intros f Hf.
  pose proof (digits2_pos_cotas m) as (Dlo & Dhi).
  set (d := Zpos (digits2_pos m)) in *.
  assert (Hd : 0 < d) by (unfold d; lia).
  assert (Ef : f = Z.max (d + e - 24) (-149)) by reflexivity.
  set (n := f - e) in *.
  assert (Hn : 0 <= n) by (unfold n; lia).
  assert (Pn : 0 < 2 ^ n) by (apply Z.pow_pos_nonneg; lia).
  pose proof (rne_cotas (Zpos m) n Hn) as (Rlo & Rhi).
  assert (Hq0 : 0 <= Zpos m / 2 ^ n) by (apply Z.div_pos; lia).
  assert (Hq1 : Zpos m / 2 ^ n < 2 ^ 24).
  { apply Z.div_lt_upper_bound; [lia|].
    rewrite <- Z.pow_add_r by lia.
    assert (2 ^ d <= 2 ^ (n + 24)) by (apply Z.pow_le_mono_r; unfold n; lia). lia. }
  assert (Hq2 : -149 < f -> 2 ^ 23 <= Zpos m / 2 ^ n).
  { intros Hf'. apply Z.div_le_lower_bound; [lia|].
    rewrite <- Z.pow_add_r by lia.
    replace (n + 23) with (d - 1) by (unfold n; lia). exact Dlo. }
  split; [|split; [lia | intros H; specialize (Hq2 H); lia]].
  destruct (shr_fexp_exacto (Zpos m) e ltac:(lia) Hf) as (mrs & E1 & E2).
  unfold binary_round_aux. fold d in E1. fold f in E1. rewrite E1, E2. fold n.
  apply segunda_etapa; lia.
Qed.

Lemma Zdigits2_escala (m : positive) (j : Z) :
  0 <= j -> Zdigits2 (Zpos m * 2 ^ j) = Zpos (digits2_pos m) + j.
Proof.
  intros Hj. pose proof (digits2_pos_cotas m) as (Lo & Hi).
  assert (Pj : 0 < 2 ^ j) by (apply Z.pow_pos_nonneg; lia).
  assert (B : 2 ^ (Zpos (digits2_pos m) + j - 1) <= Zpos m * 2 ^ j
              < 2 ^ (Zpos (digits2_pos m) + j)).
  { replace (Zpos (digits2_pos m) + j - 1) with (Zpos (digits2_pos m) - 1 + j) by lia.
    rewrite !Z.pow_add_r by lia. nia. }
  destruct (Zpos m * 2 ^ j) as [|p|p] eqn:E; try lia.
  cbn [Zdigits2]. apply digits2_pos_unico. exact B.
Qed.

Lemma aux_patron (s : bool) (m : positive) (e : Z) :
  - escalaK <= e -> e <= fexp32 (Zpos (digits2_pos m) + e) ->
  let r := binary_round_aux 24 128 s (Zpos m) e loc_Exact in
  valid_binary 24 128 r = true /\ no_nan r = true
  /\ ord r = con_signo s (patron (Zpos m * 2 ^ (e + escalaK))).
Proof.
  intros HK Hf r.
  destruct (aux_exacto s m e Hf) as (E & B1 & B2). unfold r. rewrite E.
  set (f := fexp32 (Zpos (digits2_pos m) + e)) in *.
  assert (Hf149 : -149 <= f) by (unfold f; rewrite fexp32_eq; lia).
  destruct (resultado_props s _ f B1 Hf149 B2) as (V1 & V2 & V3).
  repeat split; auto. rewrite V3. f_equal. unfold patron.
  rewrite Zdigits2_escala by lia.
  replace (Zpos (digits2_pos m) + (e + escalaK) - escalaK) with (Zpos (digits2_pos m) + e) by lia.
  fold f. replace (f + escalaK) with (f - e + (e + escalaK)) by lia.
  rewrite rne_escala by lia. reflexivity.
Qed.

(** [binary_round] and [binary_normalize]. *)

Lemma iter_xO (m d : positive) : Zpos (Pos.iter xO m d) = Zpos m * 2 ^ Zpos d.
Proof.
  induction d as [|d IH] using Pos.peano_ind.
  - simpl. lia.
  - rewrite Pos.iter_succ, Pos2Z.inj_xO, IH, Pos2Z.inj_succ, Z.pow_succ_r by lia. ring.
Qed.

Lemma round_patron (s : bool) (m : positive) (e : Z) :
  - escalaK <= e ->
  let r := binary_round 24 128 s m e in
  valid_binary 24 128 r = true /\ no_nan r = true
  /\ ord r = con_signo s (patron (Zpos m * 2 ^ (e + escalaK))).
Proof.
  intros HK r. unfold r, binary_round, shl_align.
  fold (fexp32 (Zpos (digits2_pos m) + e)).
  remember (fexp32 (Zpos (digits2_pos m) + e)) as f eqn:Ef.
  assert (Hf149 : -149 <= f) by (rewrite Ef, fexp32_eq; lia).
  destruct (f - e) as [|d|d] eqn:E.
  - apply aux_patron; [exact HK | rewrite <- Ef; lia].
  - apply aux_patron; [exact HK | rewrite <- Ef; lia].
  - assert (Em : Zpos (Pos.iter xO m d) * 2 ^ (f + escalaK) = Zpos m * 2 ^ (e + escalaK)).
    { rewrite iter_xO. replace (e + escalaK) with (Zpos d + (f + escalaK)) by lia.
      rewrite (Z.pow_add_r 2 (Zpos d) (f + escalaK)) by (unfold escalaK in *; lia). ring. }
    rewrite <- Em. apply aux_patron; [unfold escalaK in *; lia|].
    assert (Ed : Zpos (digits2_pos (Pos.iter xO m d)) = Zpos (digits2_pos m) + Zpos d).
    { pose proof (Zdigits2_escala m (Zpos d) ltac:(lia)) as H.
      rewrite <- iter_xO in H. exact H. }
    rewrite Ed. replace (Zpos (digits2_pos m) + Zpos d + f) with (Zpos (digits2_pos m) + e) by lia.
    rewrite <- Ef. lia.
Qed.

Lemma normalize_patron (M e : Z) :
  - escalaK <= e ->
  let r := binary_normalize 24 128 M e false in
  valid_binary 24 128 r = true /\ no_nan r = true
  /\ ord r = patronZ (M * 2 ^ (e + escalaK)).
Proof.
  intros HK r. unfold r, binary_normalize.
  assert (P : 0 < 2 ^ (e + escalaK)) by (apply Z.pow_pos_nonneg; lia).
  destruct M as [|m|m].
  - repeat split.
  - destruct (round_patron false m e HK) as (A & B & C). repeat split; auto.
    rewrite C. unfold con_signo, patronZ.
    destruct (Zpos m * 2 ^ (e + escalaK)) eqn:E; try lia; reflexivity.
  - destruct (round_patron true m e HK) as (A & B & C). repeat split; auto.
    rewrite C. unfold con_signo, patronZ.
    destruct (Zneg m * 2 ^ (e + escalaK)) as [|p|p] eqn:E; try lia.
    f_equal. f_equal. lia.
Qed.

(** The pattern grows with the exact value. *)

Lemma Zdigits2_mono (V1 V2 : Z) : 0 < V1 <= V2 -> Zdigits2 V1 <= Zdigits2 V2.
Proof.
  intros H. destruct V1 as [|p|p]; destruct V2 as [|q|q]; try lia.
  apply digits2_pos_mono. lia.
Qed.

Lemma Zdigits2_cotas (V : Z) : 0 < V -> 2 ^ (Zdigits2 V - 1) <= V < 2 ^ Zdigits2 V.
Proof. intros H. destruct V as [|p|p]; try lia. apply digits2_pos_cotas. Qed.

Lemma patron_mono (V1 V2 : Z) :
  0 < V1 <= V2 -> patron V1 <= patron V2.
Proof.
  intros (H0 & H12). unfold patron.
  pose proof (Zdigits2_mono V1 V2 ltac:(lia)) as Hd.
  set (f1 := fexp32 (Zdigits2 V1 - escalaK)). set (f2 := fexp32 (Zdigits2 V2 - escalaK)).
  assert (Hf : f1 <= f2) by (unfold f1, f2; rewrite !fexp32_eq; lia).
  assert (H1 : -149 <= f1) by (unfold f1; rewrite fexp32_eq; lia).
  apply Z.min_le_compat_r.
  destruct (Z.eq_dec f1 f2) as [E|N].
  - rewrite E. assert (rne V1 (f2 + escalaK) <= rne V2 (f2 + escalaK)); [|lia].
    apply rne_mono; [unfold escalaK; lia | lia].
  - assert (Hlt : f1 < f2) by lia.
    (* the smaller value rounds to at most 2^24 at its exponent, the larger
       one to at least 2^23 at a higher exponent *)
    assert (B1 : rne V1 (f1 + escalaK) <= 2 ^ 24).
    { pose proof (Zdigits2_cotas V1 H0) as (_ & Dhi).
      assert (Hn : 0 <= f1 + escalaK) by (unfold escalaK; lia).
      assert (Pn : 0 < 2 ^ (f1 + escalaK)) by (apply Z.pow_pos_nonneg; lia).
      pose proof (rne_cotas V1 (f1 + escalaK) Hn) as (_ & Rhi).
      assert (V1 / 2 ^ (f1 + escalaK) < 2 ^ 24); [|lia].
      apply Z.div_lt_upper_bound; [lia|].
      rewrite <- Z.pow_add_r by lia.
      assert (2 ^ Zdigits2 V1 <= 2 ^ (f1 + escalaK + 24))
        by (apply Z.pow_le_mono_r; [lia | unfold f1; rewrite fexp32_eq; lia]).
      lia. }
    assert (B2 : 2 ^ 23 <= rne V2 (f2 + escalaK)).
    { pose proof (Zdigits2_cotas V2 ltac:(lia)) as (Dlo & _).
      assert (Ef2 : f2 = Zdigits2 V2 - escalaK - 24) by (unfold f2 in *; rewrite fexp32_eq in *; lia).
      assert (Hn : 0 <= f2 + escalaK) by (unfold escalaK; lia).
      assert (Pn : 0 < 2 ^ (f2 + escalaK)) by (apply Z.pow_pos_nonneg; lia).
      pose proof (rne_cotas V2 (f2 + escalaK) Hn) as (Rlo & _).
      assert (2 ^ 23 <= V2 / 2 ^ (f2 + escalaK)); [|lia].
      apply Z.div_le_lower_bound; [lia|].
      rewrite <- Z.pow_add_r by lia.
      replace (f2 + escalaK + 23) with (Zdigits2 V2 - 1) by lia. exact Dlo. }
    nia.
Qed.

Lemma patron_no_neg (V : Z) : 0 < V -> 0 <= patron V.
Proof.
  intros HV. unfold patron.
  set (f := fexp32 (Zdigits2 V - escalaK)).
  assert (H1 : -149 <= f) by (unfold f; rewrite fexp32_eq; lia).
  assert (Hn : 0 <= f + escalaK) by (unfold escalaK; lia).
  assert (Pn : 0 < 2 ^ (f + escalaK)) by (apply Z.pow_pos_nonneg; lia).
  pose proof (rne_cotas V (f + escalaK) Hn) as (Rlo & _).
  assert (0 <= V / 2 ^ (f + escalaK)) by (apply Z.div_pos; lia).
  apply Z.min_glb; nia.
Qed.

Lemma patronZ_mono (V1 V2 : Z) : V1 <= V2 -> patronZ V1 <= patronZ V2.
Proof.
  intros H. destruct V1 as [|p|p]; destruct V2 as [|q|q]; try lia; cbn [patronZ].
  - apply patron_no_neg. lia.
  - apply patron_mono. lia.
  - pose proof (patron_no_neg (Zpos p) ltac:(lia)). lia.
  - pose proof (patron_no_neg (Zpos p) ltac:(lia)).
    pose proof (patron_no_neg (Zpos q) ltac:(lia)). lia.
  - pose proof (patron_mono (Zpos q) (Zpos p) ltac:(lia)). lia.
Qed.

Lemma valido_finito (s : bool) (m : positive) (e : Z) :
  valid_binary 24 128 (S754_finite s m e) = true ->
  -149 <= e <= 104 /\ Zpos m < 2 ^ 24 /\ (-149 < e -> 2 ^ 23 <= Zpos m)
  /\ fexp32 (Zpos (digits2_pos m) + e) = e.
Proof.
  cbn [valid_binary]. unfold bounded, canonical_mantissa.
  fold (fexp32 (Zpos (digits2_pos m) + e)). change (128 - 24) with 104.
  intros H. apply andb_true_iff in H. destruct H as (H1 & H2).
  apply Z.eqb_eq in H1. apply Z.leb_le in H2.
  pose proof (digits2_pos_cotas m) as (Lo & Hi).
  rewrite fexp32_eq in H1.
  assert (Hd : Zpos (digits2_pos m) <= 24) by lia.
  assert (2 ^ Zpos (digits2_pos m) <= 2 ^ 24) by (apply Z.pow_le_mono_r; lia).
  repeat split; try lia.
  - intros He. assert (Zpos (digits2_pos m) = 24) by lia.
    replace 23 with (Zpos (digits2_pos m) - 1) by lia. exact Lo.
  - rewrite fexp32_eq. exact H1.
Qed.

Lemma ord_cotas (x : spec_float) :
  bien x -> - (255 * 2 ^ 23) <= ord x <= 255 * 2 ^ 23.
Proof.
  intros (V & N). destruct x as [s|s| |s m e]; cbn [ord]; [lia | destruct s; lia | lia |].
  destruct (valido_finito s m e V) as (A & B & _). destruct s; lia.
Qed.

Lemma ord_finito_estricto (x : spec_float) :
  bien x -> F32.is_finite x = true -> - (255 * 2 ^ 23) < ord x < 255 * 2 ^ 23.
Proof.
  intros (V & N) F. destruct x as [s|s| |s m e]; try discriminate; cbn [ord]; try lia.
  destruct (valido_finito s m e V) as (A & B & _). destruct s; lia.
Qed.

Lemma SFcompare_ord (x y : spec_float) :
  bien x -> bien y ->
  SFcompare x y = Some (Z.compare (ord x) (ord y)).
Proof.
  intros (Vx & Nx) (Vy & Ny).
  destruct x as [sx|sx| |sx mx ex]; try discriminate;
    destruct y as [sy|sy| |sy my ey]; try discriminate;
    try (destruct (valido_finito sx mx ex Vx) as (X1 & X2 & X3 & _));
    try (destruct (valido_finito sy my ey Vy) as (Y1 & Y2 & Y3 & _));
    cbn [SFcompare ord]; f_equal; symmetry;
    try (destruct sx); try (destruct sy);
    try (apply Z.compare_eq_iff; lia);
    try (apply Z.compare_lt_iff; lia);
    try (apply Z.compare_gt_iff; lia).
  all: change (Pos.compare_cont Eq mx my) with (Pos.compare mx my).
  all: destruct (Z.compare_spec ex ey) as [E|E|E];
    [ subst; destruct (Pos.compare_spec mx my) as [F|F|F]; cbn [CompOpp];
      [ subst; apply Z.compare_eq_iff; lia
      | try (apply Z.compare_lt_iff; lia); try (apply Z.compare_gt_iff; lia)
      | try (apply Z.compare_lt_iff; lia); try (apply Z.compare_gt_iff; lia) ]
    | try (apply Z.compare_lt_iff; nia); try (apply Z.compare_gt_iff; nia)
    | try (apply Z.compare_lt_iff; nia); try (apply Z.compare_gt_iff; nia) ].
Qed.

Lemma SFleb_ord (x y : spec_float) :
  bien x -> bien y -> SFleb x y = (ord x <=? ord y).
Proof.
  intros Bx By. unfold SFleb. rewrite (SFcompare_ord x y Bx By).
  unfold Z.leb. destruct (ord x ?= ord y); reflexivity.
Qed.

Lemma SFltb_ord (x y : spec_float) :
  bien x -> bien y -> SFltb x y = (ord x <? ord y).
Proof.
  intros Bx By. unfold SFltb. rewrite (SFcompare_ord x y Bx By).
  unfold Z.ltb. destruct (ord x ?= ord y); reflexivity.
Qed.

Lemma pow2_dif (a b : Z) : 0 <= a < b -> 2 * 2 ^ a <= 2 ^ b.
Proof.
  intros H. replace b with (a + 1 + (b - a - 1)) by lia.
  rewrite !Z.pow_add_r by lia. change (2 ^ 1) with 2.
  assert (0 < 2 ^ a) by (apply Z.pow_pos_nonneg; lia).
  assert (0 < 2 ^ (b - a - 1)) by (apply Z.pow_pos_nonneg; lia).
  nia.
Qed.

Lemma exacto_pos_mono (j : Z) (m1 m2 : positive) (e1 e2 : Z) :
  149 <= j ->
  valid_binary 24 128 (S754_finite false m1 e1) = true ->
  valid_binary 24 128 (S754_finite false m2 e2) = true ->
  (e1 + 149) * 2 ^ 23 + Zpos m1 <= (e2 + 149) * 2 ^ 23 + Zpos m2 ->
  Zpos m1 * 2 ^ (e1 + j) <= Zpos m2 * 2 ^ (e2 + j).
Proof.
  intros Hj V1 V2 H.
  destruct (valido_finito _ _ _ V1) as (A1 & B1 & C1 & _).
  destruct (valido_finito _ _ _ V2) as (A2 & B2 & C2 & _).
  assert (P1 : 0 < 2 ^ (e1 + j)) by (apply Z.pow_pos_nonneg; lia).
  destruct (Z.lt_trichotomy e1 e2) as [L|[E|G]].
  - specialize (C2 ltac:(lia)).
    pose proof (pow2_dif (e1 + j) (e2 + j) ltac:(lia)). nia.
  - subst. nia.
  - specialize (C1 ltac:(lia)). exfalso. nia.
Qed.

Lemma ord_exacto_mono (j : Z) (x y : spec_float) :
  149 <= j -> bien x -> bien y -> F32.is_finite x = true -> F32.is_finite y = true ->
  ord x <= ord y -> exactoK j x <= exactoK j y.
Proof.
  intros Hj (Vx & _) (Vy & _) Fx Fy H.
  destruct x as [sx|sx| |sx mx ex]; try discriminate;
    destruct y as [sy|sy| |sy my ey]; try discriminate; cbn [exactoK ord] in *.
  - destruct (valido_finito _ _ _ Vy) as (A & _).
    assert (0 < 2 ^ (ey + j)) by (apply Z.pow_pos_nonneg; lia).
    destruct sy; cbn [con_signo]; nia.
  - destruct (valido_finito _ _ _ Vx) as (A & _).
    assert (0 < 2 ^ (ex + j)) by (apply Z.pow_pos_nonneg; lia).
    destruct sx; cbn [con_signo]; nia.
  - destruct (valido_finito _ _ _ Vx) as (Ax & _).
    destruct (valido_finito _ _ _ Vy) as (Ay & _).
    assert (0 < 2 ^ (ex + j)) by (apply Z.pow_pos_nonneg; lia).
    assert (0 < 2 ^ (ey + j)) by (apply Z.pow_pos_nonneg; lia).
    destruct sx, sy; cbn [con_signo].
    + pose proof (exacto_pos_mono j my mx ey ex Hj Vy Vx ltac:(lia)). lia.
    + nia.
    + exfalso. nia.
    + apply exacto_pos_mono; auto.
Qed.

Lemma patron_canonico (m : positive) (e : Z) :
  valid_binary 24 128 (S754_finite false m e) = true ->
  patron (Zpos m * 2 ^ (e + escalaK)) = (e + 149) * 2 ^ 23 + Zpos m.
Proof.
  intros V. destruct (valido_finito _ _ _ V) as (A & B & _ & F).
  unfold patron. rewrite Zdigits2_escala by (unfold escalaK; lia).
  replace (Zpos (digits2_pos m) + (e + escalaK) - escalaK) with (Zpos (digits2_pos m) + e) by lia.
  rewrite F. replace (e + escalaK) with (0 + (e + escalaK)) at 2 by lia.
  rewrite rne_escala by (unfold escalaK; lia). rewrite rne_cero. lia.
Qed.

Lemma ord_patron (x : spec_float) :
  bien x -> F32.is_finite x = true -> ord x = patronZ (exactoK escalaK x).
Proof.
  intros (V & _) F. destruct x as [s|s| |s m e]; try discriminate; cbn [ord exactoK].
  - reflexivity.
  - destruct (valido_finito _ _ _ V) as (A & _).
    assert (P : 0 < 2 ^ (e + escalaK)) by (apply Z.pow_pos_nonneg; unfold escalaK; lia).
    pose proof (patron_canonico m e V) as Hp.
    destruct s; cbn [con_signo].
    + destruct (- (Zpos m * 2 ^ (e + escalaK))) as [|p|p] eqn:E; try lia.
      cbn [patronZ]. replace (Zpos p) with (Zpos m * 2 ^ (e + escalaK)) by lia. lia.
    + destruct (Zpos m * 2 ^ (e + escalaK)) as [|p|p] eqn:E; try lia.
      cbn [patronZ]. lia.
Qed.

(** Addition rounds the exact sum. *)

Lemma shl_align_valor (m : positive) (e ez : Z) :
  ez <= e -> - escalaK <= ez ->
  Zpos (fst (shl_align m e ez)) * 2 ^ (ez + escalaK) = Zpos m * 2 ^ (e + escalaK).
Proof.
  intros H HK. unfold shl_align.
  destruct (ez - e) as [|d|d] eqn:E; cbn [fst]; try lia.
  - replace ez with e by lia. reflexivity.
  - rewrite iter_xO. replace (e + escalaK) with (Zpos d + (ez + escalaK)) by lia.
    rewrite (Z.pow_add_r 2 (Zpos d) (ez + escalaK)) by lia. ring.
Qed.

Lemma SFadd_patron (x a : spec_float) :
  bien x -> bien a -> F32.is_finite x = true -> F32.is_finite a = true ->
  bien (SFadd 24 128 x a)
  /\ ord (SFadd 24 128 x a) = patronZ (exactoK escalaK x + exactoK escalaK a).
Proof.
  intros Bx Ba Fx Fa.
  destruct x as [sx|sx| |sx mx ex]; try discriminate;
    destruct a as [sa|sa| |sa ma ea]; try discriminate.
  - split; [|destruct sx, sa; reflexivity].
    destruct sx, sa; split; reflexivity.
  - cbn [SFadd]. split; [exact Ba|].
    rewrite (ord_patron _ Ba Fa). reflexivity.
  - cbn [SFadd]. split; [exact Bx|].
    rewrite (ord_patron _ Bx Fx). f_equal. cbn [exactoK]. lia.
  - destruct (valido_finito _ _ _ (proj1 Bx)) as (Ax & _).
    destruct (valido_finito _ _ _ (proj1 Ba)) as (Aa & _).
    cbn [SFadd].
    set (ez := Z.min ex ea).
    assert (Hez : - escalaK <= ez) by (unfold escalaK, ez; lia).
    pose proof (shl_align_valor mx ex ez ltac:(unfold ez; lia) Hez) as Ex.
    pose proof (shl_align_valor ma ea ez ltac:(unfold ez; lia) Hez) as Ea.
    match goal with
    | |- context [binary_normalize 24 128 ?M ez false] =>
        destruct (normalize_patron M ez Hez) as (V1 & V2 & V3);
        split; [split; assumption|]; rewrite V3; f_equal
    end.
    cbn [exactoK]. rewrite <- Ex, <- Ea.
    unfold cond_Zopp, con_signo. destruct sx, sa; ring.
Qed.

Lemma patronZ_con_signo (s : bool) (V : Z) :
  0 < V -> patronZ (con_signo s V) = con_signo s (patron V).
Proof.
  intros H. destruct V as [|p|p]; try lia. destruct s; reflexivity.
Qed.

Lemma SFmul_cuarto (x : spec_float) :
  bien x -> F32.is_finite x = true ->
  bien (SFmul 24 128 x un_cuarto)
  /\ ord (SFmul 24 128 x un_cuarto) = patronZ (exactoK (escalaK - 2) x).
Proof.
  intros (V & _) F. destruct x as [s|s| |s m e]; try discriminate.
  - split; [split; reflexivity | reflexivity].
  - destruct (valido_finito _ _ _ V) as (A & _).
    unfold un_cuarto. cbn [SFmul]. rewrite xorb_false_r.
    assert (Em : Zpos (m * 8388608) = Zpos m * 2 ^ 23) by reflexivity.
    assert (Hd : Zpos (digits2_pos (m * 8388608)) = Zpos (digits2_pos m) + 23).
    { pose proof (Zdigits2_escala m 23 ltac:(lia)) as H. rewrite <- Em in H. exact H. }
    destruct (aux_patron s (m * 8388608) (e + -25)) as (V1 & V2 & V3).
    + unfold escalaK. lia.
    + rewrite Hd, fexp32_eq. pose proof (digits2_pos_cotas m). lia.
    + split; [split; assumption|]. rewrite V3. cbn [exactoK].
      assert (P : 0 < 2 ^ (e + (escalaK - 2))) by (apply Z.pow_pos_nonneg; unfold escalaK; lia).
      rewrite patronZ_con_signo by lia. f_equal. f_equal.
      rewrite Em. replace (e + (escalaK - 2)) with (23 + (e + -25 + escalaK)) by lia.
      rewrite (Z.pow_add_r 2 23 (e + -25 + escalaK)) by (unfold escalaK; lia). ring.
Qed.

(** Division by 2.0 rounds the exact half. *)

Lemma shr_record_of_loc_m (q : Z) (l : location) : shr_m (shr_record_of_loc q l) = q.
Proof. destruct l as [|[| |]]; reflexivity. Qed.

Lemma loc_of_shr_record_of_loc (q : Z) (l : location) :
  loc_of_shr_record (shr_record_of_loc q l) = l.
Proof. destruct l as [|[| |]]; reflexivity. Qed.

Lemma shr_fexp_nada (q g : Z) (l : location) :
  fexp32 (Zdigits2 q + g) <= g ->
  shr_fexp 24 128 q g l = (shr_record_of_loc q l, g).
Proof.
  intros H. unfold shr_fexp, shr. fold (fexp32 (Zdigits2 q + g)).
  destruct (fexp32 (Zdigits2 q + g) - g) eqn:E; try lia; reflexivity.
Qed.

Lemma SFdiv_dos (x : spec_float) :
  bien x -> F32.is_finite x = true ->
  bien (SFdiv 24 128 x dos)
  /\ ord (SFdiv 24 128 x dos) = patronZ (exactoK (escalaK - 1) x).
Proof.
  intros (V & _) F. destruct x as [s|s| |s m e]; try discriminate.
  - split; [split; reflexivity | reflexivity].
  - destruct (valido_finito _ _ _ V) as (A & B & C & Fe).
    pose proof (digits2_pos_cotas m) as (Dlo & Dhi).
    set (d := Zpos (digits2_pos m)) in *.
    assert (Hd : 0 < d <= 24) by (unfold d; rewrite fexp32_eq in Fe; lia).
    unfold dos. cbn [SFdiv]. rewrite xorb_false_r.
    unfold SFdiv_core_binary.
    change (Zdigits2 (Zpos m)) with d. change (Zdigits2 (Zpos 8388608)) with 24.
    fold (fexp32 (d + e - (24 + -22))).
    remember (fexp32 (d + e - (24 + -22))) as g eqn:Eg.
    assert (Hg : g = Z.max (d + e - 26) (-149)) by (rewrite Eg, fexp32_eq; lia).
    rewrite Z.min_l by lia.
    remember (e - -22 - g) as sh eqn:Esh.
    assert (Hsh : 22 <= sh) by lia.
    destruct sh as [|p|p]; try lia.
    rewrite Z.shiftl_mul_pow2 by lia.
    assert (P : 0 < 2 ^ (e + (escalaK - 1))) by (apply Z.pow_pos_nonneg; unfold escalaK; lia).
    cbn [exactoK]. rewrite patronZ_con_signo by lia.
    destruct (Z.eq_dec (Zpos p) 22) as [E22|N22].
    + (* e = -149: one bit is shifted out *)
      assert (He : e = -149) by lia. assert (Hg' : g = -149) by lia.
      rewrite E22.
      pose proof (Z_div_mod (Zpos m * 2 ^ 22) 8388608 ltac:(lia)) as DM.
      destruct (Z.div_eucl (Zpos m * 2 ^ 22) 8388608) as [q r].
      destruct DM as (DM1 & DM2).
      assert (Eq : q = Zpos m / 2 /\ r = (Zpos m mod 2) * 2 ^ 22).
      { pose proof (Z.div_mod (Zpos m) 2 ltac:(lia)) as H2.
        pose proof (Z.mod_pos_bound (Zpos m) 2 ltac:(lia)) as H3.
        change (2 ^ 22) with 4194304 in *. nia. }
      destruct Eq as (Eq & Er).
      assert (Hq : 0 <= q < 2 ^ 23).
      { subst q. split; [apply Z.div_pos; lia|].
        apply Z.div_lt_upper_bound; lia. }
      unfold binary_round_aux.
      assert (Hdq : Zdigits2 q <= 23) by (apply Zdigits2_cota; lia).
      rewrite shr_fexp_nada by (rewrite fexp32_eq; lia).
      rewrite shr_record_of_loc_m, loc_of_shr_record_of_loc.
      set (Q := round_nearest_even q (new_location 8388608 r)).
      assert (EQ : Q = rne (Zpos m) 1).
      { unfold Q, rne. change (2 ^ 1) with 2. rewrite <- Eq.
        pose proof (Z.mod_pos_bound (Zpos m) 2 ltac:(lia)) as H3.
        assert (Hr : Zpos m mod 2 = 0 \/ Zpos m mod 2 = 1) by lia.
        destruct Hr as [Hr|Hr]; rewrite Hr in *; subst r; reflexivity. }
      assert (HQ : 0 <= Q <= 2 ^ 24).
      { rewrite EQ. pose proof (rne_cotas (Zpos m) 1 ltac:(lia)) as H.
        change (2 ^ 1) with 2 in H. rewrite <- Eq in H. lia. }
      rewrite (segunda_etapa s Q g HQ ltac:(lia)).
      destruct (resultado_props s Q g HQ ltac:(lia) ltac:(lia)) as (V1 & V2 & V3).
      split; [split; assumption|]. rewrite V3. f_equal.
      unfold patron. rewrite Zdigits2_escala by (unfold escalaK; lia).
      fold d. replace (d + (e + (escalaK - 1)) - escalaK) with (d + e - 1) by lia.
      assert (Ef : fexp32 (d + e - 1) = -149) by (rewrite fexp32_eq; lia).
      rewrite Ef, Hg', EQ.
      replace (-149 + escalaK) with (1 + (e + (escalaK - 1))) by lia.
      rewrite rne_escala by (unfold escalaK; lia). reflexivity.
    + (* the quotient is exact *)
      assert (H23 : 23 <= Zpos p) by lia.
      assert (Em : Zpos m * 2 ^ Zpos p = (Zpos m * 2 ^ (Zpos p - 23)) * 8388608).
      { replace (Zpos p) with (Zpos p - 23 + 23) at 1 by lia.
        rewrite Z.pow_add_r by lia. change (2 ^ 23) with 8388608. ring. }
      pose proof (Z_div_mod (Zpos m * 2 ^ Zpos p) 8388608 ltac:(lia)) as DM.
      destruct (Z.div_eucl (Zpos m * 2 ^ Zpos p) 8388608) as [q r].
      destruct DM as (DM1 & DM2).
      assert (P2 : 0 < 2 ^ (Zpos p - 23)) by (apply Z.pow_pos_nonneg; lia).
      assert (Eq : q = Zpos m * 2 ^ (Zpos p - 23) /\ r = 0) by nia.
      destruct Eq as (Eq & Er). subst r.
      change (new_location 8388608 0) with loc_Exact.
      destruct q as [|q|q]; try lia.
      assert (Hdq : Zpos (digits2_pos q) = d + (Zpos p - 23)).
      { pose proof (Zdigits2_escala m (Zpos p - 23) ltac:(lia)) as H.
        rewrite <- Eq in H. exact H. }
      destruct (aux_patron s q g) as (V1 & V2 & V3).
      * unfold escalaK. lia.
      * rewrite Hdq. replace (d + (Zpos p - 23) + g) with (d + e - 1) by lia.
        rewrite fexp32_eq. lia.
      * split; [split; assumption|]. rewrite V3. f_equal. f_equal.
        rewrite Eq. replace (e + (escalaK - 1)) with (Zpos p - 23 + (g + escalaK)) by lia.
        rewrite (Z.pow_add_r 2 (Zpos p - 23) (g + escalaK)) by (unfold escalaK; lia). ring.
Qed.

Lemma monotona_comp (f g : spec_float -> spec_float) :
  monotona f -> monotona g -> monotona (fun x => g (f x)).
Proof.
  intros Hf Hg x y Bx By H.
  destruct (Hf x y Bx By H) as (B1 & B2 & H1).
  exact (Hg _ _ B1 B2 H1).
Qed.

Lemma bien_infinito (s : bool) : bien (S754_infinity s).
Proof. split; reflexivity. Qed.

Lemma monotona_por_patron (op : spec_float -> spec_float) (j c : Z) :
  149 <= j ->
  (forall x, bien x -> F32.is_finite x = true ->
     bien (op x) /\ ord (op x) = patronZ (exactoK j x + c)) ->
  (forall s, op (S754_infinity s) = S754_infinity s) ->
  monotona op.
Proof.
  intros Hj Hfin Hinf.
  assert (Hb : forall x, bien x -> bien (op x)).
  { intros x Bx. destruct (F32.is_finite x) eqn:F; [apply (Hfin x Bx F)|].
    destruct x as [s|s| |s m e]; try discriminate.
    - rewrite Hinf. apply bien_infinito.
    - destruct Bx as (_ & N). discriminate. }
  intros x y Bx By H.
  split; [apply Hb; exact Bx|]. split; [apply Hb; exact By|].
  destruct (F32.is_finite x) eqn:Fx; destruct (F32.is_finite y) eqn:Fy.
  - destruct (Hfin x Bx Fx) as (_ & Ex). destruct (Hfin y By Fy) as (_ & Ey).
    rewrite Ex, Ey. apply patronZ_mono.
    pose proof (ord_exacto_mono j x y Hj Bx By Fx Fy H). lia.
  - pose proof (ord_finito_estricto x Bx Fx) as Hx.
    destruct y as [s|s| |s m e]; try discriminate; [|destruct By as (_ & N); discriminate].
    destruct s; cbn [ord] in H; [lia|].
    rewrite Hinf. pose proof (ord_cotas _ (Hb x Bx)). cbn [ord]. lia.
  - pose proof (ord_finito_estricto y By Fy) as Hy.
    destruct x as [s|s| |s m e]; try discriminate; [|destruct Bx as (_ & N); discriminate].
    destruct s; cbn [ord] in H; [|lia].
    rewrite Hinf. pose proof (ord_cotas _ (Hb y By)). cbn [ord]. lia.
  - destruct x as [sx|sx| |sx mx ex]; try discriminate; [|destruct Bx as (_ & N); discriminate].
    destruct y as [sy|sy| |sy my ey]; try discriminate; [|destruct By as (_ & N); discriminate].
    rewrite !Hinf. destruct sx, sy; cbn [ord] in *; lia.
Qed.

Lemma SFadd_monotona (a : spec_float) :
  bien a -> F32.is_finite a = true -> monotona (fun x => SFadd 24 128 x a).
Proof.
  intros Ba Fa. apply (monotona_por_patron _ escalaK (exactoK escalaK a)).
  - unfold escalaK. lia.
  - intros x Bx Fx. apply SFadd_patron; assumption.
  - intros s. destruct a as [sa|sa| |sa ma ea]; try discriminate; reflexivity.
Qed.

Lemma SFsub_como_suma (x : spec_float) (s : bool) (m : positive) (e : Z) :
  SFsub 24 128 x (S754_finite s m e) = SFadd 24 128 x (S754_finite (negb s) m e).
Proof.
  destruct x as [sx|sx| |sx mx ex]; try reflexivity; destruct sx, s; reflexivity.
Qed.

Lemma bien_opuesto (s : bool) (m : positive) (e : Z) :
  bien (S754_finite s m e) -> bien (S754_finite (negb s) m e).
Proof. intros (V & N). split; [exact V | reflexivity]. Qed.

Lemma SFsub_monotona (s : bool) (m : positive) (e : Z) :
  bien (S754_finite s m e) -> monotona (fun x => SFsub 24 128 x (S754_finite s m e)).
Proof.
  intros B x y Bx By H. rewrite !SFsub_como_suma.
  apply (SFadd_monotona (S754_finite (negb s) m e)); auto using bien_opuesto.
Qed.

Lemma SFmul_cuarto_monotona : monotona (fun x => SFmul 24 128 x un_cuarto).
Proof.
  apply (monotona_por_patron _ (escalaK - 2) 0).
  - unfold escalaK. lia.
  - intros x Bx Fx. rewrite Z.add_0_r. apply SFmul_cuarto; assumption.
  - intros s. cbn. rewrite xorb_false_r. reflexivity.
Qed.

Lemma SFdiv_dos_monotona : monotona (fun x => SFdiv 24 128 x dos).
Proof.
  apply (monotona_por_patron _ (escalaK - 1) 0).
  - unfold escalaK. lia.
  - intros x Bx Fx. rewrite Z.add_0_r. apply SFdiv_dos; assumption.
  - intros s. cbn. rewrite xorb_false_r. reflexivity.
Qed.

Lemma acotar_monotona (low high : spec_float) :
  bien low -> bien high -> ord low <= ord high ->
  monotona (fun z => constrain z low high).
Proof.
  intros Bl Bh Hlh x y Bx By H. unfold constrain, F32.lt, F32.gt.
  rewrite (SFltb_ord x low Bx Bl), (SFltb_ord high x Bh Bx).
  rewrite (SFltb_ord y low By Bl), (SFltb_ord high y Bh By).
  destruct (Z.ltb_spec (ord x) (ord low)); destruct (Z.ltb_spec (ord high) (ord x));
    destruct (Z.ltb_spec (ord y) (ord low)); destruct (Z.ltb_spec (ord high) (ord y));
    repeat split; try apply Bl; try apply Bh; try apply Bx; try apply By; lia.
Qed.

(** [binary_round_aux] with an arbitrary location: shape of the result. *)

Lemma shr_1_m (mrs : shr_record) : 0 <= shr_m mrs -> shr_m (shr_1 mrs) = shr_m mrs / 2.
Proof.
  destruct mrs as [q r s]. cbn [shr_m]. intros H.
  destruct q as [|[q|q|]|q]; cbn [shr_1 shr_m];
    [ reflexivity
    | apply (Z.div_unique (Zpos q~1) 2 (Zpos q) 1); lia
    | apply (Z.div_unique (Zpos q~0) 2 (Zpos q) 0); lia
    | reflexivity
    | lia ].
Qed.

Lemma shr_iter_m (k : nat) (mrs : shr_record) :
  0 <= shr_m mrs ->
  shr_m (Nat.iter k shr_1 mrs) = shr_m mrs / 2 ^ Z.of_nat k.
Proof.
  intros H. induction k as [|k IH].
  - cbn [Nat.iter nat_rect Z.of_nat]. rewrite Z.div_1_r. reflexivity.
  - cbn [Nat.iter nat_rect]. change (nat_rect _ _ _ k) with (Nat.iter k shr_1 mrs).
    assert (P : 0 < 2 ^ Z.of_nat k) by (apply Z.pow_pos_nonneg; lia).
    rewrite shr_1_m by (rewrite IH; apply Z.div_pos; lia).
    rewrite IH, Nat2Z.inj_succ, Z.pow_succ_r by lia.
    rewrite Z.div_div by lia. f_equal. ring.
Qed.

Lemma round_nearest_even_cotas (q : Z) (l : location) :
  q <= round_nearest_even q l <= q + 1.
Proof. destruct l as [|[| |]]; cbn [round_nearest_even]; try destruct (Z.even q); lia. Qed.

Lemma finito_resultado (s : bool) (Q f : Z) : f <= 103 -> F32.is_finite (resultado s Q f) = true.
Proof.
  intros H. unfold resultado. destruct Q as [|q|q]; try reflexivity.
  destruct (_ =? _).
  - replace (f + 1 <=? 104) with true by (symmetry; apply Z.leb_le; lia). reflexivity.
  - replace (f <=? 104) with true by (symmetry; apply Z.leb_le; lia). reflexivity.
Qed.

Lemma aux_general (s : bool) (q e : Z) (l : location) :
  0 <= q -> e <= fexp32 (Zdigits2 q + e) ->
  bien (binary_round_aux 24 128 s q e l)
  /\ (fexp32 (Zdigits2 q + e) <= 103 -> F32.is_finite (binary_round_aux 24 128 s q e l) = true).
Proof.
  intros Hq Hf.
  remember (fexp32 (Zdigits2 q + e)) as f eqn:Ef.
  assert (Hf149 : -149 <= f) by (rewrite Ef, fexp32_eq; lia).
  assert (Hd0 : 0 <= Zdigits2 q) by (destruct q; simpl; lia).
  set (n := f - e). assert (Hn : 0 <= n) by (unfold n; lia).
  assert (Pn : 0 < 2 ^ n) by (apply Z.pow_pos_nonneg; lia).
  assert (E1 : exists mrs, shr_fexp 24 128 q e l = (mrs, f) /\ shr_m mrs = q / 2 ^ n).
  { unfold shr_fexp, shr. fold (fexp32 (Zdigits2 q + e)). rewrite <- Ef. fold n.
    destruct n as [|p|p] eqn:En; try lia.
    - eexists. split; [f_equal; lia|]. rewrite shr_record_of_loc_m, Z.div_1_r. reflexivity.
    - eexists. split; [f_equal; lia|]. rewrite iter_pos_nat, shr_iter_m.
      + rewrite shr_record_of_loc_m, positive_nat_Z. reflexivity.
      + rewrite shr_record_of_loc_m. exact Hq. }
  destruct E1 as (mrs & E1 & Em).
  unfold binary_round_aux. rewrite E1.
  set (Q := round_nearest_even (shr_m mrs) (loc_of_shr_record mrs)).
  pose proof (round_nearest_even_cotas (shr_m mrs) (loc_of_shr_record mrs)) as HQ.
  fold Q in HQ. rewrite Em in HQ.
  assert (B0 : 0 <= q / 2 ^ n) by (apply Z.div_pos; lia).
  assert (B1 : q / 2 ^ n < 2 ^ 24).
  { apply Z.div_lt_upper_bound; [lia|]. rewrite <- Z.pow_add_r by lia.
    destruct (Z.eq_dec q 0) as [->|Hq0].
    - apply Z.pow_pos_nonneg; lia.
    - pose proof (Zdigits2_cotas q ltac:(lia)) as (_ & Dhi).
      assert (2 ^ Zdigits2 q <= 2 ^ (n + 24))
        by (apply Z.pow_le_mono_r; [lia | unfold n; rewrite Ef, fexp32_eq; lia]).
      lia. }
  assert (B2 : -149 < f -> 2 ^ 23 <= q / 2 ^ n).
  { intros H. assert (Ef' : f = Zdigits2 q + e - 24) by (rewrite Ef, fexp32_eq in *; lia).
    assert (Hq0 : 0 < q) by (destruct q; simpl in *; lia).
    pose proof (Zdigits2_cotas q Hq0) as (Dlo & _).
    apply Z.div_le_lower_bound; [lia|]. rewrite <- Z.pow_add_r by lia.
    replace (n + 23) with (Zdigits2 q - 1) by (unfold n; lia). exact Dlo. }
  rewrite (segunda_etapa s Q f ltac:(lia) Hf149).
  destruct (resultado_props s Q f ltac:(lia) Hf149 ltac:(intros H; specialize (B2 H); lia))
    as (V1 & V2 & _).
  split; [split; assumption|]. apply finito_resultado.
Qed.

(** Division by a finite constant of magnitude at least 2. *)

Lemma SFdiv_finito (x c : spec_float) :
  bien x -> bien c -> F32.is_finite x = true ->
  match c with
  | S754_finite _ mc ec => 2 <= Zpos (digits2_pos mc) + ec
  | _ => False
  end ->
  bien (SFdiv 24 128 x c) /\ F32.is_finite (SFdiv 24 128 x c) = true.
Proof.
  intros (Vx & _) (Vc & _) Fx Hc.
  destruct c as [sc|sc| |sc mc ec]; try contradiction.
  destruct x as [sx|sx| |sx mx ex]; try discriminate.
  { split; [split; reflexivity | reflexivity]. }
  destruct (valido_finito _ _ _ Vx) as (Ax & Bx & Cx & Fex).
  destruct (valido_finito _ _ _ Vc) as (Ac & Bc & Cc & Fec).
  pose proof (digits2_pos_cotas mx) as (Xlo & Xhi).
  pose proof (digits2_pos_cotas mc) as (Clo & Chi).
  set (d1 := Zpos (digits2_pos mx)) in *. set (d2 := Zpos (digits2_pos mc)) in *.
  assert (Hd1 : 0 < d1 <= 24) by (unfold d1; rewrite fexp32_eq in Fex; lia).
  assert (Hd2 : 0 < d2 <= 24) by (unfold d2; rewrite fexp32_eq in Fec; lia).
  cbn [SFdiv]. unfold SFdiv_core_binary.
  change (Zdigits2 (Zpos mx)) with d1. change (Zdigits2 (Zpos mc)) with d2.
  fold (fexp32 (d1 + ex - (d2 + ec))).
  remember (fexp32 (d1 + ex - (d2 + ec))) as g eqn:Eg.
  assert (Hg : g = Z.max (d1 + ex - (d2 + ec) - 24) (-149)) by (rewrite Eg, fexp32_eq; lia).
  remember (Z.min g (ex - ec)) as e' eqn:Ee'.
  remember (ex - ec - e') as sh eqn:Esh.
  assert (Hsh : 0 <= sh) by lia.
  set (m' := match sh with Zpos _ => Z.shiftl (Zpos mx) sh | Z0 => Zpos mx | Zneg _ => 0 end).
  assert (Em' : m' = Zpos mx * 2 ^ sh).
  { unfold m'. destruct sh as [|p|p]; try lia. apply Z.shiftl_mul_pow2. lia. }
  clearbody m'.
  pose proof (Z_div_mod m' (Zpos mc) ltac:(lia)) as DM.
  destruct (Z.div_eucl m' (Zpos mc)) as [q r]. destruct DM as (DM1 & DM2).
  assert (Psh : 0 < 2 ^ sh) by (apply Z.pow_pos_nonneg; lia).
  assert (Hq0 : 0 <= q) by nia.
  assert (Hdq0 : 0 <= Zdigits2 q) by (destruct q; simpl; lia).
  (* digits of the quotient *)
  assert (Hdq_hi : q = 0 \/ Zdigits2 q <= d1 + sh - d2 + 1).
  { destruct (Z.eq_dec q 0) as [|Hne]; [left; assumption | right].
    assert (Hlt : m' < 2 ^ (d1 + sh)) by (rewrite Em', Z.pow_add_r by lia; nia).
    destruct (Z_lt_le_dec (d1 + sh - d2 + 1) 0) as [Hneg|Hpos].
    - exfalso.
      assert (2 ^ (d1 + sh) <= 2 ^ (d2 - 1)) by (apply Z.pow_le_mono_r; lia).
      nia.
    - apply Zdigits2_cota; [lia|]. split; [lia|].
      assert (E2 : 2 ^ (d1 + sh) = 2 ^ (d1 + sh - d2 + 1) * 2 ^ (d2 - 1)).
      { rewrite <- Z.pow_add_r by lia. f_equal. lia. }
      assert (0 < 2 ^ (d1 + sh - d2 + 1)) by (apply Z.pow_pos_nonneg; lia).
      nia. }
  assert (Hdq_lo : -149 < e' -> 24 <= Zdigits2 q).
  { intros H.
    assert (Esh' : sh = 24 + d2 - d1) by lia.
    assert (2 ^ 23 <= q).
    { assert (E2 : 2 ^ (d1 - 1 + sh) = 2 ^ 23 * 2 ^ d2).
      { rewrite <- Z.pow_add_r by lia. f_equal. lia. }
      assert (2 ^ (d1 - 1 + sh) <= m') by (rewrite Em', Z.pow_add_r by lia; nia).
      nia. }
    destruct (Z_lt_le_dec (Zdigits2 q) 24) as [Hc'|]; [|lia].
    exfalso. pose proof (Zdigits2_cotas q ltac:(lia)) as (_ & Dhi).
    assert (2 ^ Zdigits2 q <= 2 ^ 23) by (apply Z.pow_le_mono_r; lia). lia. }
  match goal with
  | |- context [binary_round_aux 24 128 ?s q e' ?l] =>
      destruct (aux_general s q e' l Hq0) as (Bb & Ff)
  end.
  - rewrite fexp32_eq. destruct (Z_le_gt_dec e' (-149)); [lia|].
    specialize (Hdq_lo ltac:(lia)). lia.
  - split; [exact Bb|]. apply Ff. rewrite fexp32_eq.
    destruct Hdq_hi as [->|Hhi]; [simpl Zdigits2|]; lia.
Qed.

(** Multiplication by a normal constant of magnitude below 1. *)

Lemma SFmul_finito (x c : spec_float) :
  bien x -> bien c -> F32.is_finite x = true ->
  match c with
  | S754_finite _ mc ec => Zpos (digits2_pos mc) = 24 /\ ec <= -25
  | _ => False
  end ->
  bien (SFmul 24 128 x c) /\ F32.is_finite (SFmul 24 128 x c) = true.
Proof.
  intros (Vx & _) (Vc & _) Fx Hc.
  destruct c as [sc|sc| |sc mc ec]; try contradiction. destruct Hc as (Hdc & Hec).
  destruct x as [sx|sx| |sx mx ex]; try discriminate.
  { split; [split; reflexivity | reflexivity]. }
  destruct (valido_finito _ _ _ Vx) as (Ax & Bx & Cx & Fex).
  destruct (valido_finito _ _ _ Vc) as (Ac & Bc & Cc & Fec).
  pose proof (digits2_pos_cotas mx) as (Xlo & Xhi).
  pose proof (digits2_pos_cotas mc) as (Clo & Chi).
  rewrite Hdc in Clo, Chi. change (24 - 1) with 23 in Clo.
  set (d := Zpos (digits2_pos mx)) in *.
  assert (Hd : 0 < d <= 24) by (unfold d; rewrite fexp32_eq in Fex; lia).
  cbn [SFmul].
  assert (Plo : 2 ^ (d + 22) <= Zpos (mx * mc)).
  { replace (d + 22) with (d - 1 + 23) by lia. rewrite Z.pow_add_r by lia.
    rewrite Pos2Z.inj_mul. nia. }
  assert (Phi : Zpos (mx * mc) < 2 ^ (d + 24)).
  { rewrite Z.pow_add_r by lia. rewrite Pos2Z.inj_mul. nia. }
  assert (Dlo : d + 23 <= Zdigits2 (Zpos (mx * mc))).
  { destruct (Z_lt_le_dec (Zdigits2 (Zpos (mx * mc))) (d + 23)) as [Hc|]; [|lia].
    exfalso. pose proof (Zdigits2_cotas (Zpos (mx * mc)) ltac:(lia)) as (_ & Dhi).
    assert (2 ^ Zdigits2 (Zpos (mx * mc)) <= 2 ^ (d + 22))
      by (apply Z.pow_le_mono_r; lia).
    lia. }
  assert (Dhi : Zdigits2 (Zpos (mx * mc)) <= d + 24)
    by (apply Zdigits2_cota; lia).
  destruct (aux_general (xorb sx sc) (Zpos (mx * mc)) (ex + ec) loc_Exact ltac:(lia))
    as (Bb & Ff).
  - rewrite fexp32_eq. lia.
  - split; [exact Bb|]. apply Ff. rewrite fexp32_eq. lia.
Qed.

Lemma exacto_cota (x : spec_float) :
  bien x -> F32.is_finite x = true -> - Vmax <= exactoK escalaK x <= Vmax.
Proof.
  intros (V & _) F. destruct x as [s|s| |s m e]; try discriminate; cbn [exactoK].
  - unfold Vmax. assert (0 < 2 ^ (104 + escalaK)) by (apply Z.pow_pos_nonneg; unfold escalaK; lia). lia.
  - destruct (valido_finito _ _ _ V) as (A & B & _).
    assert (P : 0 < 2 ^ (e + escalaK)) by (apply Z.pow_pos_nonneg; unfold escalaK; lia).
    assert (M : 2 ^ (e + escalaK) <= 2 ^ (104 + escalaK)) by (apply Z.pow_le_mono_r; lia).
    unfold Vmax, con_signo. destruct s; nia.
Qed.

Lemma finito_de_ord (r : spec_float) :
  bien r -> - (255 * 2 ^ 23) < ord r < 255 * 2 ^ 23 -> F32.is_finite r = true.
Proof.
  intros (_ & N) H. destruct r as [s|s| |s m e]; try reflexivity; try discriminate.
  destruct s; cbn [ord] in H; lia.
Qed.

Lemma patronZ_sin_desborde (V : Z) :
  - (Vmax + 60 * 2 ^ escalaK) <= V <= Vmax + 60 * 2 ^ escalaK ->
  - (255 * 2 ^ 23) < patronZ V < 255 * 2 ^ 23.
Proof.
  intros (Hlo & Hhi).
  pose proof (patronZ_mono _ _ Hlo) as L. pose proof (patronZ_mono _ _ Hhi) as U.
  assert (E1 : patronZ (Vmax + 60 * 2 ^ escalaK) = 255 * 2 ^ 23 - 1) by (vm_compute; reflexivity).
  assert (E2 : patronZ (- (Vmax + 60 * 2 ^ escalaK)) = - (255 * 2 ^ 23 - 1))
    by (vm_compute; reflexivity).
  rewrite E1 in U. rewrite E2 in L. lia.
Qed.

Lemma SFsub_finito (x y : spec_float) :
  bien x -> bien y -> F32.is_finite x = true -> F32.is_finite y = true ->
  - (60 * 2 ^ escalaK) <= exactoK escalaK x <= 60 * 2 ^ escalaK \/ - (60 * 2 ^ escalaK) <= exactoK escalaK y <= 60 * 2 ^ escalaK ->
  bien (SFsub 24 128 x y) /\ F32.is_finite (SFsub 24 128 x y) = true.
Proof.
  intros Bx By Fx Fy Hc.
  pose proof (exacto_cota x Bx Fx) as Cx. pose proof (exacto_cota y By Fy) as Cy.
  destruct y as [sy|sy| |sy my ey]; try discriminate.
  - destruct x as [sx|sx| |sx mx ex]; try discriminate.
    + destruct sx, sy; split; try reflexivity; split; reflexivity.
    + cbn [SFsub]. split; assumption.
  - rewrite SFsub_como_suma.
    assert (By' : bien (S754_finite (negb sy) my ey)) by (apply bien_opuesto; exact By).
    destruct (SFadd_patron x (S754_finite (negb sy) my ey) Bx By' Fx eq_refl) as (Bb & Eo).
    split; [exact Bb|]. apply finito_de_ord; [exact Bb|]. rewrite Eo.
    apply patronZ_sin_desborde.
    assert (Eopp : exactoK escalaK (S754_finite (negb sy) my ey)
                   = - exactoK escalaK (S754_finite sy my ey)).
    { cbn [exactoK]. unfold con_signo. destruct sy; cbn [negb]; lia. }
    rewrite Eopp. lia.
Qed.


(** ** Monotonicity of the comfort index *)

Lemma numero_bien (x : float) : numero x = true -> bien x /\ F32.is_finite x = true.
Proof.
  unfold numero. intros H. apply andb_true_iff in H. destruct H as (V & F).
  split; [split; [exact V|] | exact F].
  destruct x; try discriminate; reflexivity.
Qed.

Lemma monotona_bien (op : spec_float -> spec_float) (x : spec_float) :
  monotona op -> bien x -> bien (op x).
Proof. intros H B. apply (H x x B B). lia. Qed.

Lemma of_Z_bien (z : Z) : bien (F32.of_Z z).
Proof.
  destruct (normalize_patron z 0 ltac:(unfold escalaK; lia)) as (V & N & _).
  split; assumption.
Qed.

Lemma SFdiv_bien (x c : spec_float) :
  bien x -> numero c = true ->
  match c with
  | S754_finite _ mc ec => 2 <= Zpos (digits2_pos mc) + ec
  | _ => False
  end ->
  bien (SFdiv 24 128 x c).
Proof.
  intros Bx Nc Hc. destruct (numero_bien c Nc) as (Bc & _).
  destruct (F32.is_finite x) eqn:F.
  - apply SFdiv_finito; assumption.
  - destruct c as [sc|sc| |sc mc ec]; try contradiction.
    destruct x as [s|s| |s m e]; try discriminate.
    + split; reflexivity.
    + destruct Bx as (_ & N). discriminate.
Qed.

Lemma SFmul_bien (x c : spec_float) :
  bien x -> numero c = true ->
  match c with
  | S754_finite _ mc ec => Zpos (digits2_pos mc) = 24 /\ ec <= -25
  | _ => False
  end ->
  bien (SFmul 24 128 x c).
Proof.
  intros Bx Nc Hc. destruct (numero_bien c Nc) as (Bc & _).
  destruct (F32.is_finite x) eqn:F.
  - apply SFmul_finito; assumption.
  - destruct c as [sc|sc| |sc mc ec]; try contradiction.
    destruct x as [s|s| |s m e]; try discriminate.
    + split; reflexivity.
    + destruct Bx as (_ & N). discriminate.
Qed.

Lemma c40_numero : numero (F32.of_Z 40) = true.
Proof. vm_compute. reflexivity. Qed.

Lemma c60_numero : numero (F32.of_Z 60) = true.
Proof. vm_compute. reflexivity. Qed.

Lemma c40_cota :
  - (60 * 2 ^ escalaK) <= exactoK escalaK (F32.of_Z 40) <= 60 * 2 ^ escalaK.
Proof. vm_compute. split; intros; discriminate. Qed.

Lemma c60_cota :
  - (60 * 2 ^ escalaK) <= exactoK escalaK (F32.of_Z 60) <= 60 * 2 ^ escalaK.
Proof. vm_compute. split; intros; discriminate. Qed.

Lemma divisor_40 :
  numero (F32.lit 400 10) = true
  /\ match F32.lit 400 10 with
     | S754_finite _ mc ec => 2 <= Zpos (digits2_pos mc) + ec
     | _ => False
     end.
Proof. split; vm_compute; [reflexivity | intros; discriminate]. Qed.

Lemma divisor_700 :
  numero (F32.lit 7000 10) = true
  /\ match F32.lit 7000 10 with
     | S754_finite _ mc ec => 2 <= Zpos (digits2_pos mc) + ec
     | _ => False
     end.
Proof. split; vm_compute; [reflexivity | intros; discriminate]. Qed.

Lemma factor_normal (c : float) :
  c = F32.opp (F32.lit 2 10) \/ c = F32.lit 3 10 \/ c = F32.lit 15 100 ->
  numero c = true
  /\ match c with
     | S754_finite _ mc ec => Zpos (digits2_pos mc) = 24 /\ ec <= -25
     | _ => False
     end.
Proof.
  intros [-> | [-> | ->]]; split; vm_compute;
    try reflexivity; (split; [reflexivity | intros; discriminate]).
Qed.

(** The humidity factor of a finite reading is a finite number. *)
Lemma factorHumedad_numero (h : float) :
  numero h = true -> bien (factorHumedad h) /\ F32.is_finite (factorHumedad h) = true.
Proof.
  intros Nh. destruct (numero_bien h Nh) as (Bh & Fh).
  destruct (numero_bien _ c40_numero) as (B40 & F40).
  destruct (numero_bien _ c60_numero) as (B60 & F60).
  destruct divisor_40 as (N40 & D40). destruct (numero_bien _ N40) as (Bd & _).
  unfold factorHumedad.
  destruct (F32.lt h (F32.of_Z 40)).
  - destruct (SFsub_finito (F32.of_Z 40) h B40 Bh F40 Fh (or_introl c40_cota)) as (B1 & F1).
    destruct (SFdiv_finito _ (F32.lit 400 10) B1 Bd F1 D40) as (B2 & F2).
    destruct (factor_normal (F32.opp (F32.lit 2 10)) (or_introl eq_refl)) as (Nc & Hc).
    destruct (numero_bien _ Nc) as (Bc & _).
    exact (SFmul_finito _ _ B2 Bc F2 Hc).
  - destruct (F32.gt h (F32.of_Z 60)).
    + destruct (SFsub_finito h (F32.of_Z 60) Bh B60 Fh F60 (or_intror c60_cota)) as (B1 & F1).
      destruct (SFdiv_finito _ (F32.lit 400 10) B1 Bd F1 D40) as (B2 & F2).
      destruct (factor_normal (F32.lit 3 10) (or_intror (or_introl eq_refl))) as (Nc & Hc).
      destruct (numero_bien _ Nc) as (Bc & _).
      exact (SFmul_finito _ _ B2 Bc F2 Hc).
    + split; [split|]; reflexivity.
Qed.

(** The light factor is a finite number whatever the reading. *)
Lemma factorLuz_numero (luz : Z) :
  bien (factorLuz luz) /\ F32.is_finite (factorLuz luz) = true.
Proof.
  unfold factorLuz.
  destruct divisor_700 as (N700 & D700).
  destruct (factor_normal (F32.lit 15 100) (or_intror (or_intror eq_refl))) as (Nc & Hc).
  assert (B300 : bien (F32.lit 3000 10)) by (split; vm_compute; reflexivity).
  assert (Bl : bien (F32.opp (F32.lit 15 100))) by (split; vm_compute; reflexivity).
  assert (Bh : bien (F32.lit 15 100)) by (split; vm_compute; reflexivity).
  assert (E1 : ord (F32.opp (F32.lit 15 100)) = -1041865114) by (vm_compute; reflexivity).
  assert (E2 : ord (F32.lit 15 100) = 1041865114) by (vm_compute; reflexivity).
  assert (B1 : bien (F32.sub (F32.of_Z luz) (F32.lit 3000 10))).
  { destruct (F32.lit 3000 10) as [s|s| |s m e] eqn:E; try (vm_compute in E; discriminate).
    apply (monotona_bien (fun x => SFsub 24 128 x (S754_finite s m e))).
    - apply SFsub_monotona. exact B300.
    - apply of_Z_bien. }
  pose proof (SFdiv_bien _ _ B1 N700 D700) as B2.
  pose proof (SFmul_bien _ _ B2 Nc Hc) as Bf.
  set (f := F32.mul _ _).
  change (bien f) in Bf. clearbody f.
  pose proof (acotar_monotona _ _ Bl Bh ltac:(lia) f f Bf Bf ltac:(lia)) as (Bc & _ & _).
  split; [exact Bc|]. apply finito_de_ord; [exact Bc|].
  unfold constrain, F32.lt, F32.gt.
  rewrite (SFltb_ord f _ Bf Bl), (SFltb_ord _ f Bh Bf).
  destruct (Z.ltb_spec (ord f) (ord (F32.opp (F32.lit 15 100)))); [lia|].
  destruct (Z.ltb_spec (ord (F32.lit 15 100)) (ord f)); lia.
Qed.

Lemma calcularPMV_monotona (tA h : float) (luz : Z) :
  numero tA = true -> numero h = true ->
  monotona (fun t => calcularPMV t tA h luz).
Proof.
  intros NA NH.
  destruct (numero_bien tA NA) as (BA & FA).
  destruct (factorHumedad_numero h NH) as (BH & FH).
  destruct (factorLuz_numero luz) as (BL & FL).
  unfold calcularPMV, tProm.
  generalize (factorHumedad h) BH FH. intros fH BfH FfH.
  generalize (factorLuz luz) BL FL. intros fL BfL FfL.
  assert (E2 : F32.lit 20 10 = dos) by (vm_compute; reflexivity).
  assert (E4 : F32.lit 25 100 = un_cuarto) by (vm_compute; reflexivity).
  assert (E23 : F32.lit 230 10 = S754_finite false 12058624 (-19)) by (vm_compute; reflexivity).
  rewrite E2, E4, E23.
  assert (B23 : bien (S754_finite false 12058624 (-19))) by (split; vm_compute; reflexivity).
  assert (Blo : bien (F32.opp dos)) by (split; vm_compute; reflexivity).
  assert (Bhi : bien dos) by (split; vm_compute; reflexivity).
  assert (Hlh : ord (F32.opp dos) <= ord dos) by (vm_compute; intros; discriminate).
  unfold F32.add, F32.sub, F32.mul, F32.div, F32.prec, F32.emax.
  apply (monotona_comp
           (fun t => SFadd 24 128
                       (SFadd 24 128
                          (SFmul 24 128
                             (SFsub 24 128 (SFdiv 24 128 (SFadd 24 128 t tA) dos)
                                (S754_finite false 12058624 (-19)))
                             un_cuarto) fH) fL)
           (fun z => constrain z (F32.opp dos) dos));
    [|apply acotar_monotona; assumption].
  apply (monotona_comp
           (fun t => SFadd 24 128
                       (SFmul 24 128
                          (SFsub 24 128 (SFdiv 24 128 (SFadd 24 128 t tA) dos)
                             (S754_finite false 12058624 (-19)))
                          un_cuarto) fH)
           (fun z => SFadd 24 128 z fL));
    [|apply SFadd_monotona; assumption].
  apply (monotona_comp
           (fun t => SFmul 24 128
                       (SFsub 24 128 (SFdiv 24 128 (SFadd 24 128 t tA) dos)
                          (S754_finite false 12058624 (-19)))
                       un_cuarto)
           (fun z => SFadd 24 128 z fH));
    [|apply SFadd_monotona; assumption].
  apply (monotona_comp
           (fun t => SFsub 24 128 (SFdiv 24 128 (SFadd 24 128 t tA) dos)
                       (S754_finite false 12058624 (-19)))
           (fun z => SFmul 24 128 z un_cuarto));
    [|exact SFmul_cuarto_monotona].
  apply (monotona_comp
           (fun t => SFdiv 24 128 (SFadd 24 128 t tA) dos)
           (fun z => SFsub 24 128 z (S754_finite false 12058624 (-19))));
    [|apply SFsub_monotona; exact B23].
  apply (monotona_comp
           (fun t => SFadd 24 128 t tA)
           (fun z => SFdiv 24 128 z dos));
    [|exact SFdiv_dos_monotona].
  apply SFadd_monotona; assumption.
Qed.

(** C8. Monotonicity of the comfort index in the primary temperature.  For
    readings that are finite numbers, with the other three inputs fixed, a
    greater or equal [tDHT] gives a greater or equal index, every rounding of
    the binary32 computation and the final clamp to [-2.0, 2.0] included. *)
Theorem pmv_monotono_en_tDHT (t1 t2 tAnalog h : float) (luz : Z) :
  numero t1 = true -> numero t2 = true -> numero tAnalog = true -> numero h = true ->
  F32.le t1 t2 = true ->
  F32.le (calcularPMV t1 tAnalog h luz) (calcularPMV t2 tAnalog h luz) = true.
Proof.
  intros N1 N2 NA NH Hle.
  destruct (numero_bien t1 N1) as (B1 & _). destruct (numero_bien t2 N2) as (B2 & _).
  unfold F32.le in Hle. rewrite (SFleb_ord t1 t2 B1 B2) in Hle. apply Z.leb_le in Hle.
  destruct (calcularPMV_monotona tAnalog h luz NA NH t1 t2 B1 B2 Hle) as (R1 & R2 & R3).
  unfold F32.le. rewrite (SFleb_ord _ _ R1 R2). apply Z.leb_le. exact R3.
Qed.

Lemma pmv_monotono_en_tDHT_testigo :
  F32.le (calcularPMV (F32.of_Z 21) (F32.of_Z 28) (F32.of_Z 75) 650)
         (calcularPMV (F32.lit 215 10) (F32.of_Z 28) (F32.of_Z 75) 650) = true.
Proof.
  apply pmv_monotono_en_tDHT; vm_compute; reflexivity.
Defined.

(** * Further properties of the sketch *)

(** ** Keypad entry *)

Lemma longitud_append (a b : string) :
  String.length (a ++ b) = (String.length a + String.length b)%nat.
Proof. induction a as [|c a IH]; simpl; [reflexivity | now rewrite IH]. Qed.

Lemma lista_de_append (a b : string) :
  list_ascii_of_string (a ++ b) = (list_ascii_of_string a ++ list_ascii_of_string b)%list.
Proof. induction a as [|c a IH]; simpl; [reflexivity | now rewrite IH]. Qed.

Lemma longitud_lista (a : string) :
  List.length (list_ascii_of_string a) = String.length a.
Proof. induction a as [|c a IH]; simpl; [reflexivity | now rewrite IH]. Qed.

Lemma leerClave_sin_almohadilla (teclas : list ascii) :
  forall c, ~ In "#"%char teclas -> leerClave teclas c = None.
Proof.
  induction teclas as [|k ks IH]; intros c H; simpl; [reflexivity|].
  assert (Hk : Ascii.eqb k "#" = false).
  { apply Ascii.eqb_neq. intros ->. apply H. left. reflexivity. }
  assert (Hr : ~ In "#"%char ks) by (intros Hi; apply H; right; exact Hi).
  rewrite Hk. destruct (Ascii.eqb k NO_KEY); [apply IH; exact Hr|].
  destruct (Ascii.eqb k "*"); [apply IH; exact Hr|].
  destruct (_ <? _)%nat; apply IH; exact Hr.
Qed.

Lemma leerClave_con_almohadilla (teclas : list ascii) :
  forall c, In "#"%char teclas -> (String.length c <= 4)%nat ->
  exists r, leerClave teclas c = Some r /\ (String.length r <= 4)%nat.
Proof.
  induction teclas as [|k ks IH]; intros c H Hc; [contradiction|].
  simpl. destruct (Ascii.eqb k NO_KEY) eqn:E0.
  { apply IH; [|exact Hc]. destruct H as [->|H]; [discriminate | exact H]. }
  destruct (Ascii.eqb k "#") eqn:E1.
  { exists c. split; [reflexivity | exact Hc]. }
  assert (Hr : In "#"%char ks).
  { destruct H as [->|H]; [discriminate | exact H]. }
  destruct (Ascii.eqb k "*").
  { apply IH; [exact Hr | simpl; lia]. }
  destruct (String.length c <? 4)%nat eqn:E3.
  - apply IH; [exact Hr|]. apply Nat.ltb_lt in E3.
    rewrite longitud_append. simpl. lia.
  - apply IH; assumption.
Qed.

(** X1. PIN entry.  [leerClave] returns exactly when the key '#' is
    eventually pressed, and the PIN it returns has at most four characters,
    whatever keys were pressed before. *)
Theorem leerClave_devuelve (teclas : list ascii) :
  (leerClave teclas EmptyString = None <-> ~ In "#"%char teclas)
  /\ (forall clave, leerClave teclas EmptyString = Some clave ->
      (String.length clave <= 4)%nat).
Proof.
  split; [split|].
  - intros H Hi.
    destruct (leerClave_con_almohadilla teclas EmptyString Hi) as (r & E & _); [simpl; lia|].
    congruence.
  - apply leerClave_sin_almohadilla.
  - intros clave H.
    destruct (in_dec ascii_dec "#"%char teclas) as [Hi|Hn].
    + destruct (leerClave_con_almohadilla teclas EmptyString Hi) as (r & E & L); [simpl; lia|].
      congruence.
    + rewrite (leerClave_sin_almohadilla teclas EmptyString Hn) in H. discriminate.
Qed.

Lemma leerClave_datos (datos resto : list ascii) :
  forall c, ~ In "#"%char datos -> ~ In "*"%char datos -> (String.length c <= 4)%nat ->
  leerClave (datos ++ "#"%char :: resto) c
  = Some (string_of_list_ascii (firstn 4 (list_ascii_of_string c ++ pulsadas datos))).
Proof.
  induction datos as [|k ks IH]; intros c H1 H2 Hc.
  - cbn [app pulsadas filter].
    rewrite app_nil_r, firstn_all2 by (rewrite longitud_lista; exact Hc).
    rewrite string_of_list_ascii_of_string. reflexivity.
  - assert (K1 : Ascii.eqb k "#" = false).
    { apply Ascii.eqb_neq. intros ->. apply H1. left. reflexivity. }
    assert (K2 : Ascii.eqb k "*" = false).
    { apply Ascii.eqb_neq. intros ->. apply H2. left. reflexivity. }
    assert (R1 : ~ In "#"%char ks) by (intros Hi; apply H1; right; exact Hi).
    assert (R2 : ~ In "*"%char ks) by (intros Hi; apply H2; right; exact Hi).
    change ((k :: ks) ++ "#"%char :: resto)%list with (k :: (ks ++ "#"%char :: resto))%list.
    cbn [leerClave pulsadas filter]. rewrite K1, K2.
    destruct (Ascii.eqb k NO_KEY); cbn [negb].
    { apply IH; assumption. }
    fold (pulsadas ks).
    destruct (String.length c <? 4)%nat eqn:E.
    + apply Nat.ltb_lt in E. rewrite IH; try assumption.
      * rewrite lista_de_append. cbn [list_ascii_of_string].
        rewrite <- app_assoc. reflexivity.
      * rewrite longitud_append. simpl. lia.
    + apply Nat.ltb_ge in E. rewrite IH by assumption.
      rewrite !firstn_app, longitud_lista.
      replace (4 - String.length c)%nat with 0%nat by lia. reflexivity.
Qed.

Lemma leerClave_borra (antes teclas : list ascii) :
  forall c, ~ In "#"%char antes ->
  leerClave (antes ++ "*"%char :: teclas) c = leerClave teclas EmptyString.
Proof.
  induction antes as [|k ks IH]; intros c H; [reflexivity|].
  assert (K1 : Ascii.eqb k "#" = false).
  { apply Ascii.eqb_neq. intros ->. apply H. left. reflexivity. }
  assert (R1 : ~ In "#"%char ks) by (intros Hi; apply H; right; exact Hi).
  change ((k :: ks) ++ "*"%char :: teclas)%list with (k :: (ks ++ "*"%char :: teclas))%list.
  cbn [leerClave]. rewrite K1.
  destruct (Ascii.eqb k NO_KEY); [apply IH; exact R1|].
  destruct (Ascii.eqb k "*"); [apply IH; exact R1|].
  destruct (_ <? _)%nat; apply IH; exact R1.
Qed.

(** X2. Content of the PIN.  When the keys [datos] contain neither '#' nor
    '*' and are followed by '#', [leerClave] returns the first four keys
    pressed among them: a fifth key and the following ones are ignored.
    Keys typed before a '*' are discarded. *)
Theorem leerClave_contenido (antes datos resto : list ascii) :
  ~ In "#"%char antes -> ~ In "#"%char datos -> ~ In "*"%char datos ->
  let clave := string_of_list_ascii (firstn 4 (pulsadas datos)) in
  leerClave (datos ++ "#"%char :: resto) EmptyString = Some clave
  /\ leerClave (antes ++ "*"%char :: datos ++ "#"%char :: resto) EmptyString = Some clave.
Proof.
  intros Ha H1 H2 clave.
  assert (E : leerClave (datos ++ "#"%char :: resto) EmptyString = Some clave).
  { rewrite leerClave_datos; [reflexivity | assumption | assumption | simpl; lia]. }
  split; [exact E|]. rewrite leerClave_borra by exact Ha. exact E.
Qed.

Lemma leerClave_contenido_testigo :
  leerClave (["9"; NO_KEY; "9"] ++ "*" :: ["3"; NO_KEY; "4"; "5"; "6"; "7"] ++ "#" :: ["1"])%char
            EmptyString
  = Some "3456"%string.
Proof.
  refine (proj2 (leerClave_contenido ["9"; NO_KEY; "9"]%char ["3"; NO_KEY; "4"; "5"; "6"; "7"]%char
                   ["1"]%char _ _ _)).
  - simpl. intros H. repeat destruct H as [H|H]; try discriminate H; exact H.
  - simpl. intros H. repeat destruct H as [H|H]; try discriminate H; exact H.
  - simpl. intros H. repeat destruct H as [H|H]; try discriminate H; exact H.
Defined.





Lemma leerClave_devuelve_testigo :
  (String.length "12"%string <= 4)%nat.
Proof.
  exact (proj2 (leerClave_devuelve ["1"; NO_KEY; "2"; "#"]%char) "12"%string eq_refl).
Defined.


(** ** Tag reading *)

Lemma append_asoc (a b c : string) : ((a ++ b) ++ c = a ++ (b ++ c))%string.
Proof. induction a as [|x a IH]; simpl; [reflexivity | now rewrite IH]. Qed.

Lemma append_vacio (a : string) : (a ++ EmptyString)%string = a.
Proof. induction a as [|x a IH]; simpl; [reflexivity | now rewrite IH]. Qed.

Lemma toUpperCase_append (a b : string) :
  toUpperCase (a ++ b) = (toUpperCase a ++ toUpperCase b)%string.
Proof. induction a as [|x a IH]; simpl; [reflexivity | now rewrite IH]. Qed.

Lemma toUpperCase_byte (b : Byte.byte) :
  toUpperCase ((if (Byte.to_N b <? 16)%N then "0" else "") ++ String_HEX b) = parHex b.
Proof. destruct b; reflexivity. Qed.

Lemma toUpperCase_uid (uid : list Byte.byte) :
  forall acc,
  toUpperCase
    (fold_left (fun content b =>
                  let content := if (Byte.to_N b <? 16)%N
                                 then (content ++ "0")%string else content in
                  (content ++ String_HEX b)%string) uid acc)
  = (toUpperCase acc ++ fold_right (fun b r => (parHex b ++ r)%string) EmptyString uid)%string.
Proof.
  induction uid as [|b uid IH]; intros acc; cbn [fold_left fold_right].
  - now rewrite append_vacio.
  - rewrite IH. rewrite <- append_asoc. f_equal.
    rewrite <- toUpperCase_byte, <- toUpperCase_append, <- append_asoc.
    destruct (Byte.to_N b <? 16)%N; [reflexivity|].
    now rewrite append_vacio.
Qed.

Lemma leerTag_pares (m : Lector) :
  PICC_IsNewCardPresent m = true -> PICC_ReadCardSerial m = true ->
  leerTag m = fold_right (fun b r => (parHex b ++ r)%string) EmptyString (uidByte m).
Proof.
  intros H1 H2. unfold leerTag. rewrite H1, H2. cbn [negb].
  rewrite toUpperCase_uid. reflexivity.
Qed.

Lemma hexMayus_codigo (n : N) :
  (n < 16)%N ->
  N_of_ascii (hexMayus n) = (if (n <? 10)%N then 48 + n else 55 + n)%N.
Proof.
  intros H. unfold hexMayus.
  destruct (n <? 10)%N; apply N_ascii_embedding; lia.
Qed.

Lemma hexMayus_iny (a b : N) :
  (a < 16)%N -> (b < 16)%N -> hexMayus a = hexMayus b -> a = b.
Proof.
  intros Ha Hb H. apply (f_equal N_of_ascii) in H.
  rewrite !hexMayus_codigo in H by assumption.
  destruct (N.ltb_spec a 10); destruct (N.ltb_spec b 10); lia.
Qed.

Lemma parHex_iny (a b : Byte.byte) : parHex a = parHex b -> a = b.
Proof.
  unfold parHex. intros H. injection H as H1 H2.
  pose proof (Byte.to_N_bounded a) as Ba. pose proof (Byte.to_N_bounded b) as Bb.
  assert (Qa : (Byte.to_N a / 16 < 16)%N) by (apply N.Div0.div_lt_upper_bound; lia).
  assert (Qb : (Byte.to_N b / 16 < 16)%N) by (apply N.Div0.div_lt_upper_bound; lia).
  assert (Ra : (Byte.to_N a mod 16 < 16)%N) by (apply N.mod_lt; lia).
  assert (Rb : (Byte.to_N b mod 16 < 16)%N) by (apply N.mod_lt; lia).
  apply hexMayus_iny in H1; [|assumption ..].
  apply hexMayus_iny in H2; [|assumption ..].
  assert (E : Byte.to_N a = Byte.to_N b).
  { rewrite (N.div_mod (Byte.to_N a) 16), (N.div_mod (Byte.to_N b) 16) by lia.
    rewrite H1, H2. reflexivity. }
  pose proof (Byte.of_to_N a) as Ea. rewrite E, Byte.of_to_N in Ea. congruence.
Qed.

Lemma hexMayus_alfabeto (n : N) :
  (n < 16)%N -> In (hexMayus n) (list_ascii_of_string "0123456789ABCDEF").
Proof.
  intros H.
  assert (T : forallb (fun k => existsb (Ascii.eqb (hexMayus (N.of_nat k)))
                                        (list_ascii_of_string "0123456789ABCDEF"))
                      (seq 0 16) = true) by (vm_compute; reflexivity).
  rewrite forallb_forall in T. specialize (T (N.to_nat n)).
  rewrite Nnat.N2Nat.id in T.
  assert (I : In (N.to_nat n) (seq 0 16)) by (apply in_seq; lia).
  apply T in I. apply existsb_exists in I. destruct I as (c & Hc & E).
  apply Ascii.eqb_eq in E. rewrite E. exact Hc.
Qed.

Lemma parHex_alfabeto (b : Byte.byte) :
  Forall (fun c => In c (list_ascii_of_string "0123456789ABCDEF"))
         (list_ascii_of_string (parHex b)).
Proof.
  pose proof (Byte.to_N_bounded b) as Bb.
  unfold parHex. cbn [list_ascii_of_string].
  repeat apply Forall_cons; [| |apply Forall_nil]; apply hexMayus_alfabeto.
  - apply N.Div0.div_lt_upper_bound. lia.
  - apply N.mod_lt. lia.
Qed.

Lemma pares_longitud (uid : list Byte.byte) :
  String.length (fold_right (fun b r => (parHex b ++ r)%string) EmptyString uid)
  = (2 * List.length uid)%nat.
Proof.
  induction uid as [|b uid IH]; [reflexivity|].
  cbn [fold_right List.length]. unfold parHex at 1. cbn [append String.length].
  rewrite IH. lia.
Qed.

Lemma pares_alfabeto (uid : list Byte.byte) :
  Forall (fun c => In c (list_ascii_of_string "0123456789ABCDEF"))
         (list_ascii_of_string
            (fold_right (fun b r => (parHex b ++ r)%string) EmptyString uid)).
Proof.
  induction uid as [|b uid IH]; [apply Forall_nil|].
  cbn [fold_right]. pose proof (parHex_alfabeto b) as P.
  unfold parHex in *. cbn [append list_ascii_of_string] in *.
  inversion P as [|c1 l1 P1 P2]; subst. inversion P2 as [|c2 l2 P3 _]; subst.
  repeat apply Forall_cons; assumption.
Qed.

Lemma pares_iny (u v : list Byte.byte) :
  fold_right (fun b r => (parHex b ++ r)%string) EmptyString u
  = fold_right (fun b r => (parHex b ++ r)%string) EmptyString v -> u = v.
Proof.
  revert v. induction u as [|a u IH]; intros [|b v] H; try reflexivity;
    try (cbn [fold_right] in H; unfold parHex in H; discriminate H).
  cbn [fold_right] in H.
  assert (E : parHex a = parHex b /\
              fold_right (fun b r => (parHex b ++ r)%string) EmptyString u
              = fold_right (fun b r => (parHex b ++ r)%string) EmptyString v).
  { unfold parHex in *. cbn [append] in H. injection H as H1 H2 H3.
    split; [congruence | exact H3]. }
  destruct E as (E1 & E2). f_equal; [apply parHex_iny; exact E1 | apply IH; exact E2].
Qed.

(** X4. Tag format.  When a card is read, [leerTag] returns two characters
    for each byte of the UID, all of them among 0-9 and A-F; the result is
    empty only for an empty UID, and two cards with different UIDs never
    give the same tag. *)
Theorem leerTag_hexadecimal (m m' : Lector) :
  PICC_IsNewCardPresent m = true -> PICC_ReadCardSerial m = true ->
  PICC_IsNewCardPresent m' = true -> PICC_ReadCardSerial m' = true ->
  String.length (leerTag m) = (2 * List.length (uidByte m))%nat
  /\ Forall (fun c => In c (list_ascii_of_string "0123456789ABCDEF"))
            (list_ascii_of_string (leerTag m))
  /\ (leerTag m = EmptyString <-> uidByte m = [])
  /\ (leerTag m = leerTag m' -> uidByte m = uidByte m').
Proof.
  intros H1 H2 H3 H4.
  rewrite (leerTag_pares m H1 H2), (leerTag_pares m' H3 H4).
  split; [apply pares_longitud|]. split; [apply pares_alfabeto|].
  split; [|apply pares_iny].
  split.
  - intros E. apply (pares_iny (uidByte m) []). exact E.
  - intros ->. reflexivity.
Qed.

Lemma leerTag_hexadecimal_testigo :
  String.length
    (leerTag (mkLector true true [Byte.x5c; Byte.xf8; Byte.xd7; Byte.x73])) = 8%nat.
Proof.
  exact (proj1 (leerTag_hexadecimal
                  (mkLector true true [Byte.x5c; Byte.xf8; Byte.xd7; Byte.x73])
                  (mkLector true true [Byte.x0a]) eq_refl eq_refl eq_refl eq_refl)).
Defined.

(** ** Range of the comfort index *)

Lemma bien_numero_finito (x : float) :
  bien x -> F32.is_finite x = true -> numero x = true.
Proof. intros (V & _) F. unfold numero, F32.valid. rewrite F. rewrite andb_true_r. exact V. Qed.

Lemma constrain_cotas (z low high : float) :
  bien low -> bien high -> ord low <= ord high -> bien (constrain z low high) ->
  F32.le low (constrain z low high) = true /\ F32.le (constrain z low high) high = true.
Proof.
  intros Bl Bh Hlh. unfold constrain, F32.le, F32.lt, F32.gt.
  destruct (SFltb z low) eqn:E1.
  { intros _. rewrite (SFleb_ord _ _ Bl Bl), (SFleb_ord _ _ Bl Bh).
    split; apply Z.leb_le; lia. }
  destruct (SFltb high z) eqn:E2.
  { intros _. rewrite (SFleb_ord _ _ Bl Bh), (SFleb_ord _ _ Bh Bh).
    split; apply Z.leb_le; lia. }
  intros Bz. rewrite (SFltb_ord _ _ Bz Bl) in E1. rewrite (SFltb_ord _ _ Bh Bz) in E2.
  apply Z.ltb_ge in E1, E2.
  rewrite (SFleb_ord _ _ Bl Bz), (SFleb_ord _ _ Bz Bh).
  split; apply Z.leb_le; assumption.
Qed.

Lemma calcularPMV_cotas (tDHT tAnalog h : float) (luz : Z) :
  numero tDHT = true -> numero tAnalog = true -> numero h = true ->
  let r := calcularPMV tDHT tAnalog h luz in
  numero r = true
  /\ F32.le (F32.opp (F32.lit 20 10)) r = true /\ F32.le r (F32.lit 20 10) = true.
Proof.
  intros NT NA NH r.
  destruct (numero_bien tDHT NT) as (BT & _).
  destruct (calcularPMV_monotona tAnalog h luz NA NH tDHT tDHT BT BT ltac:(lia)) as (Br & _).
  fold r in Br.
  assert (Blo : bien (F32.opp (F32.lit 20 10))) by (split; vm_compute; reflexivity).
  assert (Bhi : bien (F32.lit 20 10)) by (split; vm_compute; reflexivity).
  assert (Hlh : ord (F32.opp (F32.lit 20 10)) <= ord (F32.lit 20 10))
    by (vm_compute; intros; discriminate).
  assert (C : F32.le (F32.opp (F32.lit 20 10)) r = true /\ F32.le r (F32.lit 20 10) = true).
  { subst r. unfold calcularPMV in *. cbv zeta in *.
    apply constrain_cotas; assumption. }
  split; [|exact C]. destruct C as (C1 & C2).
  apply bien_numero_finito; [exact Br|].
  apply finito_de_ord; [exact Br|].
  unfold F32.le in C1, C2.
  rewrite (SFleb_ord _ _ Blo Br) in C1. rewrite (SFleb_ord _ _ Br Bhi) in C2.
  apply Z.leb_le in C1, C2.
  assert (E1 : ord (F32.opp (F32.lit 20 10)) = -1073741824) by (vm_compute; reflexivity).
  assert (E2 : ord (F32.lit 20 10) = 1073741824) by (vm_compute; reflexivity).
  lia.
Qed.

(** ** Analog temperature over the range of the converter *)

Lemma leerTempAnalogica_tabla :
  forallb (fun n => let v := Z.of_nat n in
                    numero (leerTempAnalogica v)
                    && (ord (leerTempAnalogica v) <=? ord (leerTempAnalogica (v + 1))))
          (seq 0 1023) = true.
Proof. vm_compute. reflexivity. Qed.

Lemma leerTempAnalogica_paso (v : Z) :
  0 <= v < 1023 ->
  numero (leerTempAnalogica v) = true
  /\ ord (leerTempAnalogica v) <= ord (leerTempAnalogica (v + 1)).
Proof.
  intros H. pose proof leerTempAnalogica_tabla as T.
  rewrite forallb_forall in T.
  specialize (T (Z.to_nat v)). cbv zeta in T. rewrite Z2Nat.id in T by lia.
  assert (I : In (Z.to_nat v) (seq 0 1023)) by (apply in_seq; lia).
  apply T in I. apply andb_true_iff in I. destruct I as (I1 & I2).
  split; [exact I1 | apply Z.leb_le; exact I2].
Qed.

Lemma leerTempAnalogica_numero (v : Z) :
  0 <= v <= 1023 -> numero (leerTempAnalogica v) = true.
Proof.
  intros H. destruct (Z.eq_dec v 1023) as [->|Hn]; [vm_compute; reflexivity|].
  apply leerTempAnalogica_paso. lia.
Qed.

Lemma leerTempAnalogica_creciente (v1 v2 : Z) :
  0 <= v1 -> v1 <= v2 -> v2 <= 1023 ->
  ord (leerTempAnalogica v1) <= ord (leerTempAnalogica v2).
Proof.
  intros H0 H1 H2.
  replace v2 with (v1 + Z.of_nat (Z.to_nat (v2 - v1))) by lia.
  assert (Hn : v1 + Z.of_nat (Z.to_nat (v2 - v1)) <= 1023) by lia.
  induction (Z.to_nat (v2 - v1)) as [|n IH].
  - rewrite Z.add_0_r. lia.
  - rewrite Nat2Z.inj_succ in *.
    specialize (IH ltac:(lia)).
    destruct (leerTempAnalogica_paso (v1 + Z.of_nat n) ltac:(lia)) as (_ & P).
    replace (v1 + Z.succ (Z.of_nat n)) with (v1 + Z.of_nat n + 1) by lia. lia.
Qed.

(** X5. Analog temperature.  Over the range 0..1023 of the converter,
    [leerTempAnalogica] is a finite number between 0 and 50 that never
    decreases when the reading grows; the reading 0 gives exactly 0 and the
    reading 1023 exactly 50. *)
Theorem leerTempAnalogica_convertidor (v1 v2 : Z) :
  0 <= v1 -> v1 <= v2 -> v2 <= 1023 ->
  numero (leerTempAnalogica v1) = true
  /\ F32.le (F32.of_Z 0) (leerTempAnalogica v1) = true
  /\ F32.le (leerTempAnalogica v1) (leerTempAnalogica v2) = true
  /\ F32.le (leerTempAnalogica v2) (F32.of_Z 50) = true
  /\ leerTempAnalogica 0 = F32.of_Z 0 /\ leerTempAnalogica 1023 = F32.of_Z 50.
Proof.
  intros H0 H1 H2.
  assert (N1 : numero (leerTempAnalogica v1) = true) by (apply leerTempAnalogica_numero; lia).
  assert (N2 : numero (leerTempAnalogica v2) = true) by (apply leerTempAnalogica_numero; lia).
  destruct (numero_bien _ N1) as (B1 & _). destruct (numero_bien _ N2) as (B2 & _).
  assert (E0 : leerTempAnalogica 0 = F32.of_Z 0) by (vm_compute; reflexivity).
  assert (E9 : leerTempAnalogica 1023 = F32.of_Z 50) by (vm_compute; reflexivity).
  pose proof (leerTempAnalogica_creciente 0 v1 ltac:(lia) H0 ltac:(lia)) as L0.
  pose proof (leerTempAnalogica_creciente v1 v2 H0 H1 H2) as L1.
  pose proof (leerTempAnalogica_creciente v2 1023 ltac:(lia) H2 ltac:(lia)) as L2.
  rewrite E0 in L0. rewrite E9 in L2.
  unfold F32.le.
  rewrite (SFleb_ord _ _ (of_Z_bien 0) B1), (SFleb_ord _ _ B1 B2),
    (SFleb_ord _ _ B2 (of_Z_bien 50)).
  repeat split; try (apply Z.leb_le; assumption); assumption.
Qed.

Lemma leerTempAnalogica_convertidor_testigo :
  F32.le (leerTempAnalogica 471) (leerTempAnalogica 573) = true.
Proof.
  refine (proj1 (proj2 (proj2 (leerTempAnalogica_convertidor 471 573 _ _ _)))); lia.
Defined.

(** ** Index of one CONFORT iteration *)

Lemma pmvDeEntrada_cotas (e : Entrada) :
  F32.isnan (lecturaTDHT e) = true \/ numero (lecturaTDHT e) = true ->
  F32.isnan (lecturaH e) = true \/ numero (lecturaH e) = true ->
  0 <= lecturaTemp e <= 1023 ->
  numero (pmvDeEntrada e) = true
  /\ F32.le (F32.opp (F32.lit 20 10)) (pmvDeEntrada e) = true
  /\ F32.le (pmvDeEntrada e) (F32.lit 20 10) = true.
Proof.
  intros HT HH HV. unfold pmvDeEntrada. cbv zeta.
  pose proof (leerTempAnalogica_numero _ HV) as NA.
  destruct (F32.isnan (lecturaTDHT e)) eqn:ET; cbn [orb].
  { apply calcularPMV_cotas; [vm_compute; reflexivity | exact NA | vm_compute; reflexivity]. }
  destruct HT as [HT | HT]; [discriminate|].
  destruct (F32.isnan (lecturaH e)) eqn:EH.
  { apply calcularPMV_cotas; [vm_compute; reflexivity | exact NA | vm_compute; reflexivity]. }
  destruct HH as [HH | HH]; [discriminate|].
  apply calcularPMV_cotas; assumption.
Qed.

(** ** Monotonicity in the analog temperature *)

Lemma SFadd_monotona_izq (a : spec_float) :
  bien a -> F32.is_finite a = true -> monotona (fun x => SFadd 24 128 a x).
Proof.
  intros Ba Fa. apply (monotona_por_patron _ escalaK (exactoK escalaK a)).
  - unfold escalaK. lia.
  - intros x Bx Fx. destruct (SFadd_patron a x Ba Bx Fa Fx) as (B & E).
    split; [exact B|]. rewrite E. f_equal. lia.
  - intros s. destruct a as [sa|sa| |sa ma ea]; try discriminate; reflexivity.
Qed.

Lemma calcularPMV_monotona_tAnalog (tD h : float) (luz : Z) :
  numero tD = true -> numero h = true ->
  monotona (fun t => calcularPMV tD t h luz).
Proof.
  intros ND NH.
  destruct (numero_bien tD ND) as (BD & FD).
  destruct (factorHumedad_numero h NH) as (BH & FH).
  destruct (factorLuz_numero luz) as (BL & FL).
  unfold calcularPMV, tProm.
  generalize (factorHumedad h) BH FH. intros fH BfH FfH.
  generalize (factorLuz luz) BL FL. intros fL BfL FfL.
  assert (E2 : F32.lit 20 10 = dos) by (vm_compute; reflexivity).
  assert (E4 : F32.lit 25 100 = un_cuarto) by (vm_compute; reflexivity).
  assert (E23 : F32.lit 230 10 = S754_finite false 12058624 (-19)) by (vm_compute; reflexivity).
  rewrite E2, E4, E23.
  assert (B23 : bien (S754_finite false 12058624 (-19))) by (split; vm_compute; reflexivity).
  assert (Blo : bien (F32.opp dos)) by (split; vm_compute; reflexivity).
  assert (Bhi : bien dos) by (split; vm_compute; reflexivity).
  assert (Hlh : ord (F32.opp dos) <= ord dos) by (vm_compute; intros; discriminate).
  unfold F32.add, F32.sub, F32.mul, F32.div, F32.prec, F32.emax.
  pose proof (SFadd_monotona_izq tD BD FD) as M1.
  pose proof (monotona_comp _ _ M1 SFdiv_dos_monotona) as M2.
  pose proof (monotona_comp _ _ M2 (SFsub_monotona false 12058624 (-19) B23)) as M3.
  pose proof (monotona_comp _ _ M3 SFmul_cuarto_monotona) as M4.
  pose proof (monotona_comp _ _ M4 (SFadd_monotona fH BfH FfH)) as M5.
  pose proof (monotona_comp _ _ M5 (SFadd_monotona fL BfL FfL)) as M6.
  pose proof (monotona_comp _ _ M6 (acotar_monotona _ _ Blo Bhi Hlh)) as M7.
  exact M7.
Qed.

(** X6. Range of the index.  For finite readings [calcularPMV] returns a
    finite number between -2.0 and 2.0: no rounding of the computation and
    no overflow of an intermediate result escapes the final clamp. *)
Theorem calcularPMV_acotado (tDHT tAnalog h : float) (luz : Z) :
  numero tDHT = true -> numero tAnalog = true -> numero h = true ->
  numero (calcularPMV tDHT tAnalog h luz) = true
  /\ F32.le (F32.opp (F32.lit 20 10)) (calcularPMV tDHT tAnalog h luz) = true
  /\ F32.le (calcularPMV tDHT tAnalog h luz) (F32.lit 20 10) = true.
Proof. intros NT NA NH. exact (calcularPMV_cotas tDHT tAnalog h luz NT NA NH). Qed.

Lemma calcularPMV_acotado_testigo :
  F32.le (calcularPMV (F32.of_Z 1000000) (F32.of_Z 28) (F32.of_Z 95) 1023) (F32.lit 20 10)
  = true.
Proof.
  refine (proj2 (proj2 (calcularPMV_acotado (F32.of_Z 1000000) (F32.of_Z 28) (F32.of_Z 95)
                          1023 _ _ _))); vm_compute; reflexivity.
Defined.

(** X7. Index of a CONFORT iteration.  When each DHT reading is NaN or a
    finite number and the analog reading lies in 0..1023, the index computed
    from the sensors is a finite number between -2.0 and 2.0: a failed DHT
    read, replaced by 25.0 and 50.0, never lets a NaN reach the actuators
    and the alarms. *)
Theorem pmvDeEntrada_acotado (e : Entrada) :
  F32.isnan (lecturaTDHT e) = true \/ numero (lecturaTDHT e) = true ->
  F32.isnan (lecturaH e) = true \/ numero (lecturaH e) = true ->
  0 <= lecturaTemp e <= 1023 ->
  numero (pmvDeEntrada e) = true
  /\ F32.le (F32.opp (F32.lit 20 10)) (pmvDeEntrada e) = true
  /\ F32.le (pmvDeEntrada e) (F32.lit 20 10) = true.
Proof. exact (pmvDeEntrada_cotas e). Qed.

Lemma pmvDeEntrada_acotado_testigo :
  numero (pmvDeEntrada (conSensores 0 NO_KEY S754_nan (F32.of_Z 80) 1023 0)) = true.
Proof.
  refine (proj1 (pmvDeEntrada_acotado (conSensores 0 NO_KEY S754_nan (F32.of_Z 80) 1023 0)
                   _ _ _)).
  - left. reflexivity.
  - right. vm_compute. reflexivity.
  - simpl. lia.
Defined.

(** X8. Monotonicity in the analog temperature.  With the other inputs
    fixed and finite, a greater or equal analog temperature gives a greater
    or equal index; in particular a greater reading of the converter, within
    0..1023, never lowers the index. *)
Theorem pmv_monotono_en_tAnalog (tDHT t1 t2 h : float) (luz v1 v2 : Z) :
  numero tDHT = true -> numero h = true ->
  (numero t1 = true -> numero t2 = true -> F32.le t1 t2 = true ->
   F32.le (calcularPMV tDHT t1 h luz) (calcularPMV tDHT t2 h luz) = true)
  /\ (0 <= v1 -> v1 <= v2 -> v2 <= 1023 ->
      F32.le (calcularPMV tDHT (leerTempAnalogica v1) h luz)
             (calcularPMV tDHT (leerTempAnalogica v2) h luz) = true).
Proof.
  intros ND NH.
  pose proof (calcularPMV_monotona_tAnalog tDHT h luz ND NH) as M.
  split.
  - intros N1 N2 H.
    destruct (numero_bien t1 N1) as (B1 & _). destruct (numero_bien t2 N2) as (B2 & _).
    unfold F32.le in H. rewrite (SFleb_ord _ _ B1 B2) in H. apply Z.leb_le in H.
    destruct (M t1 t2 B1 B2 H) as (R1 & R2 & R3).
    unfold F32.le. rewrite (SFleb_ord _ _ R1 R2). apply Z.leb_le. exact R3.
  - intros H0 H1 H2.
    destruct (numero_bien _ (leerTempAnalogica_numero v1 ltac:(lia))) as (B1 & _).
    destruct (numero_bien _ (leerTempAnalogica_numero v2 ltac:(lia))) as (B2 & _).
    pose proof (leerTempAnalogica_creciente v1 v2 H0 H1 H2) as H.
    destruct (M _ _ B1 B2 H) as (R1 & R2 & R3).
    unfold F32.le. rewrite (SFleb_ord _ _ R1 R2). apply Z.leb_le. exact R3.
Qed.

Lemma pmv_monotono_en_tAnalog_testigo :
  F32.le (calcularPMV (F32.of_Z 25) (leerTempAnalogica 400) (F32.of_Z 50) 300)
         (calcularPMV (F32.of_Z 25) (leerTempAnalogica 600) (F32.of_Z 50) 300) = true.
Proof.
  refine (proj2 (pmv_monotono_en_tAnalog (F32.of_Z 25) (F32.of_Z 0) (F32.of_Z 0)
                   (F32.of_Z 50) 300 400 600 _ _) _ _ _);
    try (vm_compute; reflexivity); lia.
Defined.

(** ** Band as a function of the index *)

Lemma umbrales_ord :
  (bien (F32.lit 8 10) /\ ord (F32.lit 8 10) = 1061997773)
  /\ (bien (F32.lit 6 10) /\ ord (F32.lit 6 10) = 1058642330)
  /\ (bien (F32.lit 4 10) /\ ord (F32.lit 4 10) = 1053609165)
  /\ (bien (F32.lit 3 10) /\ ord (F32.lit 3 10) = 1050253722)
  /\ (bien (F32.opp (F32.lit 4 10)) /\ ord (F32.opp (F32.lit 4 10)) = -1053609165)
  /\ (bien (F32.opp (F32.lit 6 10)) /\ ord (F32.opp (F32.lit 6 10)) = -1058642330)
  /\ (bien (F32.opp (F32.lit 8 10)) /\ ord (F32.opp (F32.lit 8 10)) = -1061997773).
Proof. repeat split; vm_compute; reflexivity. Qed.

(** The band selection written on the positions of the values. *)
Lemma nuevoEstado_ord (b : EstadoPMV) (p : float) :
  bien p ->
  nuevoEstado b p =
  let x := ord p in
  if 1061997773 <? x then PMV_MUY_CALOR
  else if 1053609165 <? x then
    if negb (EstadoPMV_eqb b PMV_MUY_CALOR) || (x <? 1058642330) then PMV_CALOR else b
  else if (-1053609165 <=? x) && (x <=? 1053609165) then PMV_CONFORT
  else if (x <? 1050253722) && (-1061997773 <=? x) then
    if negb (EstadoPMV_eqb b PMV_MUY_BAJO) || (-1058642330 <? x) then PMV_BAJO else b
  else if x <? -1061997773 then PMV_MUY_BAJO
  else b.
Proof.
  intros Bp.
  destruct umbrales_ord as ((B8 & E8) & (B6 & E6) & (B4 & E4) & (B3 & E3)
                            & (N4 & F4) & (N6 & F6) & (N8 & F8)).
  unfold nuevoEstado, F32.gt, F32.lt, F32.ge, F32.le.
  rewrite (SFltb_ord _ _ B8 Bp), (SFltb_ord _ _ B4 Bp), (SFltb_ord _ _ Bp B6),
    (SFleb_ord _ _ N4 Bp), (SFleb_ord _ _ Bp B4), (SFltb_ord _ _ Bp B3),
    (SFleb_ord _ _ N8 Bp), (SFltb_ord _ _ N6 Bp), (SFltb_ord _ _ Bp N8).
  rewrite E8, E6, E4, E3, F4, F6, F8. reflexivity.
Qed.

Lemma nuevoEstado_creciente_ord (b : EstadoPMV) (p1 p2 : float) :
  bien p1 -> bien p2 -> ord p1 <= ord p2 ->
  valorEstadoPMV (nuevoEstado b p1) <= valorEstadoPMV (nuevoEstado b p2).
Proof.
  intros B1 B2 H. rewrite (nuevoEstado_ord b p1 B1), (nuevoEstado_ord b p2 B2).
  cbv zeta. generalize dependent (ord p2). generalize (ord p1). clear.
  intros x y H.
  repeat (match goal with
          | |- context [?a <? ?b] => destruct (Z.ltb_spec a b)
          | |- context [?a <=? ?b] => destruct (Z.leb_spec a b)
          end; try (exfalso; lia));
    cbn [andb orb negb];
    destruct b; cbn [EstadoPMV_eqb andb orb negb valorEstadoPMV]; lia.
Qed.

Lemma le_ord (p1 p2 : float) :
  numero p1 = true -> numero p2 = true -> F32.le p1 p2 = true ->
  bien p1 /\ bien p2 /\ ord p1 <= ord p2.
Proof.
  intros N1 N2 H. destruct (numero_bien p1 N1) as (B1 & _).
  destruct (numero_bien p2 N2) as (B2 & _).
  unfold F32.le in H. rewrite (SFleb_ord _ _ B1 B2) in H. apply Z.leb_le in H.
  split; [exact B1 | split; [exact B2 | exact H]].
Qed.

(** X9. Band and index.  From the same state, a greater or equal index
    never selects a colder band: with the bands numbered as in the
    enumeration (PMV_MUY_BAJO = 0 ... PMV_MUY_CALOR = 4), the band stored by
    [setActuador] is non-decreasing in the index, hysteresis included. *)
Theorem banda_creciente_en_pmv (s : Sistema) (p1 p2 : float) :
  numero p1 = true -> numero p2 = true -> F32.le p1 p2 = true ->
  valorEstadoPMV (estadoPMVActual (setActuador p1 s))
  <= valorEstadoPMV (estadoPMVActual (setActuador p2 s)).
Proof.
  intros N1 N2 H. destruct (le_ord p1 p2 N1 N2 H) as (B1 & B2 & L).
  destruct (setActuador_banda p1 s) as (E1 & _).
  destruct (setActuador_banda p2 s) as (E2 & _).
  rewrite E1, E2. apply nuevoEstado_creciente_ord; assumption.
Qed.

Lemma banda_creciente_en_pmv_testigo :
  valorEstadoPMV (estadoPMVActual (setActuador (F32.lit 5 10) (set_estadoPMVActual PMV_MUY_CALOR inicial)))
  <= valorEstadoPMV (estadoPMVActual (setActuador (F32.lit 65 100) (set_estadoPMVActual PMV_MUY_CALOR inicial))).
Proof.
  apply banda_creciente_en_pmv; vm_compute; reflexivity.
Defined.

(** X10. Band and temperature.  From the same state and with the other
    readings fixed, a greater or equal temperature, on the DHT sensor or on
    the analog one, never makes [calcularPMV] followed by [setActuador]
    select a colder band. *)
Theorem banda_creciente_en_temperatura (s : Sistema) (t1 t2 tAnalog h : float) (luz : Z) :
  numero t1 = true -> numero t2 = true -> numero tAnalog = true -> numero h = true ->
  F32.le t1 t2 = true ->
  valorEstadoPMV (estadoPMVActual (setActuador (calcularPMV t1 tAnalog h luz) s))
  <= valorEstadoPMV (estadoPMVActual (setActuador (calcularPMV t2 tAnalog h luz) s))
  /\ valorEstadoPMV (estadoPMVActual (setActuador (calcularPMV tAnalog t1 h luz) s))
     <= valorEstadoPMV (estadoPMVActual (setActuador (calcularPMV tAnalog t2 h luz) s)).
Proof.
  intros N1 N2 NA NH H. destruct (le_ord t1 t2 N1 N2 H) as (B1 & B2 & L).
  split.
  - destruct (calcularPMV_monotona tAnalog h luz NA NH t1 t2 B1 B2 L) as (R1 & R2 & R3).
    destruct (setActuador_banda (calcularPMV t1 tAnalog h luz) s) as (E1 & _).
    destruct (setActuador_banda (calcularPMV t2 tAnalog h luz) s) as (E2 & _).
    rewrite E1, E2. apply nuevoEstado_creciente_ord; assumption.
  - destruct (calcularPMV_monotona_tAnalog tAnalog h luz NA NH t1 t2 B1 B2 L) as (R1 & R2 & R3).
    destruct (setActuador_banda (calcularPMV tAnalog t1 h luz) s) as (E1 & _).
    destruct (setActuador_banda (calcularPMV tAnalog t2 h luz) s) as (E2 & _).
    rewrite E1, E2. apply nuevoEstado_creciente_ord; assumption.
Qed.

Lemma banda_creciente_en_temperatura_testigo :
  valorEstadoPMV (estadoPMVActual
                    (setActuador (calcularPMV (F32.of_Z 22) (F32.of_Z 24) (F32.of_Z 50) 300)
                                 inicial))
  <= valorEstadoPMV (estadoPMVActual
                       (setActuador (calcularPMV (F32.of_Z 29) (F32.of_Z 24) (F32.of_Z 50) 300)
                                    inicial)).
Proof.
  refine (proj1 (banda_creciente_en_temperatura inicial (F32.of_Z 22) (F32.of_Z 29)
                   (F32.of_Z 24) (F32.of_Z 50) 300 _ _ _ _ _)); vm_compute; reflexivity.
Defined.

(** ** Registry and session *)

Lemma actualizarServo_sesion (a : Z) (s : Sistema) :
  sesion (actualizarServo a s) = sesion s.
Proof.
  unfold actualizarServo.
  destruct (negb (a =? servoAnguloDeseado s)); simpl; destruct (_ && _); reflexivity.
Qed.

Lemma setActuador_sesion (p : float) (s : Sistema) :
  sesion (setActuador p s) = sesion s.
Proof.
  unfold setActuador.
  set (s1 := if negb _ then _ else s).
  assert (H1 : sesion s1 = sesion s) by (unfold s1; destruct (negb _); reflexivity).
  rewrite <- H1. clearbody s1.
  destruct (estadoPMVActual s1);
    match goal with
    | |- context [actualizarServo ?a ?t] =>
        pose proof (actualizarServo_sesion a t) as G;
        set (u := actualizarServo a t) in *; clearbody u
    end;
    change (sesion (digitalWrite_RELAY _ s1)) with (sesion s1) in G;
    rewrite <- G; romper; reflexivity.
Qed.

Lemma checkAlarm_sesion (p : float) (s : Sistema) : sesion (checkAlarm p s) = sesion s.
Proof. unfold checkAlarm, triggerAlarm, stopAlarm. romper; reflexivity. Qed.

Lemma checkPmvBajo_sesion (p : float) (s : Sistema) : sesion (checkPmvBajo p s) = sesion s.
Proof. unfold checkPmvBajo, triggerPmvBajo, stopPmvBajo. romper; reflexivity. Qed.

Lemma alarmHandler_sesion (s : Sistema) : sesion (alarmHandler s) = sesion s.
Proof. unfold alarmHandler. romper; reflexivity. Qed.

Lemma pmvBajoHandler_sesion (s : Sistema) : sesion (pmvBajoHandler s) = sesion s.
Proof. unfold pmvBajoHandler. romper; reflexivity. Qed.

Lemma salida_marco (k : ascii) (s t s' : Sistema) :
  sesion t = sesion s -> salida k t s' -> salida k s s'.
Proof.
  unfold sesion, salida. intros H. injection H as H1 H2 H3 H4 H5 H6 H7.
  rewrite H1, H2, H3, H4, H5, H6, H7. auto.
Qed.

Lemma confortConAlarma_salida (k : ascii) (s : Sistema) :
  salida k s (confortConAlarma k s).
Proof.
  apply (salida_marco k s (alarmHandler s)); [apply alarmHandler_sesion|].
  unfold confortConAlarma. set (sa := alarmHandler s). clearbody sa.
  unfold salida, stopAlarm, stopPmvBajo. destruct sa. campos.
  destruct (Ascii.eqb k "#"); destruct (Ascii.eqb k "*"); campos;
    romper; campos; repeat split; auto.
Qed.

Lemma confortConPmvBajo_salida (k : ascii) (s : Sistema) :
  salida k s (confortConPmvBajo k s).
Proof.
  apply (salida_marco k s (pmvBajoHandler s)); [apply pmvBajoHandler_sesion|].
  unfold confortConPmvBajo. set (sa := pmvBajoHandler s). clearbody sa.
  unfold salida. destruct (Ascii.eqb k "#"); repeat split; auto.
Qed.

Lemma confortSinAlerta_salida (k : ascii) (s : Sistema) :
  salida k s (confortSinAlerta k s).
Proof.
  unfold confortSinAlerta, salida. destruct (Ascii.eqb k "#"); repeat split; auto.
Qed.

Lemma modoConfort_salida (e : Entrada) (s : Sistema) :
  salida (tecla e) s (modoConfort e s).
Proof.
  unfold modoConfort.
  set (p := pmvDeEntrada e). change (pmv (set_pmv p s)) with p.
  pose proof (setActuador_sesion p (set_pmv p s)) as A.
  change (sesion (set_pmv p s)) with (sesion s) in A.
  set (s2 := setActuador p (set_pmv p s)) in *. clearbody s2.
  pose proof (checkAlarm_sesion (pmv s2) s2) as B.
  set (s3 := checkAlarm (pmv s2) s2) in *. clearbody s3.
  pose proof (checkPmvBajo_sesion (pmv s3) s3) as C.
  set (s4 := checkPmvBajo (pmv s3) s3) in *. clearbody s4.
  apply (salida_marco _ s s4); [congruence|].
  destruct (alarmActive s4); [apply confortConAlarma_salida|].
  destruct (pmvBajoActive s4); [apply confortConPmvBajo_salida | apply confortSinAlerta_salida].
Qed.

(** ** Search and update of the registry *)

Lemma buscarTag_encontrado (t : string) (us : list Usuario) :
  forall total i j, buscarTag us total i t = Some j ->
  (i <= j < i + total)%nat /\ (j - i < List.length us)%nat
  /\ tag (nth (j - i) us usuarioVacio) = t
  /\ forall k, (k < j - i)%nat -> tag (nth k us usuarioVacio) <> t.
Proof.
  induction us as [|u us IH]; intros total i j H.
  - destruct total; discriminate H.
  - destruct total as [|total]; [discriminate H|]. cbn [buscarTag] in H.
    destruct (String.eqb (tag u) t) eqn:E.
    + injection H as <-. apply String.eqb_eq in E.
      replace (i - i)%nat with 0%nat by lia. cbn [nth List.length].
      repeat split; try lia. exact E.
    + apply String.eqb_neq in E. destruct (IH _ _ _ H) as (A & B & C & D).
      replace (j - i)%nat with (S (j - S i)) by lia. cbn [nth List.length].
      repeat split; try lia; [exact C|].
      intros [|k] Hk; cbn [nth]; [exact E | apply D; lia].
Qed.

Lemma buscarTag_ausente (t : string) (us : list Usuario) :
  forall total i, buscarTag us total i t = None ->
  forall k, (k < total)%nat -> (k < List.length us)%nat -> tag (nth k us usuarioVacio) <> t.
Proof.
  induction us as [|u us IH]; intros total i H k Hk Hl; [simpl in Hl; lia|].
  destruct total as [|total]; [lia|]. cbn [buscarTag] in H.
  destruct (String.eqb (tag u) t) eqn:E; [discriminate H|].
  apply String.eqb_neq in E.
  destruct k as [|k]; cbn [nth]; [exact E|].
  apply (IH total (S i) H); simpl in Hl; lia.
Qed.

Lemma ponerUsuario_longitud (u : Usuario) (us : list Usuario) :
  forall i, List.length (ponerUsuario i u us) = List.length us.
Proof.
  induction us as [|x us IH]; intros i; [destruct i; reflexivity|].
  destruct i; cbn [ponerUsuario List.length]; [reflexivity | now rewrite IH].
Qed.

Lemma ponerUsuario_nth (u : Usuario) (us : list Usuario) :
  forall i k, (i < List.length us)%nat ->
  nth k (ponerUsuario i u us) usuarioVacio
  = if Nat.eqb k i then u else nth k us usuarioVacio.
Proof.
  induction us as [|x us IH]; intros i k H; [simpl in H; lia|].
  destruct i as [|i]; destruct k as [|k]; cbn [ponerUsuario nth Nat.eqb]; try reflexivity.
  apply IH. simpl in H. lia.
Qed.

Lemma repetir_pitido_sesion (n : nat) (p : Z) :
  forall s, sesion (repetir n (pitido p) s) = sesion s.
Proof.
  induction n as [|n IH]; intros s; simpl; [reflexivity|].
  rewrite IH. reflexivity.
Qed.

Lemma esperarTag_sesion (l : list string) :
  forall s t s', esperarTag l s = Some (t, s') -> sesion s' = sesion s /\ t <> EmptyString.
Proof.
  induction l as [|x l IH]; intros s t s' H; simpl in H; [discriminate|].
  destruct (String.eqb x EmptyString) eqn:E.
  - destruct (IH _ _ _ H) as (A & B). split; [rewrite A; reflexivity | exact B].
  - injection H as <- <-. split; [reflexivity | apply String.eqb_neq; exact E].
Qed.

Lemma verificarDesbloqueo_sesion (s : Sistema) :
  let s' := verificarDesbloqueo s in
  usuarios s' = usuarios s /\ totalUsuarios s' = totalUsuarios s
  /\ intentosFallidos s' = intentosFallidos s
  /\ ((estado s' = estado s /\ usuarioActivo s' = usuarioActivo s)
      \/ (estado s' = MENU /\ usuarioActivo s' = None)).
Proof.
  unfold verificarDesbloqueo. romper; repeat split; auto.
Qed.

(** Effect of a registration that returns. *)
Lemma registrarPorTag_efecto (e : Entrada) (s s' : Sistema) :
  registrarPorTag e s = Some s' ->
  (2 <= totalUsuarios s /\ sesion s' = sesion s)
  \/ (totalUsuarios s < 2
      /\ exists t s0 nom cl,
           esperarTag (lecturasTag e) s = Some (t, s0)
           /\ leerTexto (teclasTexto e) EmptyString = Some nom
           /\ leerClave (teclasClave e) EmptyString = Some cl
           /\ usuarios s'
              = ponerUsuario (Z.to_nat (totalUsuarios s)) (mkUsuario nom t cl) (usuarios s)
           /\ totalUsuarios s' = totalUsuarios s + 1
           /\ intentosFallidos s' = intentosFallidos s
           /\ sistemaBloqueado s' = sistemaBloqueado s
           /\ ((estado s' = CONFORT
                /\ usuarioActivo s' = Some (Z.to_nat (totalUsuarios s)))
               \/ (estado s' = MENU /\ usuarioActivo s' = usuarioActivo s))).
Proof.
  intros H. destruct s. unfold registrarPorTag in H. campos_en H. campos.
  destruct (2 <=? _) eqn:Et.
  { injection H as H. subst s'. left. split; [apply Z.leb_le; exact Et | reflexivity]. }
  apply Z.leb_gt in Et. right. split; [exact Et|].
  destruct (esperarTag (lecturasTag e) _) as [[t s1]|] eqn:E1; [|discriminate].
  pose proof (esperarTag_sesion _ _ _ _ E1) as (S1 & _).
  destruct (leerTexto _ _) as [nom|]; [|discriminate].
  destruct (leerClave _ _) as [cl|]; [|discriminate].
  exists t, s1, nom, cl.
  split; [reflexivity|]. split; [reflexivity|]. split; [reflexivity|].
  destruct s1. unfold sesion in S1. campos_en S1. injection S1 as A1 A2 A3 A4 A5 A6 A7.
  subst. campos_en H.
  destruct (esperarTag (lecturasConfirm e) _) as [[tc s3]|] eqn:E3; [|discriminate].
  pose proof (esperarTag_sesion _ _ _ _ E3) as (S3 & _).
  destruct s3. unfold sesion in S3. campos_en S3. injection S3 as B1 B2 B3 B4 B5 B6 B7.
  subst.
  destruct (String.eqb tc t); campos_en H; injection H as H; subst s'; campos.
  - repeat split. left. split; [reflexivity|]. f_equal. f_equal. lia.
  - repeat split. right. split; reflexivity.
Qed.

(** Effect of a PIN check that returns. *)
Lemma loginConTag_casos (i : nat) (e : Entrada) (s : Sistema) :
  match loginConTag i e s with
  | None => True
  | Some s' =>
      exists cl,
        leerClave (teclasClave e) EmptyString = Some cl
        /\ usuarios s' = usuarios s /\ totalUsuarios s' = totalUsuarios s
        /\ usuarioActivo s' = Some i
        /\ ((cl = clave (nth i (usuarios s) usuarioVacio)
             /\ estado s' = CONFORT /\ intentosFallidos s' = 0
             /\ sistemaBloqueado s' = sistemaBloqueado s)
            \/ (cl <> clave (nth i (usuarios s) usuarioVacio)
                /\ estado s' = MENU
                /\ ((intentosFallidos s + 1 < 3
                     /\ intentosFallidos s' = intentosFallidos s + 1
                     /\ sistemaBloqueado s' = sistemaBloqueado s)
                    \/ (3 <= intentosFallidos s + 1
                        /\ intentosFallidos s' = 0 /\ sistemaBloqueado s' = true))))
  end.
Proof.
  destruct s. unfold loginConTag. campos.
  destruct (leerClave _ _) as [cl|]; [|exact I].
  destruct (String.eqb cl _) eqn:E.
  - apply String.eqb_eq in E. exists cl. campos.
    repeat split. left. repeat split. exact E.
  - apply String.eqb_neq in E.
    destruct (3 <=? _) eqn:E3.
    + unfold bloqueoSistema. campos. exists cl.
      split; [reflexivity|]. split; [reflexivity|]. split; [reflexivity|].
      split; [reflexivity|].
      right. split; [exact E|]. split; [reflexivity|].
      right. apply Z.leb_le in E3. split; [exact E3|]. split; reflexivity.
    + campos. exists cl.
      split; [reflexivity|]. split; [reflexivity|]. split; [reflexivity|].
      split; [reflexivity|].
      right. split; [exact E|]. split; [reflexivity|].
      left. apply Z.leb_gt in E3. split; [exact E3|]. split; reflexivity.
Qed.

Lemma loginConTag_efecto (i : nat) (e : Entrada) (s s' : Sistema) :
  loginConTag i e s = Some s' ->
  exists cl,
    leerClave (teclasClave e) EmptyString = Some cl
    /\ usuarios s' = usuarios s /\ totalUsuarios s' = totalUsuarios s
    /\ usuarioActivo s' = Some i
    /\ ((cl = clave (nth i (usuarios s) usuarioVacio)
         /\ estado s' = CONFORT /\ intentosFallidos s' = 0
         /\ sistemaBloqueado s' = sistemaBloqueado s)
        \/ (cl <> clave (nth i (usuarios s) usuarioVacio)
            /\ estado s' = MENU
            /\ ((intentosFallidos s + 1 < 3
                 /\ intentosFallidos s' = intentosFallidos s + 1
                 /\ sistemaBloqueado s' = sistemaBloqueado s)
                \/ (3 <= intentosFallidos s + 1
                    /\ intentosFallidos s' = 0 /\ sistemaBloqueado s' = true)))).
Proof.
  intros H. pose proof (loginConTag_casos i e s) as P. rewrite H in P. exact P.
Qed.

(** The registry and session invariant holds at start-up and is kept by
    every iteration of [loop()]. *)
Lemma registroValido_marco (s s' : Sistema) :
  usuarios s' = usuarios s -> totalUsuarios s' = totalUsuarios s ->
  intentosFallidos s' = intentosFallidos s \/ intentosFallidos s' = 0 ->
  (usuarioActivo s' = usuarioActivo s /\ (estado s' = estado s \/ estado s' <> CONFORT))
  \/ (usuarioActivo s' = None /\ estado s' <> CONFORT) ->
  registroValido s -> registroValido s'.
Proof.
  intros U T I A (L & T0 & Z0 & I0 & A0). unfold registroValido.
  rewrite U, T. split; [exact L|]. split; [exact T0|]. split; [exact Z0|].
  split; [destruct I as [-> | ->]; lia|].
  destruct A as [(A1 & A2) | (A1 & A2)]; rewrite A1; [|exact A2].
  destruct (usuarioActivo s); [exact A0|].
  destruct A2 as [-> | A2]; assumption.
Qed.

Lemma loop_registroValido (e : Entrada) (s s' : Sistema) :
  registroValido s -> loop e s = Some s' -> registroValido s'.
Proof.
  intros R H. unfold loop in H.
  pose proof (verificarDesbloqueo_sesion (delay (transcurrido e) s)) as V. cbv zeta in V.
  set (s1 := verificarDesbloqueo (delay (transcurrido e) s)) in *.
  change (usuarios (delay (transcurrido e) s)) with (usuarios s) in V.
  change (totalUsuarios (delay (transcurrido e) s)) with (totalUsuarios s) in V.
  change (intentosFallidos (delay (transcurrido e) s)) with (intentosFallidos s) in V.
  change (estado (delay (transcurrido e) s)) with (estado s) in V.
  change (usuarioActivo (delay (transcurrido e) s)) with (usuarioActivo s) in V.
  clearbody s1. destruct V as (V1 & V2 & V3 & V4).
  assert (R1 : registroValido s1).
  { apply (registroValido_marco s s1 V1 V2 (or_introl V3)); [|exact R].
    destruct V4 as [(V4 & V5) | (V4 & V5)]; [left; auto | right].
    split; [exact V5 | rewrite V4; discriminate]. }
  clear R V1 V2 V3 V4.
  destruct (estado s1) eqn:Es.
  - destruct (Ascii.eqb (tecla e) "1").
    { injection H as H. subst s'.
      apply (fun a b c d => registroValido_marco s1 _ a b c d R1);
        [reflexivity | reflexivity | left; reflexivity |].
      left. split; [reflexivity | right; discriminate]. }
    destruct (Ascii.eqb (tecla e) "2").
    + apply registrarPorTag_efecto in H.
      destruct H as [(_ & H) | (Ht & t & s0 & nom & cl & _ & _ & _ & U & T' & I' & _ & C)].
      * unfold sesion in H. injection H as H1 H2 H3 H4 H5 H6 H7.
        apply (fun d => registroValido_marco s1 _ H1 H2 (or_introl H4) d R1).
        left. split; [exact H3 | left; exact H5].
      * destruct R1 as (L & T & Z0 & I & A).
        assert (Et : totalUsuarios s1 = 1) by lia.
        unfold registroValido. rewrite U, T', I', Et.
        rewrite ponerUsuario_longitud.
        rewrite ponerUsuario_nth by (rewrite L; simpl; lia).
        change (Nat.eqb 0 (Z.to_nat 1)) with false. cbv iota.
        split; [exact L|]. split; [lia|]. split; [exact Z0|]. split; [exact I|].
        destruct C as [(C1 & C2) | (C1 & C2)]; rewrite C2.
        -- simpl. lia.
        -- rewrite C1. destruct (usuarioActivo s1); [lia | discriminate].
    + injection H as H. subst s'. exact R1.
  - destruct (negb _).
    + destruct (buscarTag _ _ _ _) as [i|] eqn:Eb.
      * apply buscarTag_encontrado in Eb. destruct Eb as (Eb & _).
        apply loginConTag_efecto in H.
        destruct H as (cl & _ & U & T' & A' & C).
        destruct R1 as (L & T & Z0 & I & A).
        unfold registroValido. rewrite U, T', A'.
        split; [exact L|]. split; [exact T|]. split; [exact Z0|].
        split; [|lia].
        destruct C as [(_ & _ & C & _) | (_ & _ & [(C0 & C & _) | (_ & C & _)])]; lia.
      * injection H as H. subst s'.
        apply (fun a b c d => registroValido_marco s1 _ a b c d R1);
          [reflexivity | reflexivity | left; reflexivity |].
        left. split; [reflexivity | right; discriminate].
    + injection H as H. subst s'. exact R1.
  - injection H as H. subst s'.
    destruct (modoConfort_salida e s1) as (M1 & M2 & _ & _ & M5).
    destruct (Ascii.eqb (tecla e) "#"); destruct M5 as (M5 & M6 & M7).
    + apply (fun d => registroValido_marco s1 _ M1 M2 M7 d R1).
      right. split; [exact M6 | rewrite M5; discriminate].
    + apply (fun d => registroValido_marco s1 _ M1 M2 (or_introl M7) d R1).
      left. split; [exact M6 | left; exact M5].
Qed.

Lemma inicial_registroValido : registroValido inicial.
Proof.
  unfold registroValido.
  split; [reflexivity|]. split; [vm_compute; split; intros; discriminate|].
  split; [reflexivity|]. split; [vm_compute; split; intros; discriminate|].
  discriminate.
Qed.

Lemma alcanzable_registroValido (s : Sistema) : alcanzable s -> registroValido s.
Proof.
  induction 1 as [|e s s' _ IH Hl].
  - exact inicial_registroValido.
  - exact (loop_registroValido e s s' IH Hl).
Qed.

(** X11. Registry bounds.  In every state the program can reach, the
    registry has its two slots, [totalUsuarios] is 1 or 2 (so that the write
    to [usuarios[totalUsuarios]] of a registration, made only below 2, stays
    inside the array), the first slot still holds the user built into the
    sketch, and [usuarioActivo], when set, points to a registered user. *)
Theorem registro_en_cotas (s : Sistema) :
  alcanzable s ->
  List.length (usuarios s) = 2%nat
  /\ 1 <= totalUsuarios s <= 2
  /\ nth 0 (usuarios s) usuarioVacio = mkUsuario "laura" "5CF8D773" "3456"
  /\ (forall i, usuarioActivo s = Some i -> Z.of_nat i < totalUsuarios s).
Proof.
  intros H. destruct (alcanzable_registroValido s H) as (L & T & Z0 & _ & A).
  split; [exact L|]. split; [exact T|]. split; [exact Z0|].
  intros i E. rewrite E in A. exact A.
Qed.

Lemma registro_en_cotas_testigo : 1 <= totalUsuarios inicial <= 2.
Proof. exact (proj1 (proj2 (registro_en_cotas inicial alc_inicial))). Defined.

(** X12. Failure counter.  Between two iterations of [loop()] the counter of
    failed PIN checks is 0, 1 or 2: the third failure locks the system and
    resets it in the same iteration. *)
Theorem intentos_en_cotas (s : Sistema) :
  alcanzable s -> 0 <= intentosFallidos s <= 2.
Proof.
  intros H. destruct (alcanzable_registroValido s H) as (_ & _ & _ & I & _). exact I.
Qed.

Lemma intentos_en_cotas_testigo : 0 <= intentosFallidos inicial <= 2.
Proof. exact (intentos_en_cotas inicial alc_inicial). Defined.

(** X13. Session and user.  Whenever the program is in CONFORT between
    two iterations there is an active user and it is a registered one, so
    the display of [usuarioActivo->nombre] never needs its fallback there. *)
Theorem confort_con_usuario (s : Sistema) :
  alcanzable s -> estado s = CONFORT ->
  exists i, usuarioActivo s = Some i /\ Z.of_nat i < totalUsuarios s
            /\ (i < List.length (usuarios s))%nat.
Proof.
  intros H E. destruct (alcanzable_registroValido s H) as (L & T & _ & _ & A).
  destruct (usuarioActivo s) as [i|]; [|contradiction].
  exists i. split; [reflexivity|]. split; [exact A|]. rewrite L. lia.
Qed.

(** Entering CONFORT. *)
Lemma loop_entra_confort (e : Entrada) (s s' : Sistema) :
  loop e s = Some s' ->
  let s1 := verificarDesbloqueo (delay (transcurrido e) s) in
  estado s1 <> CONFORT -> estado s' = CONFORT ->
  (estado s1 = LOGIN
   /\ exists i,
        buscarTag (usuarios s) (Z.to_nat (totalUsuarios s)) 0 (tagLeido e) = Some i
        /\ leerClave (teclasClave e) EmptyString
           = Some (clave (nth i (usuarios s) usuarioVacio))
        /\ usuarioActivo s' = Some i /\ intentosFallidos s' = 0
        /\ usuarios s' = usuarios s /\ totalUsuarios s' = totalUsuarios s)
  \/ (estado s1 = MENU /\ tecla e = "2"%char /\ totalUsuarios s < 2
      /\ totalUsuarios s' = totalUsuarios s + 1
      /\ usuarioActivo s' = Some (Z.to_nat (totalUsuarios s))).
Proof.
  intros H s1 Hn Hc. unfold loop in H. fold s1 in H.
  pose proof (verificarDesbloqueo_sesion (delay (transcurrido e) s)) as V. cbv zeta in V.
  fold s1 in V.
  change (usuarios (delay (transcurrido e) s)) with (usuarios s) in V.
  change (totalUsuarios (delay (transcurrido e) s)) with (totalUsuarios s) in V.
  destruct V as (V1 & V2 & _). clearbody s1.
  destruct (estado s1) eqn:Es; [| |contradiction].
  - right. split; [reflexivity|].
    destruct (Ascii.eqb (tecla e) "1") eqn:K1.
    { injection H as H. subst s'. discriminate Hc. }
    destruct (Ascii.eqb (tecla e) "2") eqn:K2.
    + apply Ascii.eqb_eq in K2. split; [exact K2|].
      apply registrarPorTag_efecto in H.
      destruct H as [(_ & H) | (Ht & t & s0 & nom & cl & _ & _ & _ & _ & T' & _ & _ & C)].
      * unfold sesion in H. injection H as _ _ _ _ H _ _. congruence.
      * rewrite V2 in *. split; [exact Ht|]. split; [exact T'|].
        destruct C as [(_ & C) | (C & _)]; [exact C | congruence].
    + injection H as H. subst s'. congruence.
  - left. split; [reflexivity|].
    destruct (negb _).
    + rewrite V1, V2 in H.
      destruct (buscarTag _ _ _ _) as [i|] eqn:Eb.
      * exists i. split; [reflexivity|].
        apply loginConTag_efecto in H.
        destruct H as (cl & Hl & U & T' & A' & C).
        destruct C as [(C1 & _ & C3 & _) | (_ & C & _)]; [|congruence].
        rewrite V1 in *. rewrite V2 in *. subst cl. repeat split; assumption.
      * injection H as H. subst s'. discriminate Hc.
    + injection H as H. subst s'. congruence.
Qed.

(** X14. Access control.  An iteration of [loop()] takes the session into
    CONFORT from another mode only in two ways: in LOGIN, when the tag read
    belongs to a registered user and the PIN typed is that user's PIN (that
    user becomes the active one and the failure counter is reset); or in
    MENU, through a registration started with the key '2' while fewer than
    two users exist (the new user becomes the active one). *)
Theorem acceso_con_credenciales (e : Entrada) (s s' : Sistema) :
  loop e s = Some s' ->
  let s1 := verificarDesbloqueo (delay (transcurrido e) s) in
  estado s1 <> CONFORT -> estado s' = CONFORT ->
  (estado s1 = LOGIN
   /\ exists i,
        buscarTag (usuarios s) (Z.to_nat (totalUsuarios s)) 0 (tagLeido e) = Some i
        /\ leerClave (teclasClave e) EmptyString
           = Some (clave (nth i (usuarios s) usuarioVacio))
        /\ usuarioActivo s' = Some i /\ intentosFallidos s' = 0
        /\ usuarios s' = usuarios s /\ totalUsuarios s' = totalUsuarios s)
  \/ (estado s1 = MENU /\ tecla e = "2"%char /\ totalUsuarios s < 2
      /\ totalUsuarios s' = totalUsuarios s + 1
      /\ usuarioActivo s' = Some (Z.to_nat (totalUsuarios s))).
Proof. exact (loop_entra_confort e s s'). Qed.

Lemma ejecutar_alcanzable (es : list Entrada) :
  forall s s', alcanzable s -> ejecutar es s = Some s' -> alcanzable s'.
Proof.
  induction es as [|e es IH]; intros s s' A H; simpl in H.
  - injection H as <-. exact A.
  - destruct (loop e s) as [s1|] eqn:E; [|discriminate].
    apply (IH s1 s'); [|exact H]. exact (alc_loop e s s1 A E).
Qed.

Lemma trasLogin_alcanzable : alcanzable trasLogin.
Proof.
  apply (ejecutar_alcanzable [conTecla 0 "1"; loginLaura] inicial); [apply alc_inicial|].
  vm_compute. reflexivity.
Qed.

Lemma confort_con_usuario_testigo :
  exists i, usuarioActivo trasLogin = Some i /\ Z.of_nat i < totalUsuarios trasLogin
            /\ (i < List.length (usuarios trasLogin))%nat.
Proof.
  apply confort_con_usuario; [exact trasLogin_alcanzable | vm_compute; reflexivity].
Defined.

Lemma acceso_con_credenciales_testigo :
  exists s i, loop loginLaura (set_estado LOGIN inicial) = Some s
              /\ usuarioActivo s = Some i.
Proof.
  assert (H : loop loginLaura (set_estado LOGIN inicial) = Some trasLogin)
    by (vm_compute; reflexivity).
  destruct (acceso_con_credenciales loginLaura (set_estado LOGIN inicial) trasLogin H)
    as [(_ & i & _ & _ & A & _) | (E & _)].
  - vm_compute. discriminate.
  - vm_compute. reflexivity.
  - exists trasLogin, i. split; [exact H | exact A].
  - vm_compute in E. discriminate E.
Defined.

Lemma buscarTag_poner (t : string) (u : Usuario) (us : list Usuario) :
  forall n i, (n < List.length us)%nat ->
  buscarTag (ponerUsuario n u us) (S n) i t
  = match buscarTag us n i t with
    | Some j => Some j
    | None => if String.eqb (tag u) t then Some (i + n)%nat else None
    end.
Proof.
  induction us as [|x us IH]; intros n i H; [simpl in H; lia|].
  destruct n as [|n].
  - cbn [ponerUsuario buscarTag]. rewrite Nat.add_0_r.
    destruct (String.eqb (tag u) t); [reflexivity|]. destruct us; reflexivity.
  - cbn [ponerUsuario]. cbn [buscarTag].
    destruct (String.eqb (tag x) t); [reflexivity|].
    rewrite IH by (simpl in H; lia).
    replace (S i + n)%nat with (i + S n)%nat by lia. reflexivity.
Qed.

(** X15. Registration.  With the registry full (two users) [registrarPorTag]
    changes neither the registry nor the session.  Otherwise a registration
    that returns has stored the tag, the name and the PIN that were read in
    the first free slot and counted one more user, leaving the other slots
    as they were, and this whether or not the confirmation tag matched; a
    login with that tag then finds the new user, unless an older user
    already has the same tag, who is still the one found. *)
Theorem registrarPorTag_registra (e : Entrada) (s s' : Sistema) :
  registrarPorTag e s = Some s' ->
  0 <= totalUsuarios s -> (Z.to_nat (totalUsuarios s) < List.length (usuarios s))%nat ->
  (2 <= totalUsuarios s -> sesion s' = sesion s)
  /\ (totalUsuarios s < 2 ->
      exists t s0 nom cl,
        esperarTag (lecturasTag e) s = Some (t, s0)
        /\ leerTexto (teclasTexto e) EmptyString = Some nom
        /\ leerClave (teclasClave e) EmptyString = Some cl
        /\ totalUsuarios s' = totalUsuarios s + 1
        /\ nth (Z.to_nat (totalUsuarios s)) (usuarios s') usuarioVacio = mkUsuario nom t cl
        /\ (forall k, k <> Z.to_nat (totalUsuarios s) ->
            nth k (usuarios s') usuarioVacio = nth k (usuarios s) usuarioVacio)
        /\ (estado s' = CONFORT \/ estado s' = MENU)
        /\ buscarTag (usuarios s') (Z.to_nat (totalUsuarios s')) 0 t
           = match buscarTag (usuarios s) (Z.to_nat (totalUsuarios s)) 0 t with
             | Some j => Some j
             | None => Some (Z.to_nat (totalUsuarios s))
             end).
Proof.
  intros H H0 Hl. apply registrarPorTag_efecto in H.
  destruct H as [(Ht & H) | (Ht & t & s0 & nom & cl & E1 & E2 & E3 & U & T' & _ & _ & C)].
  - split; [intros _; exact H | intros; lia].
  - split; [intros; lia|]. intros _.
    exists t, s0, nom, cl.
    split; [exact E1|]. split; [exact E2|]. split; [exact E3|]. split; [exact T'|].
    rewrite U, T'. split; [|split; [|split]].
    + rewrite ponerUsuario_nth by exact Hl. now rewrite Nat.eqb_refl.
    + intros k Hk. rewrite ponerUsuario_nth by exact Hl.
      destruct (Nat.eqb_spec k (Z.to_nat (totalUsuarios s))); [contradiction | reflexivity].
    + destruct C as [(C & _) | (C & _)]; auto.
    + replace (Z.to_nat (totalUsuarios s + 1)) with (S (Z.to_nat (totalUsuarios s))) by lia.
      rewrite buscarTag_poner by exact Hl.
      destruct (buscarTag (usuarios s) _ 0 t); [reflexivity|].
      cbn [tag]. now rewrite String.eqb_refl.
Qed.

Lemma registrarPorTag_registra_testigo :
  exists s', registrarPorTag registroNuevo inicial = Some s'
             /\ totalUsuarios s' = 2
             /\ nth 1 (usuarios s') usuarioVacio = mkUsuario "7" "A1B2C3D4" "9876".
Proof.
  assert (H : registrarPorTag registroNuevo inicial
              = Some (match registrarPorTag registroNuevo inicial with
                      | Some s => s
                      | None => inicial
                      end)) by (vm_compute; reflexivity).
  destruct (registrarPorTag_registra registroNuevo inicial _ H) as (_ & R).
  - vm_compute. discriminate.
  - vm_compute. lia.
  - destruct R as (t & s0 & nom & cl & E1 & E2 & E3 & T & N & _).
    + vm_compute. reflexivity.
    + eexists. split; [exact H|]. split; [exact T|].
      vm_compute in E1, E2, E3. injection E1 as <- _. injection E2 as <-. injection E3 as <-.
      exact N.
Defined.

(** ** Login *)

Lemma buscarTag_ninguno (t : string) (us : list Usuario) :
  forall total i,
  (forall k, (k < total)%nat -> (k < List.length us)%nat -> tag (nth k us usuarioVacio) <> t) ->
  buscarTag us total i t = None.
Proof.
  induction us as [|u us IH]; intros total i H; [destruct total; reflexivity|].
  destruct total as [|total]; [reflexivity|]. cbn [buscarTag].
  destruct (String.eqb (tag u) t) eqn:E.
  - apply String.eqb_eq in E. exfalso. apply (H 0%nat); [lia | simpl; lia | exact E].
  - apply IH. intros k Hk Hl. apply (H (S k)); [lia | simpl; lia].
Qed.

(** X16. Unknown tag.  In LOGIN, with the system unlocked, a tag that belongs
    to no registered user sends the session back to MENU after 2250 ms and
    leaves the failure counter and the lock untouched: presenting unknown
    cards never locks the system. *)
Theorem tag_desconocido_sin_castigo (e : Entrada) (s : Sistema) :
  estado s = LOGIN -> sistemaBloqueado s = false -> tagLeido e <> EmptyString ->
  (forall k, (k < Z.to_nat (totalUsuarios s))%nat -> (k < List.length (usuarios s))%nat ->
             tag (nth k (usuarios s) usuarioVacio) <> tagLeido e) ->
  exists s', loop e s = Some s'
    /\ estado s' = MENU /\ intentosFallidos s' = intentosFallidos s
    /\ sistemaBloqueado s' = false /\ usuarios s' = usuarios s
    /\ totalUsuarios s' = totalUsuarios s
    /\ reloj s' = wrap32 (reloj s + transcurrido e + 2250).
Proof.
  intros He Hb Ht Hn.
  pose proof (buscarTag_ninguno (tagLeido e) (usuarios s) (Z.to_nat (totalUsuarios s)) 0 Hn)
    as Eb.
  apply String.eqb_neq in Ht.
  unfold loop. rewrite verificarDesbloqueo_libre by exact Hb.
  destruct s. campos_en He. campos_en Hb. campos_en Eb. subst. campos.
  rewrite Ht. cbn [negb]. rewrite Eb.
  eexists. split; [reflexivity|]. campos.
  repeat split.
  repeat (rewrite wrap32_suma_l || rewrite <- Z.add_assoc). reflexivity.
Qed.

Lemma tag_desconocido_sin_castigo_testigo :
  exists s', loop (conTagYClave "00000000" []) (set_estado LOGIN inicial) = Some s'
             /\ estado s' = MENU
             /\ intentosFallidos s' = intentosFallidos (set_estado LOGIN inicial).
Proof.
  destruct (tag_desconocido_sin_castigo (conTagYClave "00000000" []) (set_estado LOGIN inicial))
    as (s' & L & E & I & _).
  - reflexivity.
  - reflexivity.
  - discriminate.
  - intros [|[|k]] H1 H2; vm_compute; try discriminate.
    vm_compute in H1. lia.
  - exists s'. repeat split; assumption.
Defined.

(** X17. Successful login.  In LOGIN, with the system unlocked, the tag of
    a registered user followed by that user's PIN opens CONFORT for that
    user after 3750 ms plus the time spent typing: the failure counter is
    reset, so that only consecutive failures add up, the band starts at
    PMV_CONFORT and the servo is set to 90 degrees. *)
Theorem login_correcto (e : Entrada) (s : Sistema) (i : nat) :
  estado s = LOGIN -> sistemaBloqueado s = false -> tagLeido e <> EmptyString ->
  buscarTag (usuarios s) (Z.to_nat (totalUsuarios s)) 0 (tagLeido e) = Some i ->
  leerClave (teclasClave e) EmptyString = Some (clave (nth i (usuarios s) usuarioVacio)) ->
  exists s', loop e s = Some s'
    /\ estado s' = CONFORT /\ usuarioActivo s' = Some i /\ intentosFallidos s' = 0
    /\ estadoPMVActual s' = PMV_CONFORT /\ estadoPMVAnterior s' = PMV_CONFORT
    /\ servoAnguloActual s' = 90 /\ servoAnguloDeseado s' = 90
    /\ servoEscrituras s' = 90 :: servoEscrituras s
    /\ ultimoCambioServo s' = reloj s'
    /\ reloj s' = wrap32 (reloj s + transcurrido e + esperaClave e + 3750).
Proof.
  intros He Hb Ht Eb Ec.
  apply String.eqb_neq in Ht.
  unfold loop. rewrite verificarDesbloqueo_libre by exact Hb.
  destruct s. campos_en He. campos_en Hb. campos_en Eb. campos_en Ec. subst. campos.
  rewrite Ht. cbn [negb]. rewrite Eb. unfold loginConTag. campos. rewrite Ec.
  rewrite String.eqb_refl.
  eexists. split; [reflexivity|]. campos.
  repeat split.
  repeat (rewrite wrap32_suma_l || rewrite <- Z.add_assoc). f_equal. lia.
Qed.

Lemma login_correcto_testigo :
  exists s', loop loginLaura (set_estado LOGIN inicial) = Some s' /\ estado s' = CONFORT.
Proof.
  destruct (login_correcto loginLaura (set_estado LOGIN inicial) 0)
    as (s' & L & E & _); try reflexivity.
  - discriminate.
  - exists s'. split; assumption.
Defined.

(** ** Blinking *)

(** X18. Blink timers.  [d] ms after the last toggle, whether or not the
    counter has wrapped in between, [alarmHandler] does nothing while
    [d < 500] and otherwise toggles once: red LED with the 2000 Hz tone, or
    LED and buzzer off.  [pmvBajoHandler] does the same for the blue LED with
    an on phase of at least 100 ms and an off phase of at least 400 ms. *)
Theorem parpadeo_sin_desborde (s : Sistema) (d : Z) :
  0 <= d < 2 ^ 32 ->
  (reloj s = wrap32 (lastAlarmToggle s + d) ->
   (d < alarmInterval -> alarmHandler s = s)
   /\ (alarmInterval <= d ->
       alarmToggleState (alarmHandler s) = negb (alarmToggleState s)
       /\ lastAlarmToggle (alarmHandler s) = reloj s
       /\ led (alarmHandler s) = (negb (alarmToggleState s), false, false)
       /\ zumbador (alarmHandler s) = if alarmToggleState s then None else Some 2000))
  /\ (reloj s = wrap32 (lastPmvBajoToggle s + d) ->
      let interval := if pmvBajoToggleState s then pmvBajoOnTime else pmvBajoOffTime in
      (d < interval -> pmvBajoHandler s = s)
      /\ (interval <= d ->
          pmvBajoToggleState (pmvBajoHandler s) = negb (pmvBajoToggleState s)
          /\ lastPmvBajoToggle (pmvBajoHandler s) = reloj s
          /\ led (pmvBajoHandler s) = (false, false, negb (pmvBajoToggleState s)))).
Proof.
  intros Hd. split.
  - intros Hr. unfold alarmHandler, millis.
    replace (wrap32 (reloj s - lastAlarmToggle s)) with d
      by (rewrite Hr; symmetry; apply wrap32_transcurrido; exact Hd).
    split; intros Hc.
    + apply Z.leb_gt in Hc. rewrite Hc. reflexivity.
    + apply Z.leb_le in Hc. rewrite Hc.
      destruct (alarmToggleState s) eqn:Ea; destruct s; campos_en Ea; subst; campos;
        repeat split.
  - intros Hr interval. unfold pmvBajoHandler, millis. fold interval.
    replace (wrap32 (reloj s - lastPmvBajoToggle s)) with d
      by (rewrite Hr; symmetry; apply wrap32_transcurrido; exact Hd).
    split; intros Hc.
    + apply Z.leb_gt in Hc. rewrite Hc. reflexivity.
    + apply Z.leb_le in Hc. rewrite Hc.
      destruct (pmvBajoToggleState s) eqn:Ea; destruct s; campos_en Ea; subst; campos;
        repeat split.
Qed.

Lemma parpadeo_sin_desborde_testigo :
  alarmToggleState
    (alarmHandler (set_reloj 100 (set_lastAlarmToggle (2 ^ 32 - 400) inicial))) = true.
Proof.
  refine (proj1 (proj2 (proj1 (parpadeo_sin_desborde
                                 (set_reloj 100 (set_lastAlarmToggle (2 ^ 32 - 400) inicial))
                                 500 _) _) _)).
  - lia.
  - vm_compute. reflexivity.
  - unfold alarmInterval. lia.
Defined.

(** ** Actuators at the end of a CONFORT iteration *)

Lemma mandos_iguales (a b : Sistema) :
  mandos a = mandos b ->
  estadoPMVActual a = estadoPMVActual b /\ rele a = rele b
  /\ servoAnguloDeseado a = servoAnguloDeseado b.
Proof. unfold mandos. intros H. injection H as H1 H2 H3. auto. Qed.

Lemma checkAlarm_mandos (p : float) (s : Sistema) : mandos (checkAlarm p s) = mandos s.
Proof. unfold checkAlarm, triggerAlarm, stopAlarm. romper; reflexivity. Qed.

Lemma checkPmvBajo_mandos (p : float) (s : Sistema) : mandos (checkPmvBajo p s) = mandos s.
Proof. unfold checkPmvBajo, triggerPmvBajo, stopPmvBajo. romper; reflexivity. Qed.

Lemma alarmHandler_mandos (s : Sistema) : mandos (alarmHandler s) = mandos s.
Proof. unfold alarmHandler. romper; reflexivity. Qed.

Lemma pmvBajoHandler_mandos (s : Sistema) : mandos (pmvBajoHandler s) = mandos s.
Proof. unfold pmvBajoHandler. romper; reflexivity. Qed.

Lemma confortConAlarma_mandos (k : ascii) (s : Sistema) :
  mandos (confortConAlarma k s) = mandos s.
Proof.
  rewrite <- (alarmHandler_mandos s). unfold confortConAlarma.
  set (sa := alarmHandler s). clearbody sa.
  unfold stopAlarm, stopPmvBajo. destruct sa. unfold mandos. campos.
  destruct (Ascii.eqb k "#"); destruct (Ascii.eqb k "*"); campos; romper; reflexivity.
Qed.

Lemma confortConPmvBajo_mandos (k : ascii) (s : Sistema) :
  mandos (confortConPmvBajo k s) = mandos s.
Proof.
  rewrite <- (pmvBajoHandler_mandos s). unfold confortConPmvBajo.
  destruct (Ascii.eqb k "#"); reflexivity.
Qed.

Lemma confortSinAlerta_mandos (k : ascii) (s : Sistema) :
  mandos (confortSinAlerta k s) = mandos s.
Proof. unfold confortSinAlerta. destruct (Ascii.eqb k "#"); reflexivity. Qed.

Lemma modoConfort_mandos (e : Entrada) (s : Sistema) :
  mandos (modoConfort e s) = mandos (setActuador (pmvDeEntrada e) s).
Proof.
  unfold modoConfort.
  set (p := pmvDeEntrada e). change (pmv (set_pmv p s)) with p.
  assert (A : mandos (setActuador p (set_pmv p s)) = mandos (setActuador p s)).
  { unfold mandos.
    destruct (setActuador_banda p (set_pmv p s)) as (A1 & A2 & A3).
    destruct (setActuador_banda p s) as (B1 & B2 & B3).
    rewrite A1, A2, A3, B1, B2, B3. reflexivity. }
  rewrite <- A.
  set (s2 := setActuador p (set_pmv p s)). clearbody s2.
  rewrite <- (checkAlarm_mandos (pmv s2) s2).
  set (s3 := checkAlarm (pmv s2) s2). clearbody s3.
  rewrite <- (checkPmvBajo_mandos (pmv s3) s3).
  set (s4 := checkPmvBajo (pmv s3) s3). clearbody s4.
  destruct (alarmActive s4); [apply confortConAlarma_mandos|].
  destruct (pmvBajoActive s4); [apply confortConPmvBajo_mandos | apply confortSinAlerta_mandos].
Qed.

(** X19. Actuators and band.  At the end of every CONFORT iteration,
    whatever key was pressed, the band is the one [setActuador] chose for
    the index of the iteration, the relay is on exactly in the bands
    PMV_CALOR and PMV_MUY_CALOR and the servo target is the angle of the
    band (180, 135, 90, 45 or 0 degrees from the coldest to the hottest):
    neither the alarm handling nor the exit with '#' writes the relay. *)
Theorem actuadores_segun_banda (e : Entrada) (s : Sistema) :
  let s' := modoConfort e s in
  estadoPMVActual s' = nuevoEstado (estadoPMVActual s) (pmvDeEntrada e)
  /\ rele s' = releDeBanda (estadoPMVActual s')
  /\ servoAnguloDeseado s' = anguloDeBanda (estadoPMVActual s').
Proof.
  intros s'. destruct (mandos_iguales _ _ (modoConfort_mandos e s)) as (M1 & M2 & M3).
  fold s' in M1, M2, M3. clearbody s'.
  destruct (setActuador_banda (pmvDeEntrada e) s) as (B1 & B2 & B3).
  rewrite M1, M2, M3, B1, B2, B3. repeat split.
Qed.

(** ** Leaving CONFORT *)

Lemma confortConAlarma_sale (s : Sistema) :
  alarmActive (confortConAlarma "#" s) = false
  /\ pmvBajoActive (confortConAlarma "#" s) = false
  /\ zumbador (confortConAlarma "#" s) = None.
Proof.
  unfold confortConAlarma. set (sa := alarmHandler s). clearbody sa.
  change (Ascii.eqb "#" "*") with false. change (Ascii.eqb "#" "#") with true.
  cbv iota. unfold stopAlarm, stopPmvBajo. destruct sa. campos. repeat split.
Qed.

Lemma confortConPmvBajo_sale (s : Sistema) :
  alarmActive (confortConPmvBajo "#" s) = alarmActive s
  /\ pmvBajoActive (confortConPmvBajo "#" s) = false.
Proof.
  unfold confortConPmvBajo.
  destruct (pmvBajoHandler_marco s) as (A & _).
  set (sa := pmvBajoHandler s) in *. clearbody sa.
  unfold alertas in A.
  assert (A1 : alarmActive sa = alarmActive s) by congruence.
  change (Ascii.eqb "#" "#") with true. cbv iota. rewrite <- A1.
  unfold stopPmvBajo. destruct sa. campos. split; reflexivity.
Qed.

(** X20. Exit with '#'.  A CONFORT iteration in which '#' is pressed ends in
    MENU with no active user, with the alarm and the low-PMV indicator both
    inactive and with 90 degrees as the last angle written to the servo,
    and it leaves the registry as it was. *)
Theorem salida_con_almohadilla (e : Entrada) (s : Sistema) :
  tecla e = "#"%char ->
  let s' := modoConfort e s in
  estado s' = MENU /\ usuarioActivo s' = None
  /\ alarmActive s' = false /\ pmvBajoActive s' = false
  /\ hd_error (servoEscrituras s') = Some 90
  /\ usuarios s' = usuarios s /\ totalUsuarios s' = totalUsuarios s.
Proof.
  intros Hk s'.
  destruct (modoConfort_salida e s) as (S1 & S2 & _ & _ & S5). fold s' in S1, S2, S5.
  destruct (modoConfort_servo e s) as (mov & _ & W). fold s' in W.
  rewrite Hk in S5, W. change (Ascii.eqb "#" "#") with true in S5, W. cbv iota in S5, W.
  destruct S5 as (S5 & S6 & _). destruct W as (W & _).
  split; [exact S5|]. split; [exact S6|].
  assert (A : alarmActive s' = false /\ pmvBajoActive s' = false).
  { subst s'. unfold modoConfort. rewrite Hk.
    match goal with
    | |- context [if alarmActive ?x then _ else _] => set (s4 := x)
    end.
    clearbody s4. clear.
    destruct (alarmActive s4) eqn:Ea.
    - destruct (confortConAlarma_sale s4) as (A & B & _). split; assumption.
    - destruct (pmvBajoActive s4) eqn:Eb.
      + destruct (confortConPmvBajo_sale s4) as (A & B). rewrite A, B, Ea. split; reflexivity.
      + destruct (confortSinAlerta_alertas "#" s4) as (A & _).
        unfold alertas in A.
        assert (A1 : alarmActive (confortSinAlerta "#" s4) = alarmActive s4) by congruence.
        assert (A2 : pmvBajoActive (confortSinAlerta "#" s4) = pmvBajoActive s4) by congruence.
        rewrite A1, A2, Ea, Eb. split; reflexivity. }
  destruct A as (A1 & A2).
  split; [exact A1|]. split; [exact A2|]. rewrite W.
  split; [reflexivity|]. split; assumption.
Qed.

Lemma salida_con_almohadilla_testigo :
  estado (modoConfort (muestraCaliente 0 "#") trasLogin) = MENU.
Proof.
  exact (proj1 (salida_con_almohadilla (muestraCaliente 0 "#") trasLogin eq_refl)).
Defined.

(** ** Silence window without wrap-around *)



(** ** Alerts and actuators *)

Lemma alertas_iguales (a b : Sistema) :
  alertas a = alertas b ->
  alarmActive a = alarmActive b /\ alarmSilenced a = alarmSilenced b
  /\ pmvBajoActive a = pmvBajoActive b.
Proof. unfold alertas. intros H. injection H as H1 H2 H3. auto. Qed.

(** The alert flags after the three checks of a CONFORT iteration. *)
Lemma modoConfort_controles (e : Entrada) (s : Sistema) :
  alarmSilenced s = false ->
  let p := pmvDeEntrada e in
  let s4 := checkPmvBajo p (checkAlarm p (setActuador p (set_pmv p s))) in
  alarmActive s4 = F32.gt p PMV_ALARM_THRESHOLD
  /\ pmvBajoActive s4 = F32.lt p PMV_BAJO_THRESHOLD
  /\ modoConfort e s
     = if alarmActive s4 then confortConAlarma (tecla e) s4
       else if pmvBajoActive s4 then confortConPmvBajo (tecla e) s4
       else confortSinAlerta (tecla e) s4.
Proof.
  intros Hs p s4.
  destruct (setActuador_marco p (set_pmv p s)) as (A & _ & C & _).
  destruct (alertas_iguales _ _ A) as (_ & A2 & _).
  change (alarmSilenced (set_pmv p s)) with (alarmSilenced s) in A2.
  change (pmv (set_pmv p s)) with p in C.
  assert (E : modoConfort e s
              = if alarmActive s4 then confortConAlarma (tecla e) s4
                else if pmvBajoActive s4 then confortConPmvBajo (tecla e) s4
                else confortSinAlerta (tecla e) s4).
  { unfold modoConfort. fold p. change (pmv (set_pmv p s)) with p.
    set (s2 := setActuador p (set_pmv p s)) in *.
    destruct (checkAlarm_casos p s2) as (_ & B2 & _).
    rewrite C. set (s3 := checkAlarm p s2) in *. rewrite B2, C. reflexivity. }
  split; [|split; [|exact E]].
  - subst s4. set (s2 := setActuador p (set_pmv p s)) in *. clearbody s2.
    destruct (checkAlarm_casos p s2) as (_ & _ & B3).
    destruct (checkPmvBajo_casos p (checkAlarm p s2)) as (_ & D2 & _).
    rewrite D2. destruct B3 as [(G1 & _) | (_ & _ & G3)]; [congruence | exact G3].
  - subst s4. destruct (checkPmvBajo_casos p (checkAlarm p (setActuador p (set_pmv p s))))
      as (D1 & _). exact D1.
Qed.

(** X22. Alerts and index.  When the alarm is not silenced and neither '*' nor
    '#' is pressed, a CONFORT iteration ends with the alarm active exactly
    when its index exceeds 0.7 and with the low-PMV indicator active exactly
    when its index is below -0.7. *)
Theorem alertas_siguen_al_indice (e : Entrada) (s : Sistema) :
  alarmSilenced s = false -> tecla e <> "*"%char -> tecla e <> "#"%char ->
  alarmActive (modoConfort e s) = F32.gt (pmvDeEntrada e) PMV_ALARM_THRESHOLD
  /\ pmvBajoActive (modoConfort e s) = F32.lt (pmvDeEntrada e) PMV_BAJO_THRESHOLD.
Proof.
  intros Hs K1 K2. apply Ascii.eqb_neq in K1, K2.
  destruct (modoConfort_controles e s Hs) as (A & B & E). cbv zeta in A, B, E.
  set (s4 := checkPmvBajo _ _) in *. clearbody s4.
  rewrite E, <- A, <- B. clear E A B.
  destruct (alarmActive s4) eqn:Ea.
  - unfold confortConAlarma. rewrite K1, K2.
    destruct (alarmHandler_marco s4) as (H & _).
    destruct (alertas_iguales _ _ H) as (H1 & _ & H3).
    set (sa := alarmHandler s4) in *. clearbody sa.
    rewrite <- Ea, <- H1, <- H3. destruct (_ && _); split; reflexivity.
  - destruct (pmvBajoActive s4) eqn:Eb.
    + unfold confortConPmvBajo. rewrite K2.
      destruct (pmvBajoHandler_marco s4) as (H & _).
      destruct (alertas_iguales _ _ H) as (H1 & _ & H3).
      set (sa := pmvBajoHandler s4) in *. clearbody sa.
      rewrite <- Ea, <- Eb, <- H1, <- H3. split; reflexivity.
    + destruct (confortSinAlerta_alertas (tecla e) s4) as (H & _).
      destruct (alertas_iguales _ _ H) as (H1 & _ & H3).
      rewrite H1, H3, Ea, Eb. split; reflexivity.
Qed.

Lemma alertas_siguen_al_indice_testigo :
  alarmActive (modoConfort (muestraCaliente 0 NO_KEY) trasLogin) = true.
Proof.
  refine (eq_trans (proj1 (alertas_siguen_al_indice (muestraCaliente 0 NO_KEY) trasLogin
                             _ _ _)) _).
  - vm_compute. reflexivity.
  - discriminate.
  - discriminate.
  - vm_compute. reflexivity.
Defined.

Lemma nuevoEstado_sobre_umbral (b : EstadoPMV) (p : float) :
  F32.gt p PMV_ALARM_THRESHOLD = true ->
  nuevoEstado b p = PMV_CALOR \/ nuevoEstado b p = PMV_MUY_CALOR.
Proof.
  unfold F32.gt. intros H. unfold nuevoEstado.
  destruct (F32.gt p (F32.lit 8 10)); [right; reflexivity|].
  assert (G : F32.gt p (F32.lit 4 10) = true).
  { unfold F32.gt. apply (SFltb_trans _ PMV_ALARM_THRESHOLD); [vm_compute; reflexivity | exact H]. }
  rewrite G.
  destruct (EstadoPMV_eqb b PMV_MUY_CALOR) eqn:E; cbn [negb orb]; [|left; reflexivity].
  apply EstadoPMV_eqb_eq in E. destruct (F32.lt p (F32.lit 6 10)); [left; reflexivity|].
  right. exact E.
Qed.

Lemma nuevoEstado_bajo_umbral (b : EstadoPMV) (p : float) :
  F32.lt p PMV_BAJO_THRESHOLD = true ->
  nuevoEstado b p = PMV_BAJO \/ nuevoEstado b p = PMV_MUY_BAJO.
Proof.
  unfold F32.lt. intros H. unfold nuevoEstado.
  assert (G1 : F32.gt p (F32.lit 8 10) = false).
  { unfold F32.gt. apply SFleb_not_ltb. apply SFltb_leb.
    apply (SFltb_trans _ PMV_BAJO_THRESHOLD); [exact H | vm_compute; reflexivity]. }
  assert (G2 : F32.gt p (F32.lit 4 10) = false).
  { unfold F32.gt. apply SFleb_not_ltb. apply SFltb_leb.
    apply (SFltb_trans _ PMV_BAJO_THRESHOLD); [exact H | vm_compute; reflexivity]. }
  assert (G3 : F32.ge p (F32.opp (F32.lit 4 10)) = false).
  { unfold F32.ge. apply SFltb_not_leb.
    apply (SFltb_trans _ PMV_BAJO_THRESHOLD); [exact H | vm_compute; reflexivity]. }
  assert (G4 : F32.lt p (F32.lit 3 10) = true).
  { unfold F32.lt. apply (SFltb_trans _ PMV_BAJO_THRESHOLD); [exact H | vm_compute; reflexivity]. }
  rewrite G1, G2, G3, G4. cbn [andb].
  destruct (F32.ge p (F32.opp (F32.lit 8 10))) eqn:G5.
  - destruct (EstadoPMV_eqb b PMV_MUY_BAJO) eqn:E; cbn [negb orb]; [|left; reflexivity].
    apply EstadoPMV_eqb_eq in E.
    destruct (F32.gt p (F32.opp (F32.lit 6 10))); [left; reflexivity | right; exact E].
  - destruct (F32.lt p (F32.opp (F32.lit 8 10))) eqn:G6; [right; reflexivity|].
    exfalso. unfold F32.lt in G6. unfold F32.ge in G5.
    destruct (SFltb_false _ _ G6) as [L | [N | N]].
    + congruence.
    + destruct p; try discriminate N. discriminate H.
    + discriminate N.
Qed.

(** X23. Alerts and fan.  In every state the program can reach, a CONFORT
    iteration that ends with the alarm active ends in band PMV_CALOR or
    PMV_MUY_CALOR with the relay on, and one that ends with the low-PMV
    indicator active ends in band PMV_BAJO or PMV_MUY_BAJO with the relay
    off. *)
Theorem alerta_y_ventilador (e : Entrada) (s : Sistema) :
  alcanzable s ->
  let s' := modoConfort e s in
  (alarmActive s' = true ->
   rele s' = true
   /\ (estadoPMVActual s' = PMV_CALOR \/ estadoPMVActual s' = PMV_MUY_CALOR))
  /\ (pmvBajoActive s' = true ->
      rele s' = false
      /\ (estadoPMVActual s' = PMV_BAJO \/ estadoPMVActual s' = PMV_MUY_BAJO)).
Proof.
  intros Hs s'. apply alcanzable_alertasCoherentes in Hs. destruct Hs as (H1 & _).
  destruct (modoConfort_alertas e s H1) as (P & A & B & _). fold s' in P, A, B.
  rewrite P in A, B.
  destruct (mandos_iguales _ _ (modoConfort_mandos e s)) as (M1 & M2 & _).
  fold s' in M1, M2.
  destruct (setActuador_banda (pmvDeEntrada e) s) as (B1 & B2 & _).
  rewrite M1, M2, B1, B2. clearbody s'.
  split; intros Ha.
  - destruct (nuevoEstado_sobre_umbral (estadoPMVActual s) _ (A Ha)) as [E | E];
      rewrite E; split; auto.
  - destruct (nuevoEstado_bajo_umbral (estadoPMVActual s) _ (B Ha)) as [E | E];
      rewrite E; split; auto.
Qed.

Lemma alerta_y_ventilador_testigo :
  rele (modoConfort (muestraCaliente 0 NO_KEY) trasLogin) = true.
Proof.
  refine (proj1 (proj1 (alerta_y_ventilador (muestraCaliente 0 NO_KEY) trasLogin
                          trasLogin_alcanzable) _)).
  vm_compute. reflexivity.
Defined.

(** ** Buzzer *)

Lemma zumbadorJustificado_marco (s s' : Sistema) :
  sirena s' = sirena s -> zumbadorJustificado s -> zumbadorJustificado s'.
Proof.
  unfold sirena, zumbadorJustificado. intros H. injection H as H1 H2 H3.
  rewrite H1, H2, H3. auto.
Qed.

Lemma zumbadorJustificado_callado (s : Sistema) :
  zumbador s = None -> zumbadorJustificado s.
Proof. intros H f E. congruence. Qed.

Lemma actualizarServo_sirena (a : Z) (s : Sistema) :
  sirena (actualizarServo a s) = sirena s.
Proof.
  unfold actualizarServo.
  destruct (negb (a =? servoAnguloDeseado s)); simpl; destruct (_ && _); reflexivity.
Qed.

Lemma setActuador_sirena (p : float) (s : Sistema) :
  sirena (setActuador p s) = sirena s.
Proof.
  unfold setActuador.
  set (s1 := if negb _ then _ else s).
  assert (H1 : sirena s1 = sirena s) by (unfold s1; destruct (negb _); reflexivity).
  rewrite <- H1. clearbody s1.
  destruct (estadoPMVActual s1);
    match goal with
    | |- context [actualizarServo ?a ?t] =>
        pose proof (actualizarServo_sirena a t) as G;
        set (u := actualizarServo a t) in *; clearbody u
    end;
    change (sirena (digitalWrite_RELAY _ s1)) with (sirena s1) in G;
    rewrite <- G; romper; reflexivity.
Qed.

Lemma checkPmvBajo_sirena (p : float) (s : Sistema) : sirena (checkPmvBajo p s) = sirena s.
Proof. unfold checkPmvBajo, triggerPmvBajo, stopPmvBajo. romper; reflexivity. Qed.

Lemma checkAlarm_zumbador (p : float) (s : Sistema) :
  zumbadorJustificado s -> zumbadorJustificado (checkAlarm p s).
Proof.
  intros H. unfold checkAlarm.
  destruct (alarmSilenced s && _); [exact H|]. cbv zeta.
  change (alarmActive (set_alarmSilenced false s)) with (alarmActive s).
  destruct (F32.gt p PMV_ALARM_THRESHOLD); destruct (alarmActive s) eqn:Ea; cbn [negb].
  - apply (zumbadorJustificado_marco s); [|exact H].
    unfold sirena. cbn [zumbador alarmActive sistemaBloqueado set_alarmSilenced].
    reflexivity.
  - intros f E. left. unfold triggerAlarm in *. cbn in E. injection E as <-.
    split; reflexivity.
  - apply zumbadorJustificado_callado. reflexivity.
  - apply (zumbadorJustificado_marco s); [|exact H].
    unfold sirena. cbn [zumbador alarmActive sistemaBloqueado set_alarmSilenced].
    reflexivity.
Qed.

Lemma confortConAlarma_zumbador (k : ascii) (s : Sistema) :
  alarmActive s = true -> zumbadorJustificado s ->
  zumbadorJustificado (confortConAlarma k s).
Proof.
  intros Ha H. unfold confortConAlarma.
  assert (G : alarmActive (alarmHandler s) = true /\ zumbadorJustificado (alarmHandler s)).
  { unfold alarmHandler, zumbadorJustificado in *.
    destruct s. campos_en Ha. subst. campos_en H. campos.
    romper; campos; (split; [reflexivity|]); intros f E;
      first [discriminate E | injection E as <-; left; split; reflexivity | exact (H f E)]. }
  destruct G as (G1 & G2). set (sa := alarmHandler s) in *. clearbody sa.
  destruct (Ascii.eqb k "#").
  - apply zumbadorJustificado_callado. unfold stopAlarm, stopPmvBajo.
    destruct (Ascii.eqb k "*"); destruct sa; campos; reflexivity.
  - destruct (Ascii.eqb k "*").
    + apply zumbadorJustificado_callado. unfold stopAlarm.
      destruct sa; campos; romper; reflexivity.
    + apply (zumbadorJustificado_marco sa); [|exact G2].
      destruct (_ && _); reflexivity.
Qed.

Lemma pmvBajoHandler_sirena (s : Sistema) : sirena (pmvBajoHandler s) = sirena s.
Proof. unfold pmvBajoHandler. romper; reflexivity. Qed.

Lemma confortConPmvBajo_sirena (k : ascii) (s : Sistema) :
  sirena (confortConPmvBajo k s) = sirena s.
Proof.
  rewrite <- (pmvBajoHandler_sirena s). unfold confortConPmvBajo.
  destruct (Ascii.eqb k "#"); reflexivity.
Qed.

Lemma confortSinAlerta_sirena (k : ascii) (s : Sistema) :
  sirena (confortSinAlerta k s) = sirena s.
Proof. unfold confortSinAlerta. destruct (Ascii.eqb k "#"); reflexivity. Qed.

Lemma modoConfort_zumbador (e : Entrada) (s : Sistema) :
  zumbadorJustificado s -> zumbadorJustificado (modoConfort e s).
Proof.
  intros H. unfold modoConfort.
  set (p := pmvDeEntrada e). change (pmv (set_pmv p s)) with p.
  assert (H2 : zumbadorJustificado (setActuador p (set_pmv p s))).
  { apply (zumbadorJustificado_marco s); [|exact H].
    rewrite setActuador_sirena. reflexivity. }
  set (s2 := setActuador p (set_pmv p s)) in *. clearbody s2.
  pose proof (checkAlarm_zumbador (pmv s2) s2 H2) as H3.
  set (s3 := checkAlarm (pmv s2) s2) in *. clearbody s3.
  assert (H4 : zumbadorJustificado (checkPmvBajo (pmv s3) s3)).
  { apply (zumbadorJustificado_marco s3); [apply checkPmvBajo_sirena | exact H3]. }
  set (s4 := checkPmvBajo (pmv s3) s3) in *. clearbody s4.
  destruct (alarmActive s4) eqn:Ea; [apply confortConAlarma_zumbador; assumption|].
  destruct (pmvBajoActive s4).
  - apply (zumbadorJustificado_marco s4); [apply confortConPmvBajo_sirena | exact H4].
  - apply (zumbadorJustificado_marco s4); [apply confortSinAlerta_sirena | exact H4].
Qed.

Lemma verificarDesbloqueo_zumbador (s : Sistema) :
  zumbadorJustificado s -> zumbadorJustificado (verificarDesbloqueo s).
Proof.
  intros H. unfold verificarDesbloqueo.
  destruct (sistemaBloqueado s) eqn:Eb; [|exact H].
  destruct (_ <=? _).
  - apply zumbadorJustificado_callado. reflexivity.
  - destruct (_ =? 0).
    + intros f E. cbn in E. injection E as <-. right. split; [exact Eb | reflexivity].
    + apply zumbadorJustificado_callado. reflexivity.
Qed.

Lemma registrarPorTag_callado (e : Entrada) (s s' : Sistema) :
  registrarPorTag e s = Some s' -> zumbador s' = None.
Proof.
  unfold registrarPorTag. intros H.
  destruct (2 <=? totalUsuarios s).
  { injection H as H. subst s'. reflexivity. }
  destruct (esperarTag (lecturasTag e) s) as [[t s1]|]; [|discriminate].
  destruct (leerTexto _ _) as [nom|]; [|discriminate].
  destruct (leerClave _ _) as [cl|]; [|discriminate].
  destruct (esperarTag (lecturasConfirm e) _) as [[tc s2]|]; [|discriminate].
  destruct (String.eqb tc t); injection H as H; subst s'; reflexivity.
Qed.

Lemma loginConTag_callado (i : nat) (e : Entrada) (s s' : Sistema) :
  loginConTag i e s = Some s' -> zumbador s' = None.
Proof.
  unfold loginConTag. intros H.
  destruct (leerClave _ _) as [cl|]; [|discriminate].
  destruct (String.eqb cl _); injection H as H; subst s'; [reflexivity|].
  destruct (3 <=? _); reflexivity.
Qed.

Lemma loop_zumbador (e : Entrada) (s s' : Sistema) :
  zumbadorJustificado s -> loop e s = Some s' -> zumbadorJustificado s'.
Proof.
  intros Hz H. unfold loop in H.
  assert (H1 : zumbadorJustificado (verificarDesbloqueo (delay (transcurrido e) s))).
  { apply verificarDesbloqueo_zumbador.
    apply (zumbadorJustificado_marco s); [reflexivity | exact Hz]. }
  set (s1 := verificarDesbloqueo (delay (transcurrido e) s)) in *. clearbody s1.
  destruct (estado s1).
  - destruct (Ascii.eqb (tecla e) "1").
    { injection H as H. subst s'.
      apply (zumbadorJustificado_marco s1); [reflexivity | exact H1]. }
    destruct (Ascii.eqb (tecla e) "2").
    + apply zumbadorJustificado_callado. exact (registrarPorTag_callado e s1 s' H).
    + injection H as H. subst s'. exact H1.
  - destruct (negb _).
    + destruct (buscarTag _ _ _ _) as [i|].
      * apply zumbadorJustificado_callado. exact (loginConTag_callado i e s1 s' H).
      * injection H as H. subst s'. apply zumbadorJustificado_callado. reflexivity.
    + injection H as H. subst s'. exact H1.
  - injection H as H. subst s'. apply modoConfort_zumbador. exact H1.
Qed.

Lemma alcanzable_zumbador (s : Sistema) : alcanzable s -> zumbadorJustificado s.
Proof.
  induction 1 as [|e s s' _ IH Hl].
  - apply zumbadorJustificado_callado. reflexivity.
  - exact (loop_zumbador e s s' IH Hl).
Qed.

(** X24. Buzzer.  In every state the program can reach, between two
    iterations of [loop()], a tone is sounding only if the alarm is active,
    and then it is the 2000 Hz tone, or if the system is locked, and then it
    is the 1000 Hz tone: the beeps of the menus, of the login and of the
    registration never leave the buzzer on. *)
Theorem zumbador_justificado (s : Sistema) (f : Z) :
  alcanzable s -> zumbador s = Some f ->
  (alarmActive s = true /\ f = 2000) \/ (sistemaBloqueado s = true /\ f = 1000).
Proof. intros H E. exact (alcanzable_zumbador s H f E). Qed.

Lemma zumbador_justificado_testigo :
  (alarmActive (modoConfort (muestraCaliente 0 NO_KEY) trasLogin) = true /\ 2000 = 2000)
  \/ (sistemaBloqueado (modoConfort (muestraCaliente 0 NO_KEY) trasLogin) = true
      /\ 2000 = 1000).
Proof.
  apply (zumbador_justificado (modoConfort (muestraCaliente 0 NO_KEY) trasLogin) 2000).
  - apply (alc_loop (muestraCaliente 0 NO_KEY) trasLogin _ trasLogin_alcanzable).
    vm_compute. reflexivity.
  - vm_compute. reflexivity.
Defined.
